(** * Smartphone expert system: inference engine

    A shallow embedding of the three modules of [inference_engine/]:
    - [certainty_factor.py]  (module [CF]),
    - [forward_chaining.py]  (module [FC]),
    - [backward_chaining.py] (module [BC]).

    Conventions of the embedding.
    - A Python [float] holding a certainty factor is an exact rational
      ([Q]); comparisons [==], [<], [>=] are [Qeq_bool], [Qlt], [Qle].
      Rounding is not modelled there: equalities between certainty
      factors are stated with [==] on [Q]. Module [Binary64] repeats the
      combination operators on IEEE 754 binary64 numbers, which is what a
      Python [float] is, for the scenarios stated with a tolerance. The
      laws stated over [Q] are those that rounding to nearest keeps:
      ranges, order, and the equality of expressions that are the same
      up to the symmetry of [+] and [min]. Laws that need exact
      arithmetic, such as the order independence of a combination within
      one sign, are not stated.
    - A Python [set] of facts is a [gset string], a [dict] keyed by facts a
      [gmap string _]; the rule dictionary is an association list in
      insertion order (the order of [dict.items()]).
    - An exception is the [None] of an [option] result.
    - [datetime.now()] stamps and the free-text [description] of trace
      entries carry no information used by the engine and are left out. *)

From Stdlib Require Import QArith Qabs Qminmax ZArith List Bool Lia Lqa.
From Stdlib Require Import Permutation Sorted Ascii.
From stdpp Require Import gmap strings list.
From Corelib Require PrimFloat.


#[local] Set Warnings "-clear-no-such-hyp,-inexact-float".

Local Open Scope Q_scope.

(** ** Certainty factor algebra ([certainty_factor.py]) *)

Module CF.

(** Python's [a / b] on floats: raises [ZeroDivisionError] when [b == 0]. *)
Definition py_div (a b : Q) : option Q :=
  if Qeq_bool b 0 then None else Some (a / b).

(** [a > 0] and [a < 0] as the booleans the [if] tests. *)
Definition Qpos_b (a : Q) : bool := negb (Qle_bool a 0).
Definition Qneg_b (a : Q) : bool := negb (Qle_bool 0 a).

(** [CertaintyFactor.calculate_cf] *)
Definition calculate_cf (mb md : Q) : Q := mb - md.

(** [CertaintyFactor.combine_sequential_cf] *)
Definition combine_sequential_cf (cf1 cf2 : Q) : option Q :=
  if Qpos_b cf1 && Qpos_b cf2 then
    Some (cf1 + cf2 * (1 - cf1))
  else if Qneg_b cf1 && Qneg_b cf2 then
    Some (cf1 + cf2 * (1 + cf1))
  else
    let denominator := 1 - Qmin (Qabs cf1) (Qabs cf2) in
    if Qeq_bool denominator 0 then Some 0
    else py_div (cf1 + cf2) denominator.

(** [CertaintyFactor.combine_parallel_cf]: the loop over [cf_list[1:]]. *)
Fixpoint combine_parallel_loop (result : Q) (rest : list Q) : option Q :=
  match rest with
  | [] => Some result
  | cf :: rest' =>
      match combine_sequential_cf result cf with
      | Some result' => combine_parallel_loop result' rest'
      | None => None
      end
  end.

Definition combine_parallel_cf (cf_list : list Q) : option Q :=
  match cf_list with
  | [] => Some 0
  | first :: rest => combine_parallel_loop first rest
  end.

(** [CertaintyFactor.cf_with_user_certainty] *)
Definition cf_with_user_certainty (cf_rule cf_user : Q) : Q := cf_rule * cf_user.

(** [CertaintyFactor.interpret_cf] *)
Definition interpret_cf (cf : Q) : string * string :=
  let cf := Qabs cf in
  if Qle_bool (9 # 10) cf then
    ("Sangat Yakin", "Diagnosis ini sangat mungkin benar")%string
  else if Qle_bool (7 # 10) cf then
    ("Yakin", "Diagnosis ini kemungkinan besar benar")%string
  else if Qle_bool (5 # 10) cf then
    ("Cukup Yakin", "Diagnosis ini cukup mungkin benar")%string
  else if Qle_bool (3 # 10) cf then
    ("Kurang Yakin", "Diagnosis ini mungkin benar")%string
  else if Qle_bool (1 # 10) cf then
    ("Tidak Yakin", "Diagnosis ini kurang mungkin benar")%string
  else
    ("Sangat Tidak Yakin", "Diagnosis ini sangat kecil kemungkinannya")%string.

(** [CertaintyFactor.get_confidence_percentage] *)
Definition get_confidence_percentage (cf : Q) : Q := ((cf + 1) / 2) * 100.

(** [returns o v]: the call returned normally, with a value equal to [v]. *)
Definition returns (o : option Q) (v : Q) : Prop :=
  match o with Some w => w == v | None => False end.

End CF.

(** ** The combination operators on binary64 numbers *)

Module Binary64.
Import PrimFloat.
Local Open Scope float_scope.

(** Python's [a / b] on floats: raises [ZeroDivisionError] when [b == 0]. *)
Definition py_div (a b : float) : option float :=
  if b =? 0 then None else Some (a / b).

(** Python's [min(a, b)]: [b] when [b < a], else [a]. *)
Definition py_min (a b : float) : float := if b <? a then b else a.

(** [CertaintyFactor.combine_sequential_cf] *)
Definition combine_sequential_cf (cf1 cf2 : float) : option float :=
  if (0 <? cf1) && (0 <? cf2) then
    Some (cf1 + cf2 * (1 - cf1))
  else if (cf1 <? 0) && (cf2 <? 0) then
    Some (cf1 + cf2 * (1 + cf1))
  else
    let denominator := 1 - py_min (abs cf1) (abs cf2) in
    if denominator =? 0 then Some 0
    else py_div (cf1 + cf2) denominator.

(** Module-level [combine_certainty_factors] of [forward_chaining.py]. *)
Definition combine_certainty_factors (cf1 cf2 : float) : option float :=
  if (0 <? cf1) && (0 <? cf2) then
    Some (cf1 + cf2 * (1 - cf1))
  else if (cf1 <? 0) && (cf2 <? 0) then
    Some (cf1 + cf2 * (1 + cf1))
  else
    py_div (cf1 + cf2) (1 - py_min (abs cf1) (abs cf2)).

(** [within tolerance o expected]: the call returned a value less than
    [tolerance] away from [expected]. *)
Definition within (tolerance : float) (o : option float) (expected : float)
  : bool :=
  match o with
  | Some v => abs (v - expected) <? tolerance
  | None => false
  end.

End Binary64.

(** ** Rules shared by both chainers

    A rule is one value of the [rules] dictionary of [rules.json]: the
    antecedents [IF] (a missing key reads as the empty list through
    [rule.get('IF', [])]), the consequent [THEN] and the certainty factor
    [CF] (a missing key reads as [1.0] through [rule.get('CF', 1.0)]).
    [THEN] is a string, possibly empty: [kb_manager.py] writes every rule
    with one, and a rule without the key is not modelled. *)

Record rule := Rule {
  IF : list string;
  THEN : string;
  CF : option Q
}.

Definition rule_cf (r : rule) : Q := default 1 (CF r).

(** [self.rules]: the dictionary as the list of its items, in insertion
    order. A dictionary has no two items with the same key. *)
Definition rule_base := list (string * rule).

Definition unique_ids (rules : rule_base) : Prop := NoDup (rules.*1).

(** Truth value of a Python string: only the empty string is false. *)
Definition truthy (s : string) : bool :=
  match s with EmptyString => false | _ => true end.

(** ** Forward chaining ([forward_chaining.py]) *)

Module FC.

Inductive event :=
| fact_added (fact : string)
| rule_fired (rule_id : string) (conditions : list string)
             (conclusion : string) (cf : Q).

Record state := State {
  working_memory : gset string;
  inferred_facts : gset string;
  fired_rules : list string;
  reasoning_trace : list event;
  diagnosis_scores : gmap string Q
}.

(** The fields as [__init__] leaves them. *)
Definition init : state :=
  {| working_memory := ∅; inferred_facts := ∅; fired_rules := [];
     reasoning_trace := []; diagnosis_scores := ∅ |}.

(** [ForwardChaining.reset] *)
Definition reset (st : state) : state := init.

(** [ForwardChaining.add_facts] *)
Fixpoint add_facts (facts : list string) (st : state) : state :=
  match facts with
  | [] => st
  | fact :: facts' =>
      add_facts facts'
        {| working_memory := working_memory st ∪ {[fact]};
           inferred_facts := inferred_facts st;
           fired_rules := fired_rules st;
           reasoning_trace := reasoning_trace st ++ [fact_added fact];
           diagnosis_scores := diagnosis_scores st |}
  end.

(** [ForwardChaining.can_fire_rule] *)
Definition can_fire_rule (r : rule) (st : state) : bool :=
  let all_facts := working_memory st ∪ inferred_facts st in
  forallb (fun condition => bool_decide (condition ∈ all_facts)) (IF r).

(** Reading a [defaultdict(float)]: a missing key reads as [0.0]. *)
Definition score (scores : gmap string Q) (k : string) : Q :=
  default 0 (scores !! k).

(** [ForwardChaining.fire_rule] *)
Definition fire_rule (rule_id : string) (r : rule) (st : state)
  : option string * state :=
  if bool_decide (rule_id ∈ fired_rules st) then (None, st)
  else
    let conclusion := THEN r in
    let cf := rule_cf r in
    (Some conclusion,
     {| working_memory := working_memory st;
        inferred_facts := inferred_facts st ∪ {[conclusion]};
        fired_rules := fired_rules st ++ [rule_id];
        reasoning_trace :=
          reasoning_trace st ++ [rule_fired rule_id (IF r) conclusion cf];
        diagnosis_scores :=
          <[conclusion := score (diagnosis_scores st) conclusion + cf]>
            (diagnosis_scores st) |}).

(** The body of the [for rule_id, rule in self.rules.items()] loop of
    [forward_chain], threading the flag [new_facts_added]. *)
Definition pass_step (rule_id : string) (r : rule)
  (acc : state * bool) : state * bool :=
  let '(st, new_facts_added) := acc in
  if bool_decide (rule_id ∈ fired_rules st) then (st, new_facts_added)
  else if can_fire_rule r st then
    match fire_rule rule_id r st with
    | (Some conclusion, st') =>
        (st', if truthy conclusion then true else new_facts_added)
    | (None, st') => (st', new_facts_added)
    end
  else (st, new_facts_added).

Fixpoint pass_loop (rules : rule_base) (acc : state * bool) : state * bool :=
  match rules with
  | [] => acc
  | (rule_id, r) :: rules' => pass_loop rules' (pass_step rule_id r acc)
  end.

(** One iteration of the [while]: the flag is cleared, then every rule is
    visited once. *)
Definition run_pass (rules : rule_base) (st : state) : state * bool :=
  pass_loop rules (st, false).

(** The [while new_facts_added and iteration < max_iterations] loop. The
    fuel bounds the unfolding; [None] is the loop still running when the
    fuel is gone. *)
Fixpoint while_loop (fuel : nat) (rules : rule_base) (max_iterations : Z)
  (new_facts_added : bool) (iteration : Z) (st : state)
  : option (Z * state) :=
  if new_facts_added && (iteration <? max_iterations)%Z then
    match fuel with
    | O => None
    | S fuel' =>
        let '(st', flag) := run_pass rules st in
        while_loop fuel' rules max_iterations flag (iteration + 1)%Z st'
    end
  else Some (iteration, st).

(** [ForwardChaining.forward_chain]: the iteration count and the session
    after the loop (the result dictionary is read off these two). The
    loop guard allows at most [max_iterations] iterations, which is the
    fuel given. *)
Definition forward_chain (rules : rule_base) (max_iterations : Z)
  (st : state) : option (Z * state) :=
  while_loop (Z.to_nat max_iterations) rules max_iterations true 0%Z st.

(** Module-level [combine_certainty_factors] of [forward_chaining.py]. *)
Definition combine_certainty_factors (cf1 cf2 : Q) : option Q :=
  if CF.Qpos_b cf1 && CF.Qpos_b cf2 then
    Some (cf1 + cf2 * (1 - cf1))
  else if CF.Qneg_b cf1 && CF.Qneg_b cf2 then
    Some (cf1 + cf2 * (1 + cf1))
  else
    CF.py_div (cf1 + cf2) (1 - Qmin (Qabs cf1) (Qabs cf2)).

(** Module-level [calculate_mb_md] of [forward_chaining.py]. *)
Definition calculate_mb_md (mb md : Q) : Q := mb - md.

End FC.

(** ** Backward chaining ([backward_chaining.py]) *)

Module BC.

Inductive event :=
| fact_added (fact : string)
| max_depth_reached (goal : string) (depth : Z)
| goal_proved_by_fact (goal : string) (depth : Z)
| goal_proved_by_user (goal : string) (depth : Z)
| trying_rule (rule_id goal : string) (conditions : list string) (depth : Z)
| goal_proved_by_rule (rule_id goal : string) (cf : Q) (depth : Z)
| user_questioned (question : string) (answer : bool).

Record state := State {
  working_memory : gset string;
  asked_questions : gset string;
  proved_goals : gset string;
  failed_goals : gset string;
  reasoning_trace : list event;
  question_callback : option (string -> bool)
}.

(** The fields as [__init__] leaves them. *)
Definition init : state :=
  {| working_memory := ∅; asked_questions := ∅; proved_goals := ∅;
     failed_goals := ∅; reasoning_trace := []; question_callback := None |}.

(** Field updates, one per attribute the methods assign or mutate. *)
Definition set_working_memory (wm : gset string) (st : state) : state :=
  {| working_memory := wm; asked_questions := asked_questions st;
     proved_goals := proved_goals st; failed_goals := failed_goals st;
     reasoning_trace := reasoning_trace st;
     question_callback := question_callback st |}.

Definition set_asked_questions (a : gset string) (st : state) : state :=
  {| working_memory := working_memory st; asked_questions := a;
     proved_goals := proved_goals st; failed_goals := failed_goals st;
     reasoning_trace := reasoning_trace st;
     question_callback := question_callback st |}.

Definition set_proved_goals (p : gset string) (st : state) : state :=
  {| working_memory := working_memory st;
     asked_questions := asked_questions st;
     proved_goals := p; failed_goals := failed_goals st;
     reasoning_trace := reasoning_trace st;
     question_callback := question_callback st |}.

Definition set_failed_goals (f : gset string) (st : state) : state :=
  {| working_memory := working_memory st;
     asked_questions := asked_questions st;
     proved_goals := proved_goals st; failed_goals := f;
     reasoning_trace := reasoning_trace st;
     question_callback := question_callback st |}.

(** [self.reasoning_trace.append(e)] *)
Definition log (e : event) (st : state) : state :=
  {| working_memory := working_memory st;
     asked_questions := asked_questions st;
     proved_goals := proved_goals st; failed_goals := failed_goals st;
     reasoning_trace := reasoning_trace st ++ [e];
     question_callback := question_callback st |}.

(** [BackwardChaining.reset]: the callback is kept. *)
Definition reset (st : state) : state :=
  {| working_memory := ∅; asked_questions := ∅; proved_goals := ∅;
     failed_goals := ∅; reasoning_trace := [];
     question_callback := question_callback st |}.

(** [BackwardChaining.set_question_callback] *)
Definition set_question_callback (callback : string -> bool) (st : state)
  : state :=
  {| working_memory := working_memory st;
     asked_questions := asked_questions st;
     proved_goals := proved_goals st; failed_goals := failed_goals st;
     reasoning_trace := reasoning_trace st;
     question_callback := Some callback |}.

(** [BackwardChaining.add_facts] *)
Fixpoint add_facts (facts : list string) (st : state) : state :=
  match facts with
  | [] => st
  | fact :: facts' =>
      add_facts facts'
        (log (fact_added fact)
           (set_working_memory (working_memory st ∪ {[fact]}) st))
  end.

(** [BackwardChaining.find_rules_for_goal] *)
Definition find_rules_for_goal (rules : rule_base) (goal : string)
  : rule_base :=
  List.filter (fun item => bool_decide (THEN item.2 = goal)) rules.

(** [BackwardChaining._ask_user] *)
Definition _ask_user (question : string) (st : state) : bool * state :=
  if bool_decide (question ∈ asked_questions st) then (false, st)
  else
    let st := set_asked_questions (asked_questions st ∪ {[question]}) st in
    match question_callback st with
    | Some callback =>
        let answer := callback question in
        (answer, log (user_questioned question answer) st)
    | None => (false, st)
    end.

Section ProveGoal.

(** The recursive call [self.prove_goal(condition, depth + 1, max_depth)]
    as seen from the two loops of [prove_goal]. [None] is the prover out
    of fuel. *)
Variable recurse : string -> Z -> state -> option (bool * state).

(** The [for condition in conditions] loop; the result is
    [all_conditions_met]. *)
Fixpoint prove_conditions (conditions : list string) (depth : Z)
  (st : state) : option (bool * state) :=
  match conditions with
  | [] => Some (true, st)
  | condition :: conditions' =>
      match recurse condition (depth + 1)%Z st with
      | None => None
      | Some (true, st') => prove_conditions conditions' depth st'
      | Some (false, st') => Some (false, st')
      end
  end.

(** The [for rule_id, rule in matching_rules] loop and the two lines
    after it. *)
Fixpoint try_rules (matching_rules : rule_base) (goal : string)
  (depth : Z) (st : state) : option (bool * state) :=
  match matching_rules with
  | [] =>
      Some (false, set_failed_goals (failed_goals st ∪ {[goal]}) st)
  | (rule_id, r) :: matching_rules' =>
      let conditions := IF r in
      let st := log (trying_rule rule_id goal conditions depth) st in
      match prove_conditions conditions depth st with
      | None => None
      | Some (true, st') =>
          Some (true,
                log (goal_proved_by_rule rule_id goal (rule_cf r) depth)
                  (set_proved_goals (proved_goals st' ∪ {[goal]}) st'))
      | Some (false, st') => try_rules matching_rules' goal depth st'
      end
  end.

End ProveGoal.

(** [BackwardChaining.prove_goal], unfolded [fuel] levels deep. *)
Fixpoint prove_goal_fuel (fuel : nat) (rules : rule_base) (goal : string)
  (depth max_depth : Z) (st : state) : option (bool * state) :=
  match fuel with
  | O => None
  | S fuel' =>
      if (max_depth <? depth)%Z then
        Some (false, log (max_depth_reached goal depth) st)
      else if bool_decide (goal ∈ proved_goals st) then Some (true, st)
      else if bool_decide (goal ∈ failed_goals st) then Some (false, st)
      else if bool_decide (goal ∈ working_memory st) then
        Some (true,
              log (goal_proved_by_fact goal depth)
                (set_proved_goals (proved_goals st ∪ {[goal]}) st))
      else
        let matching_rules := find_rules_for_goal rules goal in
        match matching_rules with
        | [] =>
            match _ask_user goal st with
            | (true, st') =>
                Some (true,
                      log (goal_proved_by_user goal depth)
                        (set_proved_goals (proved_goals st' ∪ {[goal]})
                           (set_working_memory
                              (working_memory st' ∪ {[goal]}) st')))
            | (false, st') =>
                Some (false,
                      set_failed_goals (failed_goals st' ∪ {[goal]}) st')
            end
        | _ =>
            try_rules
              (fun condition depth' st' =>
                 prove_goal_fuel fuel' rules condition depth' max_depth st')
              matching_rules goal depth st
        end
  end.

(** A call at [depth] nests at most [max_depth + 1 - depth] further calls
    before the depth check stops it. *)
Definition fuel_for (depth max_depth : Z) : nat :=
  S (Z.to_nat (max_depth + 1 - depth)).

(** [BackwardChaining.prove_goal] *)
Definition prove_goal (rules : rule_base) (goal : string)
  (depth max_depth : Z) (st : state) : option (bool * state) :=
  prove_goal_fuel (fuel_for depth max_depth) rules goal depth max_depth st.

(** [BackwardChaining._calculate_goal_confidence] *)
Definition confidence_step (goal : string) (confidence : Q) (trace : event)
  : Q :=
  match trace with
  | goal_proved_by_rule _ goal' cf _ =>
      if bool_decide (goal' = goal) then Qmin confidence cf else confidence
  | _ => confidence
  end.

Definition _calculate_goal_confidence (goal : string) (st : state) : Q :=
  fold_left (confidence_step goal) (reasoning_trace st) 1.

(** The result dictionary of [backward_chain]. *)
Record result := Result {
  res_goals : list string;
  res_proved_goals : list (string * Q);
  res_failed_goals : list string;
  res_reasoning_trace : list event;
  res_questions_asked : gset string
}.

(** The [for goal in goals] loop of [backward_chain], with the default
    [depth = 0] and [max_depth = 10] of [prove_goal]. *)
Fixpoint chain_loop (rules : rule_base) (goals : list string)
  (proved : list (string * Q)) (failed : list string) (st : state)
  : option (list (string * Q) * list string * state) :=
  match goals with
  | [] => Some (proved, failed, st)
  | goal :: goals' =>
      match prove_goal rules goal 0 10 st with
      | None => None
      | Some (true, st') =>
          chain_loop rules goals'
            (proved ++ [(goal, _calculate_goal_confidence goal st')])
            failed st'
      | Some (false, st') =>
          chain_loop rules goals' proved (failed ++ [goal]) st'
      end
  end.

(** [BackwardChaining.backward_chain] *)
Definition backward_chain (rules : rule_base) (goals : list string)
  (st : state) : option (result * state) :=
  let questions_asked := asked_questions st in
  match chain_loop rules goals [] [] st with
  | None => None
  | Some (proved, failed, st') =>
      Some ({| res_goals := goals;
               res_proved_goals := proved;
               res_failed_goals := failed;
               res_reasoning_trace := reasoning_trace st';
               res_questions_asked := questions_asked |}, st')
  end.

End BC.

(** ** Data used in the statements below *)

(** The six (category, description) pairs [interpret_cf] can return, from
    the strongest to the weakest. *)
Definition cf_categories : list (string * string) :=
  [ ("Sangat Yakin", "Diagnosis ini sangat mungkin benar");
    ("Yakin", "Diagnosis ini kemungkinan besar benar");
    ("Cukup Yakin", "Diagnosis ini cukup mungkin benar");
    ("Kurang Yakin", "Diagnosis ini mungkin benar");
    ("Tidak Yakin", "Diagnosis ini kurang mungkin benar");
    ("Sangat Tidak Yakin", "Diagnosis ini sangat kecil kemungkinannya")
  ]%string.

(** One certainty factor of [-1,1] per category. *)
Definition cf_samples : list Q := [1; 8 # 10; 6 # 10; 4 # 10; 2 # 10; 0].

(** The session after [k] iterations of the [while] loop of
    [forward_chain]. *)
Fixpoint passes (rules : rule_base) (k : nat) (st : FC.state) : FC.state :=
  match k with
  | O => st
  | S k' => passes rules k' (FC.run_pass rules st).1
  end.

(** A sequence of [add_facts] calls, one per list. *)
Definition add_all (calls : list (list string)) (st : FC.state) : FC.state :=
  fold_left (fun st facts => FC.add_facts facts st) calls st.

(** A rule base is acyclic when the facts can be ranked so that every
    antecedent of a rule ranks below its consequent. *)
Definition acyclic (rules : rule_base) : Prop :=
  exists rank : string -> nat,
    forall rule_id r condition,
      (rule_id, r) ∈ rules -> condition ∈ IF r ->
      (rank condition < rank (THEN r))%nat.

(** Scenario A: the facts and the rule R6 of the touchscreen diagnosis. *)
Definition touchscreen_tidak_respons : string := "touchscreen_tidak_respons".
Definition layar_tampil_normal : string := "layar_tampil_normal".
Definition tombol_fisik_berfungsi : string := "tombol_fisik_berfungsi".
Definition kerusakan_touchscreen_digitizer : string :=
  "kerusakan_touchscreen_digitizer".

Definition R6 : rule :=
  {| IF := [touchscreen_tidak_respons; layar_tampil_normal];
     THEN := kerusakan_touchscreen_digitizer;
     CF := Some (88 # 100) |}.

Definition scenario_A_facts : list string :=
  [touchscreen_tidak_respons; layar_tampil_normal; tombol_fisik_berfungsi].

(** The smallest rule base of scenario A. *)
Definition scenario_A_rules : rule_base := [("R6"%string, R6)].

(** One rule from [a] to [b]: its fixpoint is reached by the first pass. *)
Definition one_step_rules : rule_base :=
  [("R1", {| IF := ["a"]; THEN := "b"; CF := Some (9 # 10) |})]%string.

(** An acyclic rule base in which [R0], visited first, can only fire in
    the second pass and then concludes [d], which [R2] has inferred in the
    first. *)
Definition late_rule_rules : rule_base :=
  [("R0", {| IF := ["c"]; THEN := "d"; CF := Some (5 # 10) |});
   ("R1", {| IF := ["a"]; THEN := "c"; CF := Some (8 # 10) |});
   ("R2", {| IF := ["a"]; THEN := "d"; CF := Some (7 # 10) |})]%string.

(** A ranking of the facts [a], [b], [c], [d] of these two rule bases. *)
Definition late_rule_rank (fact : string) : nat :=
  if String.eqb fact "d" then 2
  else if String.eqb fact "c" then 1
  else if String.eqb fact "b" then 1
  else 0.

(** A rule that concludes a fact the user has also reported. *)
Definition known_consequent_rules : rule_base :=
  [("R1", {| IF := ["a"]; THEN := "b"; CF := Some (9 # 10) |})]%string.

(** The questions put to [question_callback], in order: [_ask_user] logs
    one [user_questioned] entry per invocation of the callback. *)
Fixpoint questions (trace : list BC.event) : list string :=
  match trace with
  | [] => []
  | BC.user_questioned question _ :: trace' => question :: questions trace'
  | _ :: trace' => questions trace'
  end.

(** How many times the callback was invoked on [question]. *)
Definition oracle_calls (question : string) (st : BC.state) : nat :=
  length (List.filter (String.eqb question)
            (questions (BC.reasoning_trace st))).

(** The certainty factors [_calculate_goal_confidence] reads: those of
    the [goal_proved_by_rule] entries recorded for [goal] itself, that is
    of the rules that concluded [goal], in trace order. *)
Fixpoint concluding_cfs (goal : string) (trace : list BC.event) : list Q :=
  match trace with
  | [] => []
  | BC.goal_proved_by_rule _ goal' cf _ :: trace' =>
      if bool_decide (goal' = goal) then cf :: concluding_cfs goal trace'
      else concluding_cfs goal trace'
  | _ :: trace' => concluding_cfs goal trace'
  end.

(** The minimum of a list of certainty factors, and 1.0 when the list is
    empty. *)
Definition minimum_cf (cfs : list Q) : Q :=
  match cfs with
  | [] => 1
  | cf :: cfs' => fold_left Qmin cfs' cf
  end.

(** The antecedents of the rule [rule_id] of the rule base. *)
Definition conditions_of (rules : rule_base) (rule_id : string)
  : list string :=
  flat_map (fun item => if String.eqb item.1 rule_id then IF item.2 else [])
    rules.

(** Following the specification's words, all rules recorded in the trace
    as contributing to the proof of [goal]: the rules recorded as having
    proved [goal], and the rules contributing to the proof of each of
    their antecedents. [fuel] bounds the nesting. *)
Fixpoint contributing_cfs_fuel (fuel : nat) (rules : rule_base)
  (trace : list BC.event) (goal : string) : list Q :=
  match fuel with
  | O => []
  | S fuel' =>
      flat_map
        (fun e =>
           match e with
           | BC.goal_proved_by_rule rule_id goal' cf _ =>
               if bool_decide (goal' = goal) then
                 cf :: flat_map (contributing_cfs_fuel fuel' rules trace)
                         (conditions_of rules rule_id)
               else []
           | _ => []
           end)
        trace
  end.

(** A proof recorded in [trace] nests at most as deep as the trace is
    long. *)
Definition contributing_cfs (rules : rule_base) (trace : list BC.event)
  (goal : string) : list Q :=
  contributing_cfs_fuel (length trace) rules trace goal.

(** The sessions of a prover built over [rules]: what a sequence of
    method calls on a new [BackwardChaining] object can lead to. *)
Inductive session (rules : rule_base) : BC.state -> Prop :=
| session_init : session rules BC.init
| session_set_question_callback callback st :
    session rules st -> session rules (BC.set_question_callback callback st)
| session_add_facts facts st :
    session rules st -> session rules (BC.add_facts facts st)
| session_reset st :
    session rules st -> session rules (BC.reset st)
| session_prove_goal goal depth max_depth st b st' :
    session rules st ->
    BC.prove_goal rules goal depth max_depth st = Some (b, st') ->
    session rules st'
| session_backward_chain goals st res st' :
    session rules st ->
    BC.backward_chain rules goals st = Some (res, st') ->
    session rules st'.

(** A goal with a rule that needs the goal itself and a second rule from
    a known fact. *)
Definition cyclic_rules : rule_base :=
  [("R1", {| IF := ["g"]; THEN := "g"; CF := Some (9 # 10) |});
   ("R2", {| IF := ["a"]; THEN := "g"; CF := Some (8 # 10) |})]%string.

(** A two-level acyclic rule base: [g] from [m] and [a], [m] from [b]. *)
Definition layered_rules : rule_base :=
  [("R1", {| IF := ["m"; "a"]; THEN := "g"; CF := Some (9 # 10) |});
   ("R2", {| IF := ["b"]; THEN := "m"; CF := Some (6 # 10) |})]%string.

Definition layered_rank (fact : string) : nat :=
  if String.eqb fact "g" then 2 else if String.eqb fact "m" then 1 else 0.

(** A callback that confirms every question. *)
Definition always_yes (question : string) : bool := true.

(** The session a [prove_goal] call leaves ([st] itself had it not
    returned). *)
Definition session_after (o : option (bool * BC.state)) (st : BC.state)
  : BC.state :=
  match o with
  | Some (_, st') => st'
  | None => st
  end.

(** A session over [layered_rules]: the user reported [a] and [b], and [g]
    was then proved. *)
Definition layered_start : BC.state :=
  BC.add_facts ["a"; "b"]%string (BC.set_question_callback always_yes BC.init).

Definition layered_final : BC.state :=
  session_after (BC.prove_goal layered_rules "g" 0 10 layered_start)
    layered_start.

(** A session over [cyclic_rules]: the user reported [a], and [g] was then
    proved. *)
Definition cyclic_start : BC.state := BC.add_facts ["a"%string] BC.init.

Definition cyclic_final : BC.state :=
  session_after (BC.prove_goal cyclic_rules "g" 0 10 cyclic_start)
    cyclic_start.

(** ** Predicates used in the proofs *)

(** What [fire_rule] leaves behind when the rule had not fired yet. *)
Definition fired (rule_id : string) (r : rule) (st : FC.state) : FC.state :=
  {| FC.working_memory := FC.working_memory st;
     FC.inferred_facts := FC.inferred_facts st ∪ {[THEN r]};
     FC.fired_rules := FC.fired_rules st ++ [rule_id];
     FC.reasoning_trace :=
       FC.reasoning_trace st
       ++ [FC.rule_fired rule_id (IF r) (THEN r) (rule_cf r)];
     FC.diagnosis_scores :=
       <[THEN r := FC.score (FC.diagnosis_scores st) (THEN r) + rule_cf r]>
         (FC.diagnosis_scores st) |}.

(** What every pass keeps true: the two symptoms of R6 are known, and the
    score of the diagnosis is absent until R6 fires and [0.0 + 0.88]
    from then on. *)
Definition scenario_inv (st : FC.state) : Prop :=
  touchscreen_tidak_respons ∈ FC.working_memory st
  /\ layar_tampil_normal ∈ FC.working_memory st
  /\ ("R6"%string ∈ FC.fired_rules st ->
      kerusakan_touchscreen_digitizer ∈ FC.inferred_facts st
      /\ FC.diagnosis_scores st !! kerusakan_touchscreen_digitizer
         = Some (0 + (88 # 100)))
  /\ ("R6"%string ∉ FC.fired_rules st ->
      FC.diagnosis_scores st !! kerusakan_touchscreen_digitizer = None).

(** [entry goal st]: a call for [goal] in [st] gets past the cache and
    the working memory, to the rules or the user. *)
Definition entry (goal : string) (st : BC.state) : Prop :=
  (goal ∉ BC.proved_goals st) /\ (goal ∉ BC.failed_goals st)
  /\ (goal ∉ BC.working_memory st).

(** Every question put to the callback is in [asked_questions], and none
    was put twice. *)
Definition asked_once (st : BC.state) : Prop :=
  NoDup (questions (BC.reasoning_trace st))
  /\ forall q,
      q ∈ questions (BC.reasoning_trace st) -> q ∈ BC.asked_questions st.

(** [ext st st']: the session [st'] extends [st]. Proved goals are kept,
    the trace grew at its end, and each new [goal_proved_by_rule] entry is
    for a goal that was not proved in [st] and carries the certainty
    factor of a rule of the base. *)
Definition ext (rules : rule_base) (st st' : BC.state) : Prop :=
  BC.proved_goals st ⊆ BC.proved_goals st'
  /\ exists new,
      BC.reasoning_trace st' = BC.reasoning_trace st ++ new
      /\ forall rule_id g cf d,
          BC.goal_proved_by_rule rule_id g cf d ∈ new ->
          (g ∉ BC.proved_goals st)
          /\ exists rule_id' r, (rule_id', r) ∈ rules /\ cf = rule_cf r.

(** Every certainty factor in the trace is that of a rule. *)
Definition trace_from_rules (rules : rule_base) (st : BC.state) : Prop :=
  forall rule_id g cf d,
    BC.goal_proved_by_rule rule_id g cf d ∈ BC.reasoning_trace st ->
    exists rule_id' r, (rule_id', r) ∈ rules /\ cf = rule_cf r.

(** [changed_below rank n st st']: from [st] to [st'] the two memo sets
    only grew, by goals ranked below [n], and stayed disjoint if they
    were. *)
Definition changed_below (rank : string -> nat) (n : nat) (st st' : BC.state)
  : Prop :=
  BC.proved_goals st ⊆ BC.proved_goals st'
  /\ BC.failed_goals st ⊆ BC.failed_goals st'
  /\ (forall x, x ∈ BC.proved_goals st' -> x ∉ BC.proved_goals st ->
                (rank x < n)%nat)
  /\ (forall x, x ∈ BC.failed_goals st' -> x ∉ BC.failed_goals st ->
                (rank x < n)%nat)
  /\ (BC.proved_goals st ## BC.failed_goals st ->
      BC.proved_goals st' ## BC.failed_goals st').

(** ** More of [certainty_factor.py] *)

(** The exceptions the engine can raise. *)
Inductive exception := ValueError | ZeroDivisionError.

Module CFMore.

(** [CertaintyFactor.calculate_hypothesis_cf]: the evidence factors are
    the products over [zip(rule_cfs, user_cfs)]. *)
Definition calculate_hypothesis_cf (rule_cfs user_cfs : list Q)
  : exception + Q :=
  if negb (length rule_cfs =? length user_cfs)%nat then inl ValueError
  else
    let evidence_cfs :=
      List.map (fun p => CF.cf_with_user_certainty p.1 p.2)
        (List.combine rule_cfs user_cfs) in
    match CF.combine_parallel_cf evidence_cfs with
    | Some v => inr v
    | None => inl ZeroDivisionError
    end.

(** [CertaintyFactor.normalize_user_input]: true division of two
    integers. *)
Definition normalize_user_input (value scale : Z) : option Q :=
  CF.py_div (inject_Z value) (inject_Z scale).

End CFMore.

(** ** More of [forward_chaining.py] *)

(** [needle in hay] on strings. *)
Fixpoint contains (needle hay : string) : bool :=
  String.prefix needle hay
  || match hay with
     | EmptyString => false
     | String _ hay' => contains needle hay'
     end.

(** [str.lower] on a string of ASCII characters: the letters [A]-[Z] move
    to [a]-[z], everything else stays. *)
Definition lower_char (c : ascii) : ascii :=
  let n := nat_of_ascii c in
  if (65 <=? n)%nat && (n <=? 90)%nat then ascii_of_nat (n + 32) else c.

Fixpoint lower (s : string) : string :=
  match s with
  | EmptyString => EmptyString
  | String c s' => String (lower_char c) (lower s')
  end.

(** The strings on which [lower] is [str.lower]: every character is an
    ASCII one. *)
Fixpoint is_ascii (s : string) : bool :=
  match s with
  | EmptyString => true
  | String c s' => (nat_of_ascii c <? 128)%nat && is_ascii s'
  end.

Module FCMore.

(** [final_diagnosis_keywords] of [_get_final_diagnoses]. *)
Definition final_diagnosis_keywords : list string :=
  ["kerusakan"; "masalah"; "degradasi"; "rusak";
   "aplikasi"; "malware"; "storage"; "tindakan"]%string.

(** One entry of the list [_get_final_diagnoses] returns. *)
Record diagnosis := Diagnosis {
  diag_name : string;
  confidence : Q;
  percentage : Q
}.

(** [any(keyword in diagnosis.lower() for keyword in ...)] *)
Definition is_final (name : string) : bool :=
  existsb (fun keyword => contains keyword (lower name))
    final_diagnosis_keywords.

(** The loop of [_get_final_diagnoses] over the items of
    [diagnosis_scores]. *)
Fixpoint collect (items : list (string * Q)) : list diagnosis :=
  match items with
  | [] => []
  | (name, score) :: items' =>
      if is_final name then
        {| diag_name := name;
           confidence := Qmin score 1;
           percentage := Qmin (score * 100) 100 |} :: collect items'
      else collect items'
  end.

(** [list.sort(key=..., reverse=True)]: a stable sort, largest key first.
    [insert_desc d sorted] puts [d], which stood before every entry of
    [sorted] in the list being sorted, in front of the first entry whose
    key is not larger. *)
Fixpoint insert_desc (d : diagnosis) (sorted : list diagnosis)
  : list diagnosis :=
  match sorted with
  | [] => [d]
  | d' :: sorted' =>
      if Qle_bool (confidence d') (confidence d) then d :: d' :: sorted'
      else d' :: insert_desc d sorted'
  end.

Definition sort_desc (l : list diagnosis) : list diagnosis :=
  fold_right insert_desc [] l.

(** [ForwardChaining._get_final_diagnoses]. The items of
    [self.diagnosis_scores], in the order of the dictionary, are an
    argument: a [gmap] keeps no insertion order. *)
Definition _get_final_diagnoses (items : list (string * Q))
  : list diagnosis :=
  sort_desc (collect items).

(** One step of [explain_reasoning]. *)
Record step := Step {
  step_rule_id : string;
  step_conditions : list string;
  step_conclusion : string;
  step_cf : Q
}.

(** [ForwardChaining.explain_reasoning] *)
Fixpoint explain_trace (diagnosis : string) (trace : list FC.event)
  : list step :=
  match trace with
  | [] => []
  | FC.rule_fired rule_id conditions conclusion cf :: trace' =>
      if bool_decide (conclusion = diagnosis) then
        {| step_rule_id := rule_id; step_conditions := conditions;
           step_conclusion := conclusion; step_cf := cf |}
        :: explain_trace diagnosis trace'
      else explain_trace diagnosis trace'
  | _ :: trace' => explain_trace diagnosis trace'
  end.

Definition explain_reasoning (diagnosis : string) (st : FC.state)
  : list step :=
  explain_trace diagnosis (FC.reasoning_trace st).

(** [ForwardChaining.get_reasoning_chain] *)
Fixpoint chain_trace (diagnosis : string) (trace : list FC.event)
  : list string :=
  match trace with
  | [] => []
  | FC.rule_fired rule_id _ conclusion _ :: trace' =>
      if contains diagnosis conclusion || bool_decide (conclusion = diagnosis)
      then rule_id :: chain_trace diagnosis trace'
      else chain_trace diagnosis trace'
  | _ :: trace' => chain_trace diagnosis trace'
  end.

Definition get_reasoning_chain (diagnosis : string) (st : FC.state)
  : list string :=
  chain_trace diagnosis (FC.reasoning_trace st).

(** [ForwardChaining.get_confidence_explanation]: the loop over the
    trace, threading [rules_contributing] and [total_cf]. *)
Fixpoint contributing (diagnosis : string) (trace : list FC.event)
  (rules_contributing : list (string * Q * list string)) (total_cf : Q)
  : list (string * Q * list string) * Q :=
  match trace with
  | [] => (rules_contributing, total_cf)
  | FC.rule_fired rule_id conditions conclusion cf :: trace' =>
      if bool_decide (conclusion = diagnosis) then
        contributing diagnosis trace'
          (rules_contributing ++ [(rule_id, cf, conditions)])
          (total_cf + cf)
      else contributing diagnosis trace' rules_contributing total_cf
  | _ :: trace' => contributing diagnosis trace' rules_contributing total_cf
  end.

Record confidence_explanation := ConfidenceExplanation {
  ce_diagnosis : string;
  total_confidence : Q;
  contributing_rules : list (string * Q * list string)
}.

Definition get_confidence_explanation (diagnosis : string) (st : FC.state)
  : confidence_explanation :=
  let '(rules_contributing, total_cf) :=
    contributing diagnosis (FC.reasoning_trace st) [] 0 in
  {| ce_diagnosis := diagnosis;
     total_confidence := Qmin total_cf 1;
     contributing_rules := rules_contributing |}.

(** The sessions of an evaluator built over [rules]. *)
Inductive session (rules : rule_base) : FC.state -> Prop :=
| session_init : session rules FC.init
| session_add_facts facts st :
    session rules st -> session rules (FC.add_facts facts st)
| session_reset st :
    session rules st -> session rules (FC.reset st)
| session_forward_chain max_iterations st n st' :
    session rules st ->
    FC.forward_chain rules max_iterations st = Some (n, st') ->
    session rules st'.

End FCMore.

(** ** More of [backward_chaining.py] *)

Module BCMore.

Record statistics := Statistics {
  total_goals_attempted : nat;
  stat_proved_goals : nat;
  stat_failed_goals : nat;
  questions_asked : nat;
  reasoning_steps : nat;
  success_rate : Q
}.

(** [BackwardChaining.get_statistics]; the division is by
    [max(..., 1)] and is written with [py_div] as every division. *)
Definition get_statistics (st : BC.state) : option statistics :=
  let proved := size (BC.proved_goals st) in
  let failed := size (BC.failed_goals st) in
  match CF.py_div (inject_Z (Z.of_nat proved))
          (inject_Z (Z.of_nat (Nat.max (proved + failed) 1))) with
  | None => None
  | Some ratio =>
      Some {| total_goals_attempted := proved + failed;
              stat_proved_goals := proved;
              stat_failed_goals := failed;
              questions_asked := size (BC.asked_questions st);
              reasoning_steps := length (BC.reasoning_trace st);
              success_rate := ratio * 100 |}
  end.

End BCMore.

(** ** Quantities used in the statements on the added code *)

(** [ranked_before a b]: [a] may stand before [b] in a list sorted by
    confidence, largest first. *)
Definition ranked_before (a b : FCMore.diagnosis) : Prop :=
  FCMore.confidence b <= FCMore.confidence a.

(** The entries of a list whose confidence equals [q]. *)
Definition with_confidence (q : Q) (l : list FCMore.diagnosis)
  : list FCMore.diagnosis :=
  List.filter (fun d => Qeq_bool (FCMore.confidence d) q) l.

(** Three scores as [diagnosis_scores] may hold them: two final
    diagnoses, the second with an accumulated score above 1, and an
    intermediate fact. *)
Definition sample_scores : list (string * Q) :=
  [("kerusakan_baterai", 9 # 10); ("baterai_tua", 5 # 10);
   ("Masalah_Software", 17 # 10)]%string.

(** [grows st st']: from [st] to [st'] the four sets of the prover only
    grew, the trace was only appended to and the callback is the same. *)
Definition grows (st st' : BC.state) : Prop :=
  BC.working_memory st ⊆ BC.working_memory st'
  /\ BC.asked_questions st ⊆ BC.asked_questions st'
  /\ BC.proved_goals st ⊆ BC.proved_goals st'
  /\ BC.failed_goals st ⊆ BC.failed_goals st'
  /\ BC.reasoning_trace st `prefix_of` BC.reasoning_trace st'
  /\ BC.question_callback st' = BC.question_callback st.

(** [confirmed rules st st']: every fact [st'] knows and [st] did not is
    a goal no rule concludes, newly asked, to which the callback of the
    session answers true. *)
Definition confirmed (rules : rule_base) (st st' : BC.state) : Prop :=
  forall fact,
    fact ∈ BC.working_memory st' -> fact ∉ BC.working_memory st ->
    BC.find_rules_for_goal rules fact = []
    /\ fact ∈ BC.asked_questions st'
    /\ (fact ∉ BC.asked_questions st)
    /\ exists callback,
        BC.question_callback st = Some callback /\ callback fact = true.

(** [quizzed rules st st']: the questions put to the callback between
    [st] and [st'] are about goals no rule concludes, and a callback was
    there to answer them. *)
Definition quizzed (rules : rule_base) (st st' : BC.state) : Prop :=
  exists new,
    questions (BC.reasoning_trace st')
    = questions (BC.reasoning_trace st) ++ new
    /\ forall q,
        q ∈ new ->
        BC.find_rules_for_goal rules q = []
        /\ is_Some (BC.question_callback st).

(** The three together. *)
Definition advances (rules : rule_base) (st st' : BC.state) : Prop :=
  grows st st' /\ confirmed rules st st' /\ quizzed rules st st'.

(** [derivable rules facts goal]: [goal] follows from [facts] by the
    rules, each applied once all its antecedents follow. *)
Inductive derivable (rules : rule_base) (facts : gset string)
  : string -> Prop :=
| derivable_fact goal :
    goal ∈ facts -> derivable rules facts goal
| derivable_rule rule_id r :
    (rule_id, r) ∈ rules ->
    (forall c, c ∈ IF r -> derivable rules facts c) ->
    derivable rules facts (THEN r).

(** [justified rules st]: every proved goal of [st] follows from the
    working memory of [st] by the rules. *)
Definition justified (rules : rule_base) (st : BC.state) : Prop :=
  forall goal,
    goal ∈ BC.proved_goals st ->
    derivable rules (BC.working_memory st) goal.

(** ** [likert_to_cf] and [CFCalculator.compare_hypotheses] *)

Module CFCalc.

(** The dictionary [mapping] of [likert_to_cf]. *)
Definition likert_mapping : list (string * Q) :=
  [("sangat_tidak_yakin", 0); ("tidak_yakin", 2 # 10);
   ("ragu_ragu", 4 # 10); ("yakin", 6 # 10);
   ("cukup_yakin", 8 # 10); ("sangat_yakin", 1)]%string.

(** [dict.get(key, default)] on a dictionary given by its items. *)
Fixpoint dict_get (items : list (string * Q)) (key : string) (default : Q)
  : Q :=
  match items with
  | [] => default
  | (k, v) :: items' =>
      if String.eqb k key then v else dict_get items' key default
  end.

(** [CertaintyFactor.likert_to_cf] *)
Definition likert_to_cf (likert : string) : Q :=
  dict_get likert_mapping (lower likert) (5 # 10).

(** The result of [compare_hypotheses] (names, certainty factors,
    [difference] and [more_likely]; the percentages are
    [get_confidence_percentage] of the two factors). *)
Record comparison := Comparison {
  cmp_cf_1 : Q;
  cmp_cf_2 : Q;
  difference : Q;
  more_likely : string
}.

(** [CFCalculator.compare_hypotheses] over [self.hypothesis_cfs]. *)
Definition compare_hypotheses (hypothesis_cfs : gmap string Q)
  (hyp1 hyp2 : string) : comparison :=
  let cf1 := default 0 (hypothesis_cfs !! hyp1) in
  let cf2 := default 0 (hypothesis_cfs !! hyp2) in
  {| cmp_cf_1 := cf1;
     cmp_cf_2 := cf2;
     difference := Qabs (cf1 - cf2);
     more_likely := if negb (Qle_bool cf1 cf2) then hyp1 else hyp2 |}.

End CFCalc.

(** * Properties *)

(** ** Certainty factor algebra *)

Module CFProps.
Import CF PrimFloat.

Lemma Qpos_b_true a : Qpos_b a = true <-> 0 < a.
Proof.
  unfold Qpos_b. rewrite negb_true_iff, <- not_true_iff_false, Qle_bool_iff.
  split; [apply Qnot_le_lt | apply Qlt_not_le].
Qed.

Lemma Qneg_b_true a : Qneg_b a = true <-> a < 0.
Proof.
  unfold Qneg_b. rewrite negb_true_iff, <- not_true_iff_false, Qle_bool_iff.
  split; [apply Qnot_le_lt | apply Qlt_not_le].
Qed.

Lemma Qpos_b_false a : Qpos_b a = false <-> a <= 0.
Proof.
  unfold Qpos_b. rewrite negb_false_iff. apply Qle_bool_iff.
Qed.

Lemma Qneg_b_false a : Qneg_b a = false <-> 0 <= a.
Proof.
  unfold Qneg_b. rewrite negb_false_iff. apply Qle_bool_iff.
Qed.

Lemma py_div_nonzero a b : ~ b == 0 -> py_div a b = Some (a / b).
Proof.
  intros Hb. unfold py_div.
  destruct (Qeq_bool b 0) eqn:E; [|reflexivity].
  apply Qeq_bool_iff in E. contradiction.
Qed.

(** The third branch, taken whenever the two strict sign tests fail. *)
Lemma combine_sequential_cf_mixed cf1 cf2 :
  Qpos_b cf1 && Qpos_b cf2 = false ->
  Qneg_b cf1 && Qneg_b cf2 = false ->
  ~ 1 - Qmin (Qabs cf1) (Qabs cf2) == 0 ->
  combine_sequential_cf cf1 cf2
  = Some ((cf1 + cf2) / (1 - Qmin (Qabs cf1) (Qabs cf2))).
Proof.
  intros Hp Hn Hd. unfold combine_sequential_cf. rewrite Hp, Hn. simpl.
  destruct (Qeq_bool _ 0) eqn:E.
  - apply Qeq_bool_iff in E. contradiction.
  - apply py_div_nonzero, Hd.
Qed.

(** With one argument zero the minimum of the magnitudes is zero. *)
Lemma Qmin_abs_zero_l cf1 cf2 : cf1 == 0 -> Qmin (Qabs cf1) (Qabs cf2) == 0.
Proof.
  intros H. rewrite Q.min_l.
  - rewrite H. reflexivity.
  - rewrite H. apply Qabs_nonneg.
Qed.

Lemma Qmin_abs_zero_r cf1 cf2 : cf2 == 0 -> Qmin (Qabs cf1) (Qabs cf2) == 0.
Proof.
  intros H. rewrite Q.min_r.
  - rewrite H. reflexivity.
  - rewrite H. apply Qabs_nonneg.
Qed.

(** [combine_sequential_cf] never raises. *)
Lemma combine_sequential_cf_total cf1 cf2 :
  exists v, combine_sequential_cf cf1 cf2 = Some v.
Proof.
  unfold combine_sequential_cf, py_div.
  destruct (Qpos_b cf1 && Qpos_b cf2); [eauto|].
  destruct (Qneg_b cf1 && Qneg_b cf2); [eauto|].
  simpl. destruct (Qeq_bool _ 0); eauto.
Qed.

(** C1. For certainty factors in [-1,1], [combine_sequential_cf] returns
    [cf1 + cf2*(1-cf1)] when both are non-negative, [cf1 + cf2*(1+cf1)]
    when both are negative, and [(cf1+cf2)/(1 - min(|cf1|,|cf2|))] when
    the signs differ and the denominator is not zero; it returns 0.92 on
    (0.8, 0.6) and 0.3/0.7 on (0.6, -0.3), exactly on rationals and
    within 1e-9 on binary64 numbers. *)
Theorem combine_sequential_cf_spec (cf1 cf2 : Q) :
  -1 <= cf1 <= 1 -> -1 <= cf2 <= 1 ->
  (0 <= cf1 -> 0 <= cf2 ->
   returns (combine_sequential_cf cf1 cf2) (cf1 + cf2 * (1 - cf1)))
  /\ (cf1 < 0 -> cf2 < 0 ->
      returns (combine_sequential_cf cf1 cf2) (cf1 + cf2 * (1 + cf1)))
  /\ ((0 <= cf1 /\ cf2 < 0) \/ (cf1 < 0 /\ 0 <= cf2) ->
      ~ 1 - Qmin (Qabs cf1) (Qabs cf2) == 0 ->
      returns (combine_sequential_cf cf1 cf2)
        ((cf1 + cf2) / (1 - Qmin (Qabs cf1) (Qabs cf2))))
  /\ returns (combine_sequential_cf (8 # 10) (6 # 10)) (92 # 100)
  /\ returns (combine_sequential_cf (6 # 10) (- (3 # 10)))
       ((3 # 10) / (7 # 10))
  /\ Binary64.within 1e-9%float
       (Binary64.combine_sequential_cf 0.8%float 0.6%float) 0.92%float
     = true
  /\ Binary64.within 1e-9%float
       (Binary64.combine_sequential_cf 0.6%float (-0.3)%float)
       (0.3 / 0.7)%float
     = true.
Proof.
  intros _ _. split; [|split; [|split; [|split; [|split; [|split]]]]].
  - (* both non-negative: the strict test fails when one of them is zero *)
    intros H1 H2.
    destruct (Qpos_b cf1 && Qpos_b cf2) eqn:Hp.
    + unfold combine_sequential_cf. rewrite Hp. unfold returns. reflexivity.
    + assert (Hn : Qneg_b cf1 && Qneg_b cf2 = false).
      { apply andb_false_iff. left. apply Qneg_b_false, H1. }
      assert (Hz : cf1 == 0 \/ cf2 == 0).
      { apply andb_false_iff in Hp.
        destruct Hp as [Hp|Hp]; apply Qpos_b_false in Hp;
          [left|right]; apply Qle_antisym; assumption. }
      assert (Hm : Qmin (Qabs cf1) (Qabs cf2) == 0).
      { destruct Hz; [apply Qmin_abs_zero_l|apply Qmin_abs_zero_r]; assumption. }
      rewrite combine_sequential_cf_mixed; try assumption.
      * unfold returns. rewrite Hm. destruct Hz as [Hz|Hz]; rewrite Hz; field.
      * intros E. rewrite Hm in E. discriminate.
  - intros H1 H2. unfold combine_sequential_cf.
    assert (Hp : Qpos_b cf1 && Qpos_b cf2 = false).
    { apply andb_false_iff. left. apply Qpos_b_false, Qlt_le_weak, H1. }
    rewrite Hp.
    apply Qneg_b_true in H1, H2. rewrite H1, H2. unfold returns, andb.
    reflexivity.
  - intros Hs Hd.
    rewrite combine_sequential_cf_mixed; try assumption;
      [unfold returns; reflexivity| |].
    + apply andb_false_iff.
      destruct Hs as [[_ H]|[H _]]; [right|left];
        apply Qpos_b_false, Qlt_le_weak, H.
    + apply andb_false_iff.
      destruct Hs as [[H _]|[_ H]]; [left|right]; apply Qneg_b_false, H.
  - vm_compute. reflexivity.
  - vm_compute. reflexivity.
  - vm_compute. reflexivity.
  - vm_compute. reflexivity.
Qed.

Lemma combine_sequential_cf_spec_witness :
  returns (combine_sequential_cf (8 # 10) (6 # 10))
    ((8 # 10) + (6 # 10) * (1 - (8 # 10))).
Proof.
  apply (combine_sequential_cf_spec (8 # 10) (6 # 10)).
  - split; discriminate.
  - split; discriminate.
  - discriminate.
  - discriminate.
Defined.

(** With opposite signs and [min(|cf1|,|cf2|) = 1] the guarded operator
    returns 0. *)
Lemma combine_sequential_cf_zero_denominator cf1 cf2 :
  (0 < cf1 /\ cf2 < 0) \/ (cf1 < 0 /\ 0 < cf2) ->
  Qmin (Qabs cf1) (Qabs cf2) == 1 ->
  combine_sequential_cf cf1 cf2 = Some 0.
Proof.
  intros Hs Hm. unfold combine_sequential_cf.
  assert (Hp : Qpos_b cf1 && Qpos_b cf2 = false).
  { apply andb_false_iff.
    destruct Hs as [[_ H]|[H _]]; [right|left];
      apply Qpos_b_false, Qlt_le_weak, H. }
  assert (Hn : Qneg_b cf1 && Qneg_b cf2 = false).
  { apply andb_false_iff.
    destruct Hs as [[H _]|[_ H]]; [left|right];
      apply Qneg_b_false, Qlt_le_weak, H. }
  rewrite Hp, Hn. simpl.
  destruct (Qeq_bool _ 0) eqn:E; [reflexivity|].
  apply Qeq_bool_neq in E. exfalso. apply E. rewrite Hm. reflexivity.
Qed.

(** The unguarded copy in [forward_chaining.py] divides by zero there. *)
Lemma combine_certainty_factors_zero_denominator cf1 cf2 :
  (0 < cf1 /\ cf2 < 0) \/ (cf1 < 0 /\ 0 < cf2) ->
  Qmin (Qabs cf1) (Qabs cf2) == 1 ->
  FC.combine_certainty_factors cf1 cf2 = None.
Proof.
  intros Hs Hm. unfold FC.combine_certainty_factors.
  assert (Hp : Qpos_b cf1 && Qpos_b cf2 = false).
  { apply andb_false_iff.
    destruct Hs as [[_ H]|[H _]]; [right|left];
      apply Qpos_b_false, Qlt_le_weak, H. }
  assert (Hn : Qneg_b cf1 && Qneg_b cf2 = false).
  { apply andb_false_iff.
    destruct Hs as [[H _]|[_ H]]; [left|right];
      apply Qneg_b_false, Qlt_le_weak, H. }
  rewrite Hp, Hn. unfold py_div.
  destruct (Qeq_bool _ 0) eqn:E; [reflexivity|].
  apply Qeq_bool_neq in E. exfalso. apply E. rewrite Hm. reflexivity.
Qed.

(** C4. At [cf1 = 1.0], [cf2 = -1.0] the mixed-sign denominator is zero:
    [CertaintyFactor.combine_sequential_cf] returns 0, while the
    module-level [combine_certainty_factors] raises [ZeroDivisionError],
    on rationals and on binary64 numbers alike. *)
Theorem combine_certainty_factors_raises :
  CF.combine_sequential_cf 1 (-1) = Some 0
  /\ FC.combine_certainty_factors 1 (-1) = None
  /\ Binary64.combine_sequential_cf 1%float (-1)%float = Some 0%float
  /\ Binary64.combine_certainty_factors 1%float (-1)%float = None.
Proof. repeat split; vm_compute; reflexivity. Qed.

End CFProps.

Module InterpretProps.
Import CF.

Lemma Qle_bool_false a b : Qle_bool a b = false <-> b < a.
Proof.
  rewrite <- not_true_iff_false, Qle_bool_iff.
  split; [apply Qnot_le_lt | apply Qlt_not_le].
Qed.

Lemma Qle_bool_ext t a b : a == b -> Qle_bool t a = Qle_bool t b.
Proof.
  intros H. apply eq_true_iff_eq. rewrite !Qle_bool_iff, H. reflexivity.
Qed.

(** The result depends on the magnitude only, up to equality of
    rationals. *)
Lemma interpret_cf_abs_ext cf cf' :
  Qabs cf == Qabs cf' -> interpret_cf cf = interpret_cf cf'.
Proof.
  intros H. unfold interpret_cf. cbv zeta.
  rewrite !(Qle_bool_ext _ _ _ H). reflexivity.
Qed.

Lemma interpret_cf_in_categories cf : In (interpret_cf cf) cf_categories.
Proof.
  unfold interpret_cf, cf_categories. cbv zeta.
  repeat (match goal with |- context [Qle_bool ?a ?b] =>
                            destruct (Qle_bool a b) end);
    simpl; tauto.
Qed.

(** C7 (as amended). [interpret_cf cf] depends only on [|cf|], so it is the
    same for [cf] and [-cf]; [|cf|] is bucketed against the thresholds
    0.9, 0.7, 0.5, 0.3, 0.1 into six descending categories (five reached
    by a threshold and a last one below 0.1), each with a fixed label. *)
Theorem interpret_cf_buckets (cf : Q) :
  interpret_cf (- cf) = interpret_cf cf
  /\ (forall cf', Qabs cf == Qabs cf' -> interpret_cf cf = interpret_cf cf')
  /\ In (interpret_cf cf) cf_categories
  /\ (9 # 10 <= Qabs cf -> nth_error cf_categories 0 = Some (interpret_cf cf))
  /\ (7 # 10 <= Qabs cf < 9 # 10 ->
      nth_error cf_categories 1 = Some (interpret_cf cf))
  /\ (5 # 10 <= Qabs cf < 7 # 10 ->
      nth_error cf_categories 2 = Some (interpret_cf cf))
  /\ (3 # 10 <= Qabs cf < 5 # 10 ->
      nth_error cf_categories 3 = Some (interpret_cf cf))
  /\ (1 # 10 <= Qabs cf < 3 # 10 ->
      nth_error cf_categories 4 = Some (interpret_cf cf))
  /\ (Qabs cf < 1 # 10 -> nth_error cf_categories 5 = Some (interpret_cf cf)).
Proof.
  split; [|split; [|split]].
  - apply interpret_cf_abs_ext. apply Qabs_opp.
  - intros cf'. apply interpret_cf_abs_ext.
  - apply interpret_cf_in_categories.
  - unfold interpret_cf. cbv zeta.
    repeat split.
    + intros H. apply Qle_bool_iff in H. rewrite H. reflexivity.
    + intros [H1 H2]. apply Qle_bool_iff in H1. apply Qle_bool_false in H2.
      rewrite H1, H2. reflexivity.
    + intros [H1 H2]. apply Qle_bool_iff in H1. apply Qle_bool_false in H2.
      assert (H3 : Qle_bool (9 # 10) (Qabs cf) = false).
      { apply Qle_bool_false. apply Qle_bool_false in H2.
        eapply Qlt_trans; [exact H2 | reflexivity]. }
      rewrite H1, H2, H3. reflexivity.
    + intros [H1 H2]. apply Qle_bool_iff in H1. apply Qle_bool_false in H2.
      assert (H3 : Qle_bool (7 # 10) (Qabs cf) = false).
      { apply Qle_bool_false. apply Qle_bool_false in H2.
        eapply Qlt_trans; [exact H2 | reflexivity]. }
      assert (H4 : Qle_bool (9 # 10) (Qabs cf) = false).
      { apply Qle_bool_false. apply Qle_bool_false in H2.
        eapply Qlt_trans; [exact H2 | reflexivity]. }
      rewrite H1, H2, H3, H4. reflexivity.
    + intros [H1 H2]. apply Qle_bool_iff in H1. apply Qle_bool_false in H2.
      assert (H3 : Qle_bool (5 # 10) (Qabs cf) = false).
      { apply Qle_bool_false. apply Qle_bool_false in H2.
        eapply Qlt_trans; [exact H2 | reflexivity]. }
      assert (H4 : Qle_bool (7 # 10) (Qabs cf) = false).
      { apply Qle_bool_false. apply Qle_bool_false in H2.
        eapply Qlt_trans; [exact H2 | reflexivity]. }
      assert (H5 : Qle_bool (9 # 10) (Qabs cf) = false).
      { apply Qle_bool_false. apply Qle_bool_false in H2.
        eapply Qlt_trans; [exact H2 | reflexivity]. }
      rewrite H1, H2, H3, H4, H5. reflexivity.
    + intros H2. apply Qle_bool_false in H2.
      assert (H3 : Qle_bool (3 # 10) (Qabs cf) = false).
      { apply Qle_bool_false. apply Qle_bool_false in H2.
        eapply Qlt_trans; [exact H2 | reflexivity]. }
      assert (H4 : Qle_bool (5 # 10) (Qabs cf) = false).
      { apply Qle_bool_false. apply Qle_bool_false in H2.
        eapply Qlt_trans; [exact H2 | reflexivity]. }
      assert (H5 : Qle_bool (7 # 10) (Qabs cf) = false).
      { apply Qle_bool_false. apply Qle_bool_false in H2.
        eapply Qlt_trans; [exact H2 | reflexivity]. }
      assert (H6 : Qle_bool (9 # 10) (Qabs cf) = false).
      { apply Qle_bool_false. apply Qle_bool_false in H2.
        eapply Qlt_trans; [exact H2 | reflexivity]. }
      rewrite H2, H3, H4, H5, H6. reflexivity.
Qed.

(** C7 (as stated) fails: the samples of [cf_samples] lie in [-1,1] and
    fall into six pairwise distinct categories, so no list of five
    categories covers every result of [interpret_cf]. *)
Lemma interpret_cf_not_five_categories :
  ~ exists cats : list (string * string),
      length cats = 5%nat
      /\ forall cf, -1 <= cf <= 1 -> In (interpret_cf cf) cats.
Proof.
  intros [cats [Hlen Hall]].
  assert (Hincl : incl (List.map interpret_cf cf_samples) cats).
  { intros c Hc. apply in_map_iff in Hc. destruct Hc as [cf [<- Hcf]].
    apply Hall. simpl in Hcf.
    repeat (destruct Hcf as [<-|Hcf]; [split; discriminate|]).
    contradiction. }
  assert (Hnd : List.NoDup (List.map interpret_cf cf_samples)).
  { vm_compute.
    repeat (constructor; [simpl; intuition discriminate|]). constructor. }
  pose proof (List.NoDup_incl_length Hnd Hincl) as Hle.
  rewrite Hlen in Hle. vm_compute in Hle. lia.
Qed.

End InterpretProps.

(** ** Forward chaining *)

Module FCProps.
Import FC.

(** *** One rule visit *)

Lemma fire_rule_fresh rule_id r st :
  rule_id ∉ fired_rules st ->
  fire_rule rule_id r st = (Some (THEN r), fired rule_id r st).
Proof.
  intros H. unfold fire_rule. rewrite bool_decide_eq_false_2 by exact H.
  reflexivity.
Qed.

Lemma fire_rule_again rule_id r st :
  rule_id ∈ fired_rules st -> fire_rule rule_id r st = (None, st).
Proof.
  intros H. unfold fire_rule. rewrite bool_decide_eq_true_2 by exact H.
  reflexivity.
Qed.

(** A visit either skips the rule or fires it. *)
Lemma pass_step_cases rule_id r st b :
  (pass_step rule_id r (st, b) = (st, b)
   /\ ((rule_id ∈ fired_rules st) \/ can_fire_rule r st = false))
  \/ ((rule_id ∉ fired_rules st) /\ can_fire_rule r st = true
      /\ pass_step rule_id r (st, b)
         = (fired rule_id r st, if truthy (THEN r) then true else b)).
Proof.
  unfold pass_step.
  destruct (bool_decide (rule_id ∈ fired_rules st)) eqn:E.
  - left. apply bool_decide_eq_true in E. auto.
  - apply bool_decide_eq_false in E.
    destruct (can_fire_rule r st) eqn:C.
    + right. rewrite fire_rule_fresh by exact E. auto.
    + left. auto.
Qed.

Lemma can_fire_rule_spec r st :
  can_fire_rule r st = true
  <-> forall c, c ∈ IF r -> c ∈ working_memory st ∪ inferred_facts st.
Proof.
  unfold can_fire_rule. rewrite forallb_forall. split.
  - intros H c Hc. apply list_elem_of_In in Hc.
    apply H in Hc. apply bool_decide_eq_true in Hc. exact Hc.
  - intros H c Hc. apply bool_decide_eq_true. apply H.
    apply list_elem_of_In. exact Hc.
Qed.

(** *** Invariants of a pass and of the whole loop *)

Section Invariant.

Variable rules : rule_base.
Variable P : state -> Prop.
Hypothesis P_fired :
  forall rule_id r st,
    (rule_id, r) ∈ rules -> P st ->
    rule_id ∉ fired_rules st -> can_fire_rule r st = true ->
    P (fired rule_id r st).

Lemma pass_loop_inv sub acc :
  sub ⊆ rules -> P acc.1 -> P (pass_loop sub acc).1.
Proof.
  revert acc. induction sub as [|[rule_id r] sub IH]; intros [st b] Hsub HP.
  - exact HP.
  - cbn [pass_loop]. apply IH.
    + intros x Hx. apply Hsub. right. exact Hx.
    + destruct (pass_step_cases rule_id r st b) as [[-> _]|(Hf & Hc & ->)].
      * exact HP.
      * simpl. apply P_fired; try assumption. apply Hsub. left.
Qed.

Lemma run_pass_inv st : P st -> P (run_pass rules st).1.
Proof. intros HP. apply pass_loop_inv; [reflexivity | exact HP]. Qed.

Lemma passes_inv k st : P st -> P (passes rules k st).
Proof.
  revert st. induction k as [|k IH]; intros st HP; simpl.
  - exact HP.
  - apply IH, run_pass_inv, HP.
Qed.

End Invariant.

Lemma passes_S_back rules k st :
  passes rules (S k) st = (run_pass rules (passes rules k st)).1.
Proof.
  revert st. induction k as [|k IH]; intros st.
  - reflexivity.
  - change (passes rules (S (S k)) st)
      with (passes rules (S k) (run_pass rules st).1).
    rewrite IH. reflexivity.
Qed.

(** *** The flag [new_facts_added] *)

(** The list of fired rules only grows along a pass, and a pass that
    leaves it as it was changed nothing and raised no flag. *)
Lemma pass_loop_fired_length sub st b :
  (length (fired_rules st) <= length (fired_rules (pass_loop sub (st, b)).1))%nat
  /\ (length (fired_rules (pass_loop sub (st, b)).1) = length (fired_rules st)
      -> pass_loop sub (st, b) = (st, b)).
Proof.
  revert st b. induction sub as [|[rule_id r] sub IH]; intros st b.
  - simpl. auto.
  - cbn [pass_loop].
    destruct (pass_step_cases rule_id r st b) as [[-> _]|(Hf & Hc & ->)].
    + apply IH.
    + destruct (IH (fired rule_id r st) (if truthy (THEN r) then true else b))
        as [Hle _].
      simpl in Hle. rewrite length_app in Hle. simpl in Hle.
      split; [lia|]. intros Heq. lia.
Qed.

Lemma run_pass_no_fire rules st :
  fired_rules (run_pass rules st).1 = fired_rules st ->
  run_pass rules st = (st, false).
Proof.
  intros H. apply pass_loop_fired_length. unfold run_pass in H.
  rewrite H. reflexivity.
Qed.

(** *** The [while] loop *)

(** With enough fuel the loop returns, after some number [j] of passes
    within the budget; it has stopped by the first pass that left the flag
    down. *)
Lemma while_loop_spec rules max_iterations :
  forall fuel flag iteration st,
    (Z.to_nat (max_iterations - iteration) <= fuel)%nat ->
    exists j : nat,
      while_loop fuel rules max_iterations flag iteration st
      = Some ((iteration + Z.of_nat j)%Z, passes rules j st)
      /\ (Z.of_nat j <= Z.max 0 (max_iterations - iteration))%Z
      /\ (flag = false -> j = 0%nat)
      /\ (flag = true -> (iteration < max_iterations)%Z -> (1 <= j)%nat)
      /\ (forall k : nat,
            (iteration + Z.of_nat k < max_iterations)%Z ->
            (run_pass rules (passes rules k st)).2 = false ->
            (j <= S k)%nat).
Proof.
  induction fuel as [|fuel IH]; intros flag iteration st Hfuel.
  - exists 0%nat. simpl.
    assert (Hg : (iteration <? max_iterations)%Z = false) by lia.
    rewrite Hg, andb_false_r, Z.add_0_r.
    repeat split; try lia.
  - simpl. destruct flag; simpl.
    + destruct (iteration <? max_iterations)%Z eqn:Hg.
      * destruct (run_pass rules st) as [st1 flag1] eqn:Hpass.
        destruct (IH flag1 (iteration + 1)%Z st1)
          as (j & Hj & Hb & Hz & _ & Hk); [lia|].
        exists (S j). simpl. rewrite Hpass. simpl.
        rewrite Hj. split; [f_equal; f_equal; lia|].
        split; [lia|]. split; [discriminate|]. split; [lia|].
        intros [|k] Hlt Hflag.
        -- simpl in Hflag. rewrite Hpass in Hflag. simpl in Hflag.
           rewrite (Hz Hflag). lia.
        -- simpl in Hflag. rewrite Hpass in Hflag. simpl in Hflag.
           apply le_n_S, Hk; [lia | exact Hflag].
      * exists 0%nat. simpl. rewrite Z.add_0_r.
        repeat split; try lia.
    + exists 0%nat. simpl. rewrite Z.add_0_r.
      repeat split; try lia.
Qed.

(** [forward_chain] always returns, and any property kept by rule firing
    holds of the session it leaves. *)
Lemma forward_chain_inv rules (P : state -> Prop) max_iterations st :
  (forall rule_id r st,
      (rule_id, r) ∈ rules -> P st ->
      rule_id ∉ fired_rules st -> can_fire_rule r st = true ->
      P (fired rule_id r st)) ->
  P st ->
  exists n st',
    forward_chain rules max_iterations st = Some (n, st') /\ P st'.
Proof.
  intros Hstep HP. unfold forward_chain.
  destruct (while_loop_spec rules max_iterations (Z.to_nat max_iterations)
              true 0%Z st) as (j & Hj & _); [lia|].
  eexists _, _. split; [exact Hj|].
  apply passes_inv with (rules := rules); assumption.
Qed.

End FCProps.

Module FCClaims.
Import FC FCProps.

(** *** Working memory is a frame of the evaluator *)

Lemma add_facts_working_memory facts st :
  working_memory (add_facts facts st)
  = working_memory st ∪ list_to_set facts.
Proof.
  revert st. induction facts as [|f facts IH]; intros st; simpl.
  - set_solver.
  - rewrite IH. simpl. set_solver.
Qed.

Lemma add_facts_inferred_facts facts st :
  inferred_facts (add_facts facts st) = inferred_facts st.
Proof.
  revert st. induction facts as [|f facts IH]; intros st; simpl.
  - reflexivity.
  - rewrite IH. reflexivity.
Qed.

Lemma add_all_working_memory calls st :
  working_memory (add_all calls st)
  = working_memory st ∪ ⋃ (list_to_set <$> calls).
Proof.
  revert st. induction calls as [|facts calls IH]; intros st; simpl.
  - set_solver.
  - unfold add_all in *. simpl. rewrite IH, add_facts_working_memory.
    set_solver.
Qed.

(** C10. [forward_chain] returns and leaves the working memory as it
    found it, for every rule base, bound and session; after any sequence
    of [add_facts] calls on a fresh session the working memory is, before
    and after the run, the union of the lists passed. *)
Theorem forward_chain_working_memory_frame
  (rules : rule_base) (max_iterations : Z) :
  (forall st, exists n st',
      forward_chain rules max_iterations st = Some (n, st')
      /\ working_memory st' = working_memory st)
  /\ (forall calls, exists n st',
        forward_chain rules max_iterations (add_all calls init)
        = Some (n, st')
        /\ working_memory st' = ⋃ (list_to_set <$> calls)).
Proof.
  assert (Hframe : forall st, exists n st',
             forward_chain rules max_iterations st = Some (n, st')
             /\ working_memory st' = working_memory st).
  { intros st.
    apply (forward_chain_inv rules
             (fun st' => working_memory st' = working_memory st)).
    - intros rule_id r st0 _ H _ _. exact H.
    - reflexivity. }
  split; [exact Hframe|].
  intros calls. destruct (Hframe (add_all calls init)) as (n & st' & Hrun & Hwm).
  exists n, st'. split; [exact Hrun|].
  rewrite Hwm, add_all_working_memory. simpl. set_solver.
Qed.

(** *** Known and inferred facts *)

(** C8 (as amended). Starting from a session whose known and inferred
    facts are disjoint: [add_facts] keeps them disjoint when no added fact
    is an inferred one, [fire_rule] keeps them disjoint when the rule's
    consequent is not a known fact, and [forward_chain] keeps them
    disjoint when no rule concludes a known fact. *)
Theorem known_inferred_disjoint
  (rules : rule_base) (max_iterations : Z) (st : state) :
  working_memory st ## inferred_facts st ->
  (forall facts,
      (forall f, f ∈ facts -> f ∉ inferred_facts st) ->
      working_memory (add_facts facts st)
      ## inferred_facts (add_facts facts st))
  /\ (forall rule_id r,
        THEN r ∉ working_memory st ->
        working_memory (fire_rule rule_id r st).2
        ## inferred_facts (fire_rule rule_id r st).2)
  /\ ((forall rule_id r, (rule_id, r) ∈ rules -> THEN r ∉ working_memory st) ->
      exists n st',
        forward_chain rules max_iterations st = Some (n, st')
        /\ working_memory st' ## inferred_facts st').
Proof.
  intros Hdis. split; [|split].
  - intros facts Hfacts.
    rewrite add_facts_working_memory, add_facts_inferred_facts.
    set_solver.
  - intros rule_id r Hthen. unfold fire_rule.
    destruct (bool_decide (rule_id ∈ fired_rules st)); simpl.
    + exact Hdis.
    + set_solver.
  - intros Hrules.
    destruct (forward_chain_inv rules
                (fun st' => working_memory st' = working_memory st
                            /\ working_memory st' ## inferred_facts st')
                max_iterations st) as (n & st' & Hrun & _ & Hdis').
    + intros rule_id r st0 Hin [Hwm Hd] _ _. simpl. split; [exact Hwm|].
      specialize (Hrules rule_id r Hin). rewrite <- Hwm in Hrules.
      set_solver.
    + split; [reflexivity | exact Hdis].
    + exists n, st'. split; assumption.
Qed.

Lemma known_inferred_disjoint_witness :
  exists n st',
    forward_chain scenario_A_rules 50 (add_facts scenario_A_facts init)
    = Some (n, st')
    /\ working_memory st' ## inferred_facts st'.
Proof.
  apply (known_inferred_disjoint scenario_A_rules 50
           (add_facts scenario_A_facts init)).
  - simpl. set_solver.
  - intros rule_id r Hin. apply list_elem_of_singleton in Hin.
    injection Hin as -> ->.
    compute_done.
Defined.

(** C8 (as stated) fails: with known facts [a] and [b] and a rule from
    [a] to [b], the run fires the rule and [b] is both known and
    inferred. *)
Lemma known_inferred_overlap :
  exists st,
    forward_chain known_consequent_rules 50
      (add_facts ["a"; "b"]%string init) = Some (2%Z, st)
    /\ "b"%string ∈ working_memory st
    /\ "b"%string ∈ inferred_facts st.
Proof.
  exists (passes known_consequent_rules 2 (add_facts ["a"; "b"]%string init)).
  split; [vm_compute; reflexivity|].
  split; compute_done.
Qed.

End FCClaims.

Module FCScenario.
Import FC FCProps.

(** *** Termination and the iteration count *)

(** C5 (as amended). [forward_chain] always returns, after a number [n]
    of passes between 0 and [max_iterations]; the session it leaves is
    the one after [n] passes; and a pass within the budget in which no
    rule fires ends the run, so that when no rule fires in pass [k+1] for
    some [k < max_iterations] the returned count is at most [k+1] (it
    counts the last, idle pass and can equal [max_iterations]). *)
Theorem forward_chain_terminates
  (rules : rule_base) (max_iterations : Z) (st : state) :
  exists n st',
    forward_chain rules max_iterations st = Some (n, st')
    /\ (0 <= n <= Z.max 0 max_iterations)%Z
    /\ st' = passes rules (Z.to_nat n) st
    /\ forall k : nat,
        (Z.of_nat k < max_iterations)%Z ->
        fired_rules (passes rules (S k) st) = fired_rules (passes rules k st) ->
        (n <= Z.of_nat k + 1)%Z.
Proof.
  unfold forward_chain.
  destruct (while_loop_spec rules max_iterations (Z.to_nat max_iterations)
              true 0%Z st) as (j & Hj & Hb & _ & _ & Hk); [lia|].
  exists (Z.of_nat j), (passes rules j st).
  split; [exact Hj|]. split; [lia|].
  split; [rewrite Nat2Z.id; reflexivity|].
  intros k Hlt Hidle.
  rewrite passes_S_back in Hidle. apply run_pass_no_fire in Hidle.
  specialize (Hk k). rewrite Hidle in Hk. simpl in Hk. lia.
Qed.

Lemma late_rule_rules_acyclic : acyclic late_rule_rules.
Proof.
  exists late_rule_rank. intros rule_id r c Hin Hc.
  unfold late_rule_rules in Hin.
  repeat (apply elem_of_cons in Hin; destruct Hin as [Hin|Hin];
          [injection Hin as -> ->; simpl in Hc;
           apply list_elem_of_singleton in Hc; subst c;
           vm_compute; lia|]).
  apply elem_of_nil in Hin. contradiction.
Qed.

Lemma one_step_rules_acyclic : acyclic one_step_rules.
Proof.
  exists late_rule_rank. intros rule_id r c Hin Hc.
  unfold one_step_rules in Hin.
  apply list_elem_of_singleton in Hin. injection Hin as -> ->.
  simpl in Hc. apply list_elem_of_singleton in Hc. subst c.
  vm_compute. lia.
Qed.

(** C5 (as stated) fails twice. With one rule from [a] to [b] and
    [max_iterations = 2] the rule base is acyclic and the inferred facts
    are final after one pass, fewer than two, yet the returned count is 2,
    not less than [max_iterations]. With [late_rule_rules], also acyclic,
    the second pass adds no fact to those inferred by the first, yet the
    run does not end there: it makes a third pass. *)
Lemma forward_chain_count_reaches_bound :
  (acyclic one_step_rules
   /\ inferred_facts (passes one_step_rules 2 (add_facts ["a"%string] init))
      = inferred_facts (passes one_step_rules 1 (add_facts ["a"%string] init))
   /\ forward_chain one_step_rules 2 (add_facts ["a"%string] init)
      = Some (2%Z, passes one_step_rules 2 (add_facts ["a"%string] init)))
  /\ (acyclic late_rule_rules
      /\ inferred_facts (passes late_rule_rules 2 (add_facts ["a"%string] init))
         = inferred_facts
             (passes late_rule_rules 1 (add_facts ["a"%string] init))
      /\ forward_chain late_rule_rules 50 (add_facts ["a"%string] init)
         = Some (3%Z, passes late_rule_rules 3 (add_facts ["a"%string] init))).
Proof.
  split; (split; [|split; vm_compute; reflexivity]).
  - apply one_step_rules_acyclic.
  - apply late_rule_rules_acyclic.
Qed.

End FCScenario.

Module ScenarioA.
Import FC FCProps.

(** A dictionary holds one rule per identifier. *)
Lemma unique_ids_same_rule (rules : rule_base) rule_id r r' :
  unique_ids rules -> (rule_id, r) ∈ rules -> (rule_id, r') ∈ rules -> r = r'.
Proof.
  unfold unique_ids. induction rules as [|[i x] rules IH]; intros Hnd H1 H2.
  - apply elem_of_nil in H1. contradiction.
  - rewrite fmap_cons in Hnd. apply NoDup_cons in Hnd as [Hnotin Hnd].
    apply elem_of_cons in H1, H2.
    destruct H1 as [H1|H1], H2 as [H2|H2].
    + congruence.
    + exfalso. apply Hnotin. injection H1 as -> ->.
      apply list_elem_of_fmap. exists (i, r'). auto.
    + exfalso. apply Hnotin. injection H2 as -> ->.
      apply list_elem_of_fmap. exists (i, r). auto.
    + apply IH; assumption.
Qed.

Section Run.

Variable rules : rule_base.
Hypothesis rules_unique : unique_ids rules.
Hypothesis R6_in : ("R6"%string, R6) ∈ rules.
Hypothesis R6_only :
  forall rule_id r,
    (rule_id, r) ∈ rules -> THEN r = kerusakan_touchscreen_digitizer ->
    rule_id = "R6"%string.

Lemma scenario_inv_fired rule_id r st :
  (rule_id, r) ∈ rules -> scenario_inv st ->
  rule_id ∉ fired_rules st -> can_fire_rule r st = true ->
  scenario_inv (fired rule_id r st).
Proof.
  intros Hin (Ht & Hl & Hyes & Hno) Hfresh _.
  unfold scenario_inv. simpl.
  split; [exact Ht|]. split; [exact Hl|].
  destruct (decide (rule_id = "R6"%string)) as [->|Hne].
  - assert (r = R6) as ->
        by (eapply unique_ids_same_rule; eassumption).
    split.
    + intros _. split; [set_solver|].
      change (THEN R6) with kerusakan_touchscreen_digitizer.
      rewrite lookup_insert_eq. unfold score. rewrite (Hno Hfresh).
      reflexivity.
    + intros H. exfalso. apply H. set_solver.
  - assert (Hthen : THEN r ≠ kerusakan_touchscreen_digitizer).
    { intros E. apply Hne. eapply R6_only; eassumption. }
    split.
    + intros H. apply elem_of_app in H. destruct H as [H|H].
      * destruct (Hyes H) as [Hk Hs]. split; [set_solver|].
        rewrite lookup_insert_ne by exact Hthen. exact Hs.
      * apply list_elem_of_singleton in H. congruence.
    + intros H. rewrite lookup_insert_ne by exact Hthen.
      apply Hno. intros H'. apply H. set_solver.
Qed.

Lemma fired_rules_kept rule_id (r : rule) st :
  "R6"%string ∈ fired_rules st -> "R6"%string ∈ fired_rules (fired rule_id r st).
Proof. simpl. set_solver. Qed.

(** A pass over a list that holds R6 leaves R6 fired. *)
Lemma pass_loop_fires_R6 sub st b :
  sub ⊆ rules -> ("R6"%string, R6) ∈ sub -> scenario_inv st ->
  "R6"%string ∈ fired_rules (pass_loop sub (st, b)).1.
Proof.
  revert st b. induction sub as [|[rule_id r] sub IH]; intros st b Hsub Hin Hinv.
  - apply elem_of_nil in Hin. contradiction.
  - assert (Hsub' : sub ⊆ rules) by (intros x Hx; apply Hsub; right; exact Hx).
    assert (Hhd : (rule_id, r) ∈ rules) by (apply Hsub; left).
    cbn [pass_loop].
    apply elem_of_cons in Hin. destruct Hin as [Hin|Hin].
    + injection Hin as <- <-.
      assert (Hfired : "R6"%string ∈ fired_rules (pass_step "R6" R6 (st, b)).1).
      { destruct (pass_step_cases "R6" R6 st b)
          as [[-> [Hf|Hc]]|(_ & _ & ->)].
        - exact Hf.
        - exfalso. destruct Hinv as (Ht & Hl & _).
          assert (Hcan : can_fire_rule R6 st = true).
          { apply can_fire_rule_spec. intros c Hc'. simpl in Hc'.
            apply elem_of_union. left.
            apply elem_of_cons in Hc'. destruct Hc' as [->|Hc']; [exact Ht|].
            apply list_elem_of_singleton in Hc'. subst c. exact Hl. }
          congruence.
        - simpl. set_solver. }
      destruct (pass_step "R6" R6 (st, b)) as [st1 b1]. 
      apply (pass_loop_inv rules (fun s => "R6"%string ∈ fired_rules s));
        [|exact Hsub'|exact Hfired].
      intros i x s _ Hs _ _. apply fired_rules_kept, Hs.
    + destruct (pass_step_cases rule_id r st b) as [[-> _]|(Hf & Hc & ->)].
      * apply IH; assumption.
      * apply IH; try assumption.
        apply scenario_inv_fired; assumption.
Qed.

Lemma scenario_A_run max_iterations st :
  (1 <= max_iterations)%Z -> scenario_inv st ->
  exists n st',
    forward_chain rules max_iterations st = Some (n, st')
    /\ "R6"%string ∈ fired_rules st'
    /\ kerusakan_touchscreen_digitizer ∈ inferred_facts st'
    /\ diagnosis_scores st' !! kerusakan_touchscreen_digitizer
       = Some (0 + (88 # 100)).
Proof.
  intros Hmax Hinv. unfold forward_chain.
  destruct (while_loop_spec rules max_iterations (Z.to_nat max_iterations)
              true 0%Z st) as (j & Hj & _ & _ & Hone & _); [lia|].
  specialize (Hone eq_refl ltac:(lia)).
  destruct j as [|j]; [lia|].
  exists (0 + Z.of_nat (S j))%Z, (passes rules (S j) st).
  split; [exact Hj|].
  cbn [passes].
  set (st1 := (run_pass rules st).1).
  assert (H1 : scenario_inv st1 /\ "R6"%string ∈ fired_rules st1).
  { split.
    - apply run_pass_inv; [|exact Hinv].
      intros; apply scenario_inv_fired; assumption.
    - apply pass_loop_fires_R6; [reflexivity | exact R6_in | exact Hinv]. }
  assert (H2 : scenario_inv (passes rules j st1)
               /\ "R6"%string ∈ fired_rules (passes rules j st1)).
  { apply (passes_inv rules
             (fun s => scenario_inv s /\ "R6"%string ∈ fired_rules s));
      [|exact H1].
    intros i x s Hin [Hs Hf] Hfresh Hcan. split.
    - apply scenario_inv_fired; assumption.
    - apply fired_rules_kept, Hf. }
  destruct H2 as [(_ & _ & Hyes & _) Hf].
  split; [exact Hf|]. exact (Hyes Hf).
Qed.

End Run.

(** C2. In a rule base where R6 (IF touchscreen_tidak_respons,
    layar_tampil_normal THEN kerusakan_touchscreen_digitizer, CF 0.88) is
    the only rule concluding kerusakan_touchscreen_digitizer, a
    forward-chaining run of at least one pass from the three known facts
    of scenario A fires R6, infers kerusakan_touchscreen_digitizer and
    gives it the diagnosis score 0.88. *)
Theorem scenario_A (rules : rule_base) (max_iterations : Z) :
  unique_ids rules ->
  ("R6"%string, R6) ∈ rules ->
  (forall rule_id r,
      (rule_id, r) ∈ rules -> THEN r = kerusakan_touchscreen_digitizer ->
      rule_id = "R6"%string) ->
  (1 <= max_iterations)%Z ->
  exists n st,
    forward_chain rules max_iterations (add_facts scenario_A_facts init)
    = Some (n, st)
    /\ "R6"%string ∈ fired_rules st
    /\ kerusakan_touchscreen_digitizer ∈ inferred_facts st
    /\ CF.returns (diagnosis_scores st !! kerusakan_touchscreen_digitizer)
         (88 # 100).
Proof.
  intros Huniq Hin Honly Hmax.
  destruct (scenario_A_run rules Huniq Hin Honly max_iterations
              (add_facts scenario_A_facts init) Hmax)
    as (n & st & Hrun & Hf & Hk & Hs).
  - unfold scenario_inv. simpl.
    split; [set_solver|]. split; [set_solver|].
    split; [intros H; apply elem_of_nil in H; contradiction|].
    intros _. apply lookup_empty.
  - exists n, st. repeat (split; [assumption|]).
    rewrite Hs. reflexivity.
Qed.

Lemma scenario_A_witness :
  exists n st,
    forward_chain scenario_A_rules 50 (add_facts scenario_A_facts init)
    = Some (n, st)
    /\ "R6"%string ∈ fired_rules st
    /\ kerusakan_touchscreen_digitizer ∈ inferred_facts st
    /\ CF.returns (diagnosis_scores st !! kerusakan_touchscreen_digitizer)
         (88 # 100).
Proof.
  apply (scenario_A scenario_A_rules 50).
  - unfold unique_ids, scenario_A_rules. simpl.
    apply NoDup_singleton.
  - unfold scenario_A_rules. apply list_elem_of_singleton. reflexivity.
  - intros rule_id r Hin _. unfold scenario_A_rules in Hin.
    apply list_elem_of_singleton in Hin. congruence.
  - lia.
Defined.

End ScenarioA.

(** ** Backward chaining *)

Module BCProps.
Import BC.

Lemma find_rules_for_goal_spec rules goal rule_id r :
  (rule_id, r) ∈ find_rules_for_goal rules goal
  <-> (rule_id, r) ∈ rules /\ THEN r = goal.
Proof.
  unfold find_rules_for_goal.
  rewrite !list_elem_of_In, filter_In. simpl.
  rewrite bool_decide_eq_true. reflexivity.
Qed.

(** *** The prover returns *)

Section Total.

Variable rules : rule_base.
Variable max_depth : Z.
Variable recurse : string -> Z -> state -> option (bool * state).

Lemma prove_conditions_total conditions depth :
  (forall c st, exists b st', recurse c (depth + 1)%Z st = Some (b, st')) ->
  forall st, exists b st',
    prove_conditions recurse conditions depth st = Some (b, st').
Proof.
  intros Hrec. induction conditions as [|c cs IH]; intros st; simpl.
  - eauto.
  - destruct (Hrec c st) as ([|] & st1 & ->); [apply IH | eauto].
Qed.

Lemma try_rules_total matching goal depth :
  (forall c st, exists b st', recurse c (depth + 1)%Z st = Some (b, st')) ->
  forall st, exists b st',
    try_rules recurse matching goal depth st = Some (b, st').
Proof.
  intros Hrec. induction matching as [|[rule_id r] ms IH]; intros st; simpl.
  - eauto.
  - destruct (prove_conditions_total (IF r) depth Hrec
                (log (trying_rule rule_id goal (IF r) depth) st))
      as ([|] & st1 & ->); [eauto | apply IH].
Qed.

End Total.

Lemma prove_goal_fuel_total rules max_depth :
  forall fuel goal depth st,
    (fuel_for depth max_depth <= fuel)%nat ->
    exists b st',
      prove_goal_fuel fuel rules goal depth max_depth st = Some (b, st').
Proof.
  unfold fuel_for.
  induction fuel as [|fuel IH]; intros goal depth st Hfuel; [lia|].
  simpl. destruct (max_depth <? depth)%Z eqn:Hd; [eauto|].
  destruct (bool_decide (goal ∈ proved_goals st)); [eauto|].
  destruct (bool_decide (goal ∈ failed_goals st)); [eauto|].
  destruct (bool_decide (goal ∈ working_memory st)); [eauto|].
  destruct (find_rules_for_goal rules goal) as [|m ms].
  - destruct (_ask_user goal st) as [[|] st1]; eauto.
  - apply try_rules_total. intros c st1. apply IH. lia.
Qed.

Lemma prove_goal_total rules goal depth max_depth st :
  exists b st', prove_goal rules goal depth max_depth st = Some (b, st').
Proof. apply prove_goal_fuel_total. reflexivity. Qed.

(** *** An induction principle for the prover

    [R goal st b st'] relates a call for [goal] entered in [st] to its
    result; [Rin goal st0 st] relates the entry of a call for [goal] to
    the session while its rules are being tried. *)

Section Induction.

Variable rules : rule_base.
Variable max_depth : Z.
Variable R : string -> state -> bool -> state -> Prop.
Variable Rin : string -> state -> state -> Prop.

Hypothesis R_depth :
  forall g d st, R g st false (log (max_depth_reached g d) st).
Hypothesis R_cached_proved :
  forall g st, g ∈ proved_goals st -> R g st true st.
Hypothesis R_cached_failed :
  forall g st, g ∉ proved_goals st -> g ∈ failed_goals st -> R g st false st.
Hypothesis R_fact :
  forall g d st,
    g ∉ proved_goals st -> g ∉ failed_goals st -> g ∈ working_memory st ->
    R g st true
      (log (goal_proved_by_fact g d)
         (set_proved_goals (proved_goals st ∪ {[g]}) st)).
Hypothesis R_user_yes :
  forall g d st st1,
    entry g st -> find_rules_for_goal rules g = [] ->
    _ask_user g st = (true, st1) ->
    R g st true
      (log (goal_proved_by_user g d)
         (set_proved_goals (proved_goals st1 ∪ {[g]})
            (set_working_memory (working_memory st1 ∪ {[g]}) st1))).
Hypothesis R_user_no :
  forall g st st1,
    entry g st -> find_rules_for_goal rules g = [] ->
    _ask_user g st = (false, st1) ->
    R g st false (set_failed_goals (failed_goals st1 ∪ {[g]}) st1).
Hypothesis Rin_entry : forall g st, entry g st -> Rin g st st.
Hypothesis Rin_trying :
  forall g st0 st rule_id r d,
    (rule_id, r) ∈ rules -> THEN r = g -> Rin g st0 st ->
    Rin g st0 (log (trying_rule rule_id g (IF r) d) st).
Hypothesis Rin_call :
  forall g st0 st rule_id r c b st',
    (rule_id, r) ∈ rules -> THEN r = g -> c ∈ IF r ->
    Rin g st0 st -> R c st b st' -> Rin g st0 st'.
Hypothesis R_rule :
  forall g st0 st rule_id r d,
    entry g st0 -> (rule_id, r) ∈ rules -> THEN r = g -> Rin g st0 st ->
    R g st0 true
      (log (goal_proved_by_rule rule_id g (rule_cf r) d)
         (set_proved_goals (proved_goals st ∪ {[g]}) st)).
Hypothesis R_exhausted :
  forall g st0 st,
    entry g st0 -> Rin g st0 st ->
    R g st0 false (set_failed_goals (failed_goals st ∪ {[g]}) st).

Section Loops.

Variable recurse : string -> Z -> state -> option (bool * state).
Hypothesis recurse_R :
  forall c d st b st', recurse c d st = Some (b, st') -> R c st b st'.

Lemma prove_conditions_ind g st0 rule_id r depth :
  (rule_id, r) ∈ rules -> THEN r = g ->
  forall conditions st b st',
    conditions ⊆ IF r -> Rin g st0 st ->
    prove_conditions recurse conditions depth st = Some (b, st') ->
    Rin g st0 st'.
Proof.
  intros Hin Hthen.
  induction conditions as [|c cs IH]; intros st b st' Hsub Hst Hrun;
    simpl in Hrun.
  - injection Hrun as <- <-. exact Hst.
  - destruct (recurse c (depth + 1)%Z st) as [[[|] st1]|] eqn:Hc;
      [| |discriminate].
    + apply (IH st1 b st'); [set_solver| |exact Hrun].
      apply (Rin_call g st0 st rule_id r c true st1);
        [exact Hin|exact Hthen|set_solver|exact Hst|].
      apply recurse_R with (d := (depth + 1)%Z). exact Hc.
    + injection Hrun as <- <-.
      apply (Rin_call g st0 st rule_id r c false st1);
        [exact Hin|exact Hthen|set_solver|exact Hst|].
      apply recurse_R with (d := (depth + 1)%Z). exact Hc.
Qed.

Lemma try_rules_ind g st0 depth :
  entry g st0 ->
  forall matching st b st',
    (forall rule_id r, (rule_id, r) ∈ matching ->
                       (rule_id, r) ∈ rules /\ THEN r = g) ->
    Rin g st0 st ->
    try_rules recurse matching g depth st = Some (b, st') ->
    R g st0 b st'.
Proof.
  intros Hentry.
  induction matching as [|[rule_id r] ms IH]; intros st b st' Hms Hst Hrun;
    simpl in Hrun.
  - injection Hrun as <- <-. apply R_exhausted; assumption.
  - destruct (Hms rule_id r) as [Hin Hthen]; [left|].
    destruct (prove_conditions recurse (IF r) depth
                (log (trying_rule rule_id g (IF r) depth) st))
      as [[[|] st1]|] eqn:Hconds; [| |discriminate].
    + injection Hrun as <- <-.
      apply R_rule; try assumption.
      apply (prove_conditions_ind g st0 rule_id r depth Hin Hthen
               (IF r) (log (trying_rule rule_id g (IF r) depth) st) true st1); [reflexivity| |exact Hconds].
      apply Rin_trying; assumption.
    + apply (IH st1 b st'); [| |exact Hrun].
      * intros i x Hx. apply Hms. right. exact Hx.
      * apply (prove_conditions_ind g st0 rule_id r depth Hin Hthen
                 (IF r) (log (trying_rule rule_id g (IF r) depth) st) false st1); [reflexivity| |exact Hconds].
        apply Rin_trying; assumption.
Qed.

End Loops.

Theorem prove_goal_fuel_ind :
  forall fuel goal depth st b st',
    prove_goal_fuel fuel rules goal depth max_depth st = Some (b, st') ->
    R goal st b st'.
Proof.
  induction fuel as [|fuel IH]; intros goal depth st b st' Hrun;
    [discriminate|].
  simpl in Hrun.
  destruct (max_depth <? depth)%Z.
  { injection Hrun as <- <-. apply R_depth. }
  destruct (bool_decide (goal ∈ proved_goals st)) eqn:Hp.
  { injection Hrun as <- <-. apply bool_decide_eq_true in Hp.
    apply R_cached_proved, Hp. }
  apply bool_decide_eq_false in Hp.
  destruct (bool_decide (goal ∈ failed_goals st)) eqn:Hf.
  { injection Hrun as <- <-. apply bool_decide_eq_true in Hf.
    apply R_cached_failed; assumption. }
  apply bool_decide_eq_false in Hf.
  destruct (bool_decide (goal ∈ working_memory st)) eqn:Hw.
  { injection Hrun as <- <-. apply bool_decide_eq_true in Hw.
    apply R_fact; assumption. }
  apply bool_decide_eq_false in Hw.
  assert (Hentry : entry goal st) by (repeat split; assumption).
  destruct (find_rules_for_goal rules goal) as [|m ms] eqn:Hfind.
  - destruct (_ask_user goal st) as [[|] st1] eqn:Hask;
      injection Hrun as <- <-.
    + apply R_user_yes; assumption.
    + apply R_user_no; assumption.
  - apply (try_rules_ind
             (fun condition depth' st' =>
                prove_goal_fuel fuel rules condition depth' max_depth st')
             (fun c d s b0 s' Hc => IH c d s b0 s' Hc)
             goal st depth Hentry (m :: ms) st b st');
      [|apply Rin_entry, Hentry|exact Hrun].
    intros rule_id r Hin. apply find_rules_for_goal_spec. rewrite Hfind.
    exact Hin.
Qed.

End Induction.

End BCProps.

Module BCSession.
Import BC BCProps.

(** *** Simple facts about the state updates *)

Lemma add_facts_fields facts st :
  asked_questions (add_facts facts st) = asked_questions st
  /\ proved_goals (add_facts facts st) = proved_goals st
  /\ failed_goals (add_facts facts st) = failed_goals st
  /\ questions (reasoning_trace (add_facts facts st))
     = questions (reasoning_trace st)
  /\ (forall g, concluding_cfs g (reasoning_trace (add_facts facts st))
                = concluding_cfs g (reasoning_trace st)).
Proof.
  revert st. induction facts as [|f facts IH]; intros st; simpl.
  - auto.
  - destruct (IH (log (fact_added f)
                    (set_working_memory (working_memory st ∪ {[f]}) st)))
      as (-> & -> & -> & -> & Hc).
    simpl. repeat split; try reflexivity.
    + induction (reasoning_trace st) as [|[] t IHt]; simpl; congruence.
    + intros g. rewrite Hc. simpl.
      induction (reasoning_trace st) as [|[] t IHt]; simpl;
        try case_bool_decide; congruence.
Qed.

Lemma questions_app t1 t2 : questions (t1 ++ t2) = questions t1 ++ questions t2.
Proof.
  induction t1 as [|[] t1 IH]; simpl; congruence.
Qed.

Lemma concluding_cfs_app g t1 t2 :
  concluding_cfs g (t1 ++ t2)
  = concluding_cfs g t1 ++ concluding_cfs g t2.
Proof.
  induction t1 as [|[] t1 IH]; simpl; try case_bool_decide; simpl; congruence.
Qed.

(** The session [_ask_user] leaves, by cases. *)
Lemma _ask_user_cases question st :
  (question ∈ asked_questions st /\ _ask_user question st = (false, st))
  \/ ((question ∉ asked_questions st)
      /\ question_callback st = None
      /\ _ask_user question st
         = (false,
            set_asked_questions (asked_questions st ∪ {[question]}) st))
  \/ ((question ∉ asked_questions st)
      /\ exists callback,
          question_callback st = Some callback
          /\ _ask_user question st
             = (callback question,
                log (user_questioned question (callback question))
                  (set_asked_questions
                     (asked_questions st ∪ {[question]}) st))).
Proof.
  unfold _ask_user.
  destruct (bool_decide (question ∈ asked_questions st)) eqn:E.
  - left. apply bool_decide_eq_true in E. auto.
  - apply bool_decide_eq_false in E. right. simpl.
    destruct (question_callback st) as [callback|]; [right|left]; eauto.
Qed.

End BCSession.

Module BCInvariant.
Import BC BCProps BCSession.

(** *** Invariants of a session *)

Section SessionInvariant.

Variable rules : rule_base.
Variable Inv : state -> Prop.
Hypothesis Inv_init : Inv init.
Hypothesis Inv_callback :
  forall callback st, Inv st -> Inv (set_question_callback callback st).
Hypothesis Inv_add_facts : forall facts st, Inv st -> Inv (add_facts facts st).
Hypothesis Inv_reset : forall st, Inv st -> Inv (reset st).
Hypothesis Inv_prove_goal :
  forall goal depth max_depth st b st',
    Inv st -> prove_goal rules goal depth max_depth st = Some (b, st') ->
    Inv st'.

Lemma chain_loop_inv goals :
  forall proved failed st proved' failed' st',
    Inv st ->
    chain_loop rules goals proved failed st = Some (proved', failed', st') ->
    Inv st'.
Proof.
  induction goals as [|g goals IH];
    intros proved failed st proved' failed' st' HI Hrun; simpl in Hrun.
  - injection Hrun as _ _ <-. exact HI.
  - destruct (prove_goal rules g 0 10 st) as [[[|] st1]|] eqn:Hg;
      [| |discriminate];
      (eapply IH; [|exact Hrun]); eapply Inv_prove_goal; eauto.
Qed.

Lemma backward_chain_inv goals st res st' :
  Inv st -> backward_chain rules goals st = Some (res, st') -> Inv st'.
Proof.
  intros HI Hrun. unfold backward_chain in Hrun.
  destruct (chain_loop rules goals [] [] st) as [[[p f] st1]|] eqn:Hloop;
    [|discriminate].
  injection Hrun as _ <-. eapply chain_loop_inv; eauto.
Qed.

Lemma session_inv st : session rules st -> Inv st.
Proof.
  induction 1; eauto using backward_chain_inv.
Qed.

End SessionInvariant.

(** [backward_chain] returns. *)
Lemma chain_loop_total rules goals :
  forall proved failed st,
  exists proved' failed' st',
    chain_loop rules goals proved failed st = Some (proved', failed', st').
Proof.
  induction goals as [|g goals IH]; intros proved failed st; simpl.
  - eauto.
  - destruct (prove_goal_total rules g 0 10 st) as ([|] & st1 & ->);
      apply IH.
Qed.

Lemma backward_chain_total rules goals st :
  exists res st', backward_chain rules goals st = Some (res, st').
Proof.
  unfold backward_chain.
  destruct (chain_loop_total rules goals [] [] st) as (p & f & st' & ->).
  eauto.
Qed.

(** *** The oracle is asked each question once *)

Lemma asked_once_log e st :
  questions [e] = [] -> asked_once st -> asked_once (log e st).
Proof.
  intros He [Hnd Hin]. unfold asked_once. simpl.
  rewrite questions_app, He, app_nil_r. auto.
Qed.

Lemma asked_once_ask_user q st :
  asked_once st -> asked_once (_ask_user q st).2.
Proof.
  intros [Hnd Hin].
  destruct (_ask_user_cases q st)
    as [[_ ->]|[(Hq & _ & ->)|(Hq & callback & _ & ->)]]; simpl.
  - split; assumption.
  - split; [exact Hnd|]. simpl. intros x Hx. set_solver.
  - unfold asked_once. simpl. rewrite questions_app. simpl. split.
    + apply NoDup_app. split; [exact Hnd|]. split.
      * intros x Hx Hx'. apply list_elem_of_singleton in Hx'. subst x.
        apply Hq, Hin, Hx.
      * apply NoDup_singleton.
    + intros x Hx. apply elem_of_app in Hx. destruct Hx as [Hx|Hx].
      * apply Hin in Hx. set_solver.
      * set_solver.
Qed.

Lemma asked_once_prove_goal rules goal depth max_depth st b st' :
  asked_once st ->
  prove_goal rules goal depth max_depth st = Some (b, st') ->
  asked_once st'.
Proof.
  intros HI Hrun. revert HI.
  apply (prove_goal_fuel_ind rules max_depth
           (fun _ s _ s' => asked_once s -> asked_once s')
           (fun _ s0 s => asked_once s0 -> asked_once s))
    with (fuel := fuel_for depth max_depth) (goal := goal) (depth := depth)
         (b := b); try exact Hrun; clear; try (intros; tauto).
  - intros g d st H. apply asked_once_log; [reflexivity | exact H].
  - intros g d st _ _ _ H. apply asked_once_log; [reflexivity | exact H].
  - intros g d st st1 _ _ Hask H. apply asked_once_log; [reflexivity|].
    apply (asked_once_ask_user g) in H. rewrite Hask in H. exact H.
  - intros g st st1 _ _ Hask H.
    apply (asked_once_ask_user g) in H. rewrite Hask in H. exact H.
  - intros g st0 st rule_id r d _ _ H H0.
    apply asked_once_log; [reflexivity | auto].
  - intros g st0 st rule_id r d _ _ _ H H0.
    apply asked_once_log; [reflexivity | auto].
Qed.

Lemma session_asked_once rules st : session rules st -> asked_once st.
Proof.
  apply session_inv.
  - split; [apply NoDup_nil_2 | intros q Hq; apply elem_of_nil in Hq; tauto].
  - intros callback st0 H. exact H.
  - intros facts st0 [Hnd Hin]. unfold asked_once.
    destruct (add_facts_fields facts st0) as (-> & _ & _ & -> & _).
    split; assumption.
  - intros st0 _.
    split; [apply NoDup_nil_2 | intros q Hq; apply elem_of_nil in Hq; tauto].
  - intros goal depth max_depth st0 b st'. apply asked_once_prove_goal.
Qed.

Lemma NoDup_filter_eqb_length q (l : list string) :
  NoDup l -> (length (List.filter (String.eqb q) l) <= 1)%nat.
Proof.
  induction 1 as [|x l Hx Hnd IH]; simpl; [lia|].
  destruct (String.eqb q x) eqn:E; [|exact IH].
  apply String.eqb_eq in E. subst x. simpl.
  assert (Hnone : List.filter (String.eqb q) l = []).
  { clear -Hx. induction l as [|y l IHl]; simpl; [reflexivity|].
    destruct (String.eqb q y) eqn:E.
    - apply String.eqb_eq in E. subst y. exfalso. apply Hx. left.
    - apply IHl. intros H. apply Hx. right. exact H. }
  rewrite Hnone. simpl. lia.
Qed.

Lemma session_oracle_calls rules st q :
  session rules st -> (oracle_calls q st <= 1)%nat.
Proof.
  intros H. apply session_asked_once in H as [Hnd _].
  apply NoDup_filter_eqb_length, Hnd.
Qed.

End BCInvariant.

Module ScenarioB.
Import BC BCProps BCSession BCInvariant.

Lemma no_rule_no_match rules g :
  (forall rule_id r, (rule_id, r) ∈ rules -> THEN r ≠ g) ->
  find_rules_for_goal rules g = [].
Proof.
  intros H. destruct (find_rules_for_goal rules g) as [|[i r] ms] eqn:E;
    [reflexivity|].
  assert (Hin : (i, r) ∈ find_rules_for_goal rules g) by (rewrite E; left).
  apply find_rules_for_goal_spec in Hin as [Hin Hthen].
  exfalso. exact (H i r Hin Hthen).
Qed.

(** C3. In a new session whose callback answers true for a goal [g]
    that no rule concludes, [prove_goal g] returns true, leaves [g] in
    the working memory and in [proved_goals], and [asked_questions] is
    [{g}] after one invocation of the callback; a second [prove_goal g]
    returns true and leaves the session as it is, so the callback is not
    invoked again; and in every session the callback is invoked at most
    once on each question. *)
Theorem scenario_B (rules : rule_base) (g : string)
  (callback : string -> bool) (max_depth : Z) :
  (forall rule_id r, (rule_id, r) ∈ rules -> THEN r ≠ g) ->
  callback g = true ->
  (0 <= max_depth)%Z ->
  (exists st1,
      prove_goal rules g 0 max_depth (set_question_callback callback init)
      = Some (true, st1)
      /\ g ∈ working_memory st1
      /\ g ∈ proved_goals st1
      /\ asked_questions st1 = {[g]}
      /\ oracle_calls g st1 = 1%nat
      /\ prove_goal rules g 0 max_depth st1 = Some (true, st1))
  /\ (forall st q, session rules st -> (oracle_calls q st <= 1)%nat).
Proof.
  intros Hnone Hyes Hdepth. split.
  - apply no_rule_no_match in Hnone.
    eexists. split.
    + unfold prove_goal, fuel_for. cbn [prove_goal_fuel].
      assert (Hd : (max_depth <? 0)%Z = false) by lia.
      rewrite Hd. simpl. rewrite Hnone.
      unfold _ask_user. simpl. rewrite Hyes. reflexivity.
    + simpl. split; [set_solver|]. split; [set_solver|].
      split; [set_solver|]. split.
      * unfold oracle_calls. simpl. rewrite String.eqb_refl. reflexivity.
      * unfold prove_goal, fuel_for. cbn [prove_goal_fuel].
        assert (Hd : (max_depth <? 0)%Z = false) by lia.
        rewrite Hd. simpl.
        rewrite bool_decide_eq_true_2 by set_solver. reflexivity.
  - intros st q. apply session_oracle_calls.
Qed.

Lemma scenario_B_witness :
  (exists st1,
      prove_goal layered_rules "tombol_fisik_berfungsi" 0 10
        (set_question_callback always_yes init)
      = Some (true, st1)
      /\ "tombol_fisik_berfungsi"%string ∈ working_memory st1
      /\ "tombol_fisik_berfungsi"%string ∈ proved_goals st1
      /\ asked_questions st1 = {["tombol_fisik_berfungsi"%string]}
      /\ oracle_calls "tombol_fisik_berfungsi" st1 = 1%nat
      /\ prove_goal layered_rules "tombol_fisik_berfungsi" 0 10 st1
         = Some (true, st1))
  /\ (forall st q, session layered_rules st -> (oracle_calls q st <= 1)%nat).
Proof.
  apply (scenario_B layered_rules "tombol_fisik_berfungsi" always_yes 10).
  - intros rule_id r Hin. unfold layered_rules in Hin.
    repeat (apply elem_of_cons in Hin; destruct Hin as [Hin|Hin];
            [injection Hin as -> ->; discriminate|]).
    apply elem_of_nil in Hin. contradiction.
  - reflexivity.
  - lia.
Defined.

End ScenarioB.

Module Confidence.
Import BC BCProps BCSession BCInvariant.

(** *** The confidence of a proved goal *)

Section Ext.

Variable rules : rule_base.

Lemma ext_refl st : ext rules st st.
Proof.
  split; [reflexivity|]. exists []. rewrite app_nil_r.
  split; [reflexivity|]. intros ? ? ? ? H. apply elem_of_nil in H. tauto.
Qed.

Lemma ext_trans st1 st2 st3 :
  ext rules st1 st2 -> ext rules st2 st3 -> ext rules st1 st3.
Proof.
  intros [Hp1 (n1 & Ht1 & Hn1)] [Hp2 (n2 & Ht2 & Hn2)].
  split; [set_solver|]. exists (n1 ++ n2).
  split; [rewrite Ht2, Ht1, app_assoc; reflexivity|].
  intros rule_id g cf d Hin. apply elem_of_app in Hin.
  destruct Hin as [Hin|Hin].
  - eapply Hn1; eauto.
  - destruct (Hn2 _ _ _ _ Hin) as [Hg Hr]. split; [set_solver | exact Hr].
Qed.

(** An update that keeps the proved goals and logs nothing, or logs an
    entry other than [goal_proved_by_rule]. *)
Lemma ext_quiet st st' new :
  proved_goals st ⊆ proved_goals st' ->
  reasoning_trace st' = reasoning_trace st ++ new ->
  (forall rule_id g cf d, goal_proved_by_rule rule_id g cf d ∉ new) ->
  ext rules st st'.
Proof.
  intros Hp Ht Hn. split; [exact Hp|]. exists new. split; [exact Ht|].
  intros rule_id g cf d Hin. exfalso. exact (Hn _ _ _ _ Hin).
Qed.

Lemma ext_ask_user q st : ext rules st (_ask_user q st).2.
Proof.
  destruct (_ask_user_cases q st)
    as [[_ ->]|[(Hq & _ & ->)|(Hq & callback & _ & ->)]]; simpl.
  - apply ext_refl.
  - apply ext_quiet with (new := []); simpl;
      [reflexivity | rewrite app_nil_r; reflexivity|].
    intros ? ? ? ? H. apply elem_of_nil in H. tauto.
  - apply ext_quiet with (new := [user_questioned q (callback q)]); simpl;
      [reflexivity | reflexivity|].
    intros ? ? ? ? H. apply list_elem_of_singleton in H. discriminate.
Qed.

Lemma ext_log_quiet e st st0 :
  (forall rule_id g cf d, e ≠ goal_proved_by_rule rule_id g cf d) ->
  ext rules st0 st -> ext rules st0 (log e st).
Proof.
  intros He H. eapply ext_trans; [exact H|].
  apply ext_quiet with (new := [e]); simpl; [reflexivity | reflexivity|].
  intros ? ? ? ? Hin. apply list_elem_of_singleton in Hin.
  symmetry in Hin. exact (He _ _ _ _ Hin).
Qed.

Lemma ext_proved g st st0 :
  ext rules st0 st ->
  ext rules st0 (set_proved_goals (proved_goals st ∪ {[g]}) st).
Proof.
  intros H. eapply ext_trans; [exact H|].
  apply ext_quiet with (new := []); simpl;
    [set_solver | rewrite app_nil_r; reflexivity|].
  intros ? ? ? ? Hin. apply elem_of_nil in Hin. tauto.
Qed.

(** What a call of the prover does to the session. *)
Lemma prove_goal_ext goal depth max_depth st b st' :
  prove_goal rules goal depth max_depth st = Some (b, st') ->
  ext rules st st' /\ (b = true -> goal ∈ proved_goals st').
Proof.
  apply (prove_goal_fuel_ind rules max_depth
           (fun g s b s' => ext rules s s' /\ (b = true -> g ∈ proved_goals s'))
           (fun _ s0 s => ext rules s0 s)); clear.
  - intros g d st. split; [|discriminate].
    apply ext_log_quiet; [discriminate | apply ext_refl].
  - intros g st H. split; [apply ext_refl | auto].
  - intros g st _ _. split; [apply ext_refl | discriminate].
  - intros g d st _ _ _. split; [|simpl; set_solver].
    apply ext_log_quiet; [discriminate|]. apply ext_proved, ext_refl.
  - intros g d st st1 _ _ Hask. split; [|simpl; set_solver].
    apply ext_log_quiet; [discriminate|].
    pose proof (ext_ask_user g st) as H. rewrite Hask in H. simpl in H.
    eapply ext_trans; [exact H|].
    apply ext_quiet with (new := []); simpl;
      [set_solver | rewrite app_nil_r; reflexivity|].
    intros ? ? ? ? Hin. apply elem_of_nil in Hin. tauto.
  - intros g st st1 _ _ Hask. split; [|discriminate].
    pose proof (ext_ask_user g st) as H. rewrite Hask in H. simpl in H.
    eapply ext_trans; [exact H|].
    apply ext_quiet with (new := []); simpl;
      [reflexivity | rewrite app_nil_r; reflexivity|].
    intros ? ? ? ? Hin. apply elem_of_nil in Hin. tauto.
  - intros g st _. apply ext_refl.
  - intros g st0 st rule_id r d _ _ H.
    apply ext_log_quiet; [discriminate | exact H].
  - intros g st0 st rule_id r c b st' _ _ _ H [H' _].
    eapply ext_trans; eauto.
  - intros g st0 st rule_id r d (Hp & _ & _) Hin _ [Hsub (new & Ht & Hn)].
    split; [|simpl; set_solver].
    split; [simpl; set_solver|].
    exists (new ++ [goal_proved_by_rule rule_id g (rule_cf r) d]).
    split; [simpl; rewrite Ht, app_assoc; reflexivity|].
    intros i x cf d' Hx. apply elem_of_app in Hx. destruct Hx as [Hx|Hx].
    + eapply Hn; eauto.
    + apply list_elem_of_singleton in Hx. injection Hx as -> -> -> ->.
      split; [exact Hp|]. eauto.
  - intros g st0 st _ H. split; [|discriminate].
    eapply ext_trans; [exact H|].
    apply ext_quiet with (new := []); simpl;
      [reflexivity | rewrite app_nil_r; reflexivity|].
    intros ? ? ? ? Hin. apply elem_of_nil in Hin. tauto.
Qed.

(** The entries recorded for an already proved goal do not change. *)
Lemma ext_concluding_cfs g st st' :
  ext rules st st' -> g ∈ proved_goals st ->
  concluding_cfs g (reasoning_trace st')
  = concluding_cfs g (reasoning_trace st).
Proof.
  intros [_ (new & -> & Hn)] Hg. rewrite concluding_cfs_app.
  assert (Hnone : concluding_cfs g new = []).
  { induction new as [|e new IH]; [reflexivity|].
    assert (IH' : concluding_cfs g new = []).
    { apply IH. intros i x cf d Hin. apply (Hn i x cf d). right. exact Hin. }
    destruct e; simpl; try exact IH'.
    case_bool_decide as E; [|exact IH'].
    subst goal. exfalso.
    destruct (Hn rule_id g cf depth) as [Hg' _]; [left|]. exact (Hg' Hg). }
  rewrite Hnone, app_nil_r. reflexivity.
Qed.

Lemma ext_trace_from_rules st st' :
  ext rules st st' -> trace_from_rules rules st -> trace_from_rules rules st'.
Proof.
  intros [_ (new & Ht & Hn)] H rule_id g cf d Hin. rewrite Ht in Hin.
  apply elem_of_app in Hin. destruct Hin as [Hin|Hin].
  - eapply H; eauto.
  - eapply Hn; eauto.
Qed.

Lemma session_trace_from_rules st :
  session rules st -> trace_from_rules rules st.
Proof.
  apply session_inv.
  - intros ? ? ? ? H. apply elem_of_nil in H. tauto.
  - intros callback st0 H. exact H.
  - intros facts. induction facts as [|f facts IH]; intros st0 H; simpl.
    + exact H.
    + apply IH. intros i g cf d Hin. simpl in Hin.
      apply elem_of_app in Hin. destruct Hin as [Hin|Hin].
      * eapply H; eauto.
      * apply list_elem_of_singleton in Hin. discriminate.
  - intros st0 _ ? ? ? ? H. apply elem_of_nil in H. tauto.
  - intros goal depth max_depth st0 b st' H Hrun.
    apply prove_goal_ext in Hrun as [Hext _].
    eapply ext_trace_from_rules; eauto.
Qed.

End Ext.

(** The loop of [_calculate_goal_confidence] folds [min] over the
    certainty factors recorded for the goal, starting from 1.0. *)
Lemma confidence_fold g trace c :
  fold_left (confidence_step g) trace c
  = fold_left Qmin (concluding_cfs g trace) c.
Proof.
  revert c. induction trace as [|e trace IH]; intros c; [reflexivity|].
  destruct e; simpl; try apply IH.
  case_bool_decide; simpl; apply IH.
Qed.

Lemma fold_Qmin_ext l : forall a b, a == b -> fold_left Qmin l a == fold_left Qmin l b.
Proof.
  induction l as [|x l IH]; intros a b H; simpl; [exact H|].
  apply IH. rewrite H. reflexivity.
Qed.

Lemma fold_Qmin_minimum_cf l :
  Forall (fun cf => cf <= 1) l -> fold_left Qmin l 1 == minimum_cf l.
Proof.
  destruct 1 as [|x l Hx _]; simpl; [reflexivity|].
  apply fold_Qmin_ext. apply Q.min_r. exact Hx.
Qed.

Lemma concluding_cfs_elem g trace cf :
  cf ∈ concluding_cfs g trace ->
  exists rule_id d, goal_proved_by_rule rule_id g cf d ∈ trace.
Proof.
  induction trace as [|e trace IH]; simpl; intros H.
  - apply elem_of_nil in H. tauto.
  - assert (Hrest : cf ∈ concluding_cfs g trace ->
                    exists rule_id d,
                      goal_proved_by_rule rule_id g cf d ∈ e :: trace).
    { intros H'. destruct (IH H') as (i & d & Hin). exists i, d. right.
      exact Hin. }
    destruct e; try (apply Hrest; exact H).
    case_bool_decide as E; [|apply Hrest; exact H].
    apply elem_of_cons in H. destruct H as [->|H]; [|apply Hrest; exact H].
    subst goal. exists rule_id, depth. left.
Qed.

(** What the loop of [backward_chain] keeps true of the entries already
    reported. *)
Lemma chain_loop_confidence rules goals :
  forall proved failed st proved' failed' st',
    chain_loop rules goals proved failed st = Some (proved', failed', st') ->
    (forall g c, (g, c) ∈ proved ->
                 g ∈ proved_goals st /\ c = _calculate_goal_confidence g st) ->
    forall g c, (g, c) ∈ proved' ->
                g ∈ proved_goals st' /\ c = _calculate_goal_confidence g st'.
Proof.
  induction goals as [|goal goals IH];
    intros proved failed st proved' failed' st' Hrun Hacc; simpl in Hrun.
  - injection Hrun as <- _ <-. exact Hacc.
  - destruct (prove_goal rules goal 0 10 st) as [[[|] st1]|] eqn:Hg;
      [| |discriminate].
    + apply prove_goal_ext in Hg as [Hext Hproved].
      apply (IH _ _ _ _ _ _ Hrun).
      intros g c Hin. apply elem_of_app in Hin. destruct Hin as [Hin|Hin].
      * destruct (Hacc g c Hin) as [Hg ->].
        split; [destruct Hext as [Hsub _]; set_solver|].
        unfold _calculate_goal_confidence. rewrite !confidence_fold.
        rewrite (ext_concluding_cfs rules g st st1 Hext Hg). reflexivity.
      * apply list_elem_of_singleton in Hin. injection Hin as -> ->.
        split; [apply Hproved; reflexivity | reflexivity].
    + apply prove_goal_ext in Hg as [Hext _].
      apply (IH _ _ _ _ _ _ Hrun).
      intros g c Hin. destruct (Hacc g c Hin) as [Hg ->].
      split; [destruct Hext as [Hsub _]; set_solver|].
      unfold _calculate_goal_confidence. rewrite !confidence_fold.
      rewrite (ext_concluding_cfs rules g st st1 Hext Hg). reflexivity.
Qed.

(** In a session over a rule base whose certainty factors are at most
    1, the confidence [backward_chain] reports with a goal is the minimum
    of the certainty factors of the [goal_proved_by_rule] entries the
    returned trace holds for that goal, and 1.0 when the trace holds
    none. *)
Lemma reported_confidence
  (rules : rule_base) (goals : list string) (st : state) :
  (forall rule_id r, (rule_id, r) ∈ rules -> rule_cf r <= 1) ->
  session rules st ->
  exists res st',
    backward_chain rules goals st = Some (res, st')
    /\ forall g c,
        (g, c) ∈ res_proved_goals res ->
        g ∈ proved_goals st'
        /\ c == minimum_cf (concluding_cfs g (res_reasoning_trace res)).
Proof.
  intros Hcf Hsession.
  destruct (backward_chain_total rules goals st) as (res & st' & Hrun).
  exists res, st'. split; [exact Hrun|].
  assert (Hsession' : session rules st')
    by (eapply session_backward_chain; eauto).
  unfold backward_chain in Hrun.
  destruct (chain_loop rules goals [] [] st) as [[[p f] st1]|] eqn:Hloop;
    [|discriminate].
  injection Hrun as <- <-. simpl.
  intros g c Hin.
  destruct (chain_loop_confidence rules goals _ _ _ _ _ _ Hloop) with g c
    as [Hg ->]; [|exact Hin|].
  { intros ? ? H. apply elem_of_nil in H. tauto. }
  split; [exact Hg|].
  unfold _calculate_goal_confidence. rewrite confidence_fold.
  apply fold_Qmin_minimum_cf. apply Forall_forall. intros cf Hcfin.
  apply concluding_cfs_elem in Hcfin as (i & d & Hev).
  destruct (session_trace_from_rules rules st1 Hsession' _ _ _ _ Hev)
    as (i' & r & Hr & ->).
  eapply Hcf; eauto.
Qed.

End Confidence.

Module Disjoint.
Import BC BCProps BCSession BCInvariant.

(** *** Proved and failed goals *)

Section Ranked.

Variable rules : rule_base.
Variable rank : string -> nat.
Hypothesis rank_decreases :
  forall rule_id r condition,
    (rule_id, r) ∈ rules -> condition ∈ IF r ->
    (rank condition < rank (THEN r))%nat.

Lemma changed_below_refl n st : changed_below rank n st st.
Proof. unfold changed_below. repeat split; try tauto; set_solver. Qed.

Lemma changed_below_same n st st' :
  proved_goals st' = proved_goals st -> failed_goals st' = failed_goals st ->
  changed_below rank n st st'.
Proof.
  intros Hp Hf. unfold changed_below. rewrite Hp, Hf.
  repeat split; try tauto; set_solver.
Qed.

Lemma changed_below_trans n m st1 st2 st3 :
  (n <= m)%nat ->
  changed_below rank m st1 st2 -> changed_below rank n st2 st3 ->
  changed_below rank m st1 st3.
Proof.
  intros Hnm (Hp1 & Hf1 & Hnp1 & Hnf1 & Hd1) (Hp2 & Hf2 & Hnp2 & Hnf2 & Hd2).
  unfold changed_below. split; [set_solver|]. split; [set_solver|].
  split; [|split].
  - intros x Hx3 Hx1. destruct (decide (x ∈ proved_goals st2)) as [Hx2|Hx2].
    + apply Hnp1; assumption.
    + specialize (Hnp2 x Hx3 Hx2). lia.
  - intros x Hx3 Hx1. destruct (decide (x ∈ failed_goals st2)) as [Hx2|Hx2].
    + apply Hnf1; assumption.
    + specialize (Hnf2 x Hx3 Hx2). lia.
  - auto.
Qed.

Lemma ask_user_memo q st :
  proved_goals (_ask_user q st).2 = proved_goals st
  /\ failed_goals (_ask_user q st).2 = failed_goals st.
Proof.
  destruct (_ask_user_cases q st)
    as [[_ ->]|[(Hq & _ & ->)|(Hq & callback & _ & ->)]]; simpl; auto.
Qed.

(** Inside a call for [g] the goal [g] itself is not yet in a memo set. *)
Lemma changed_below_entry g st0 st :
  entry g st0 -> changed_below rank (rank g) st0 st ->
  (g ∉ proved_goals st) /\ (g ∉ failed_goals st).
Proof.
  intros (Hp & Hf & _) (_ & _ & Hnp & Hnf & _). split; intros H.
  - specialize (Hnp g H Hp). lia.
  - specialize (Hnf g H Hf). lia.
Qed.

Lemma prove_goal_changed_below goal depth max_depth st b st' :
  prove_goal rules goal depth max_depth st = Some (b, st') ->
  changed_below rank (S (rank goal)) st st'.
Proof.
  apply (prove_goal_fuel_ind rules max_depth
           (fun g s _ s' => changed_below rank (S (rank g)) s s')
           (fun g s0 s => changed_below rank (rank g) s0 s)).
  - intros g d st0. apply changed_below_same; reflexivity.
  - intros g st0 _. apply changed_below_refl.
  - intros g st0 _ _. apply changed_below_refl.
  - intros g d st0 Hp Hf Hw. unfold changed_below. simpl.
    split; [set_solver|]. split; [set_solver|]. split; [|split].
    + intros x Hx Hx0. assert (x = g) as -> by set_solver. lia.
    + tauto.
    + set_solver.
  - intros g d st0 st1 (Hp & Hf & Hw) _ Hask.
    destruct (ask_user_memo g st0) as [Ep Ef]. rewrite Hask in Ep, Ef.
    simpl in Ep, Ef. unfold changed_below. simpl. rewrite Ep, Ef.
    split; [set_solver|]. split; [set_solver|]. split; [|split].
    + intros x Hx Hx0. assert (x = g) as -> by set_solver. lia.
    + tauto.
    + set_solver.
  - intros g st0 st1 (Hp & Hf & Hw) _ Hask.
    destruct (ask_user_memo g st0) as [Ep Ef]. rewrite Hask in Ep, Ef.
    simpl in Ep, Ef. unfold changed_below. simpl. rewrite Ep, Ef.
    split; [set_solver|]. split; [set_solver|]. split; [|split].
    + tauto.
    + intros x Hx Hx0. assert (x = g) as -> by set_solver. lia.
    + set_solver.
  - intros g st0 _. apply changed_below_refl.
  - intros g st0 st1 rule_id r d _ _ H.
    eapply changed_below_trans; [reflexivity | exact H|].
    apply changed_below_same; reflexivity.
  - intros g st0 st1 rule_id r c b0 st2 Hin Hthen Hc H Hcall.
    apply (changed_below_trans (S (rank c)) (rank g) st0 st1 st2);
      [|exact H | exact Hcall].
    specialize (rank_decreases rule_id r c Hin Hc). rewrite Hthen in rank_decreases.
    lia.
  - intros g st0 st1 rule_id r d Hentry _ _ H.
    destruct (changed_below_entry g st0 st1 Hentry H) as [Hp1 Hf1].
    destruct H as (Hp & Hf & Hnp & Hnf & Hd).
    unfold changed_below. simpl.
    split; [set_solver|]. split; [set_solver|]. split; [|split].
    + intros x Hx Hx0.
      destruct (decide (x = g)) as [->|Hne]; [lia|].
      assert (Hx1 : x ∈ proved_goals st1) by set_solver.
      specialize (Hnp x Hx1 Hx0). lia.
    + intros x Hx Hx0. specialize (Hnf x Hx Hx0). lia.
    + intros Hd0. specialize (Hd Hd0). set_solver.
  - intros g st0 st1 Hentry H.
    destruct (changed_below_entry g st0 st1 Hentry H) as [Hp1 Hf1].
    destruct H as (Hp & Hf & Hnp & Hnf & Hd).
    unfold changed_below. simpl.
    split; [set_solver|]. split; [set_solver|]. split; [|split].
    + intros x Hx Hx0. specialize (Hnp x Hx Hx0). lia.
    + intros x Hx Hx0.
      destruct (decide (x = g)) as [->|Hne]; [lia|].
      assert (Hx1 : x ∈ failed_goals st1) by set_solver.
      specialize (Hnf x Hx1 Hx0). lia.
    + intros Hd0. specialize (Hd Hd0). set_solver.
Qed.

Lemma session_disjoint st :
  session rules st -> proved_goals st ## failed_goals st.
Proof.
  revert st.
  apply (session_inv rules (fun s => proved_goals s ## failed_goals s)).
  - simpl. set_solver.
  - intros callback st0 H. exact H.
  - intros facts st0 H.
    destruct (add_facts_fields facts st0) as (_ & -> & -> & _). exact H.
  - intros st0 _. simpl. set_solver.
  - intros goal depth max_depth st0 b st' H Hrun.
    apply prove_goal_changed_below in Hrun as (_ & _ & _ & _ & Hd). auto.
Qed.

End Ranked.

(** C9 (as amended). Over an acyclic rule base, [proved_goals] and
    [failed_goals] are disjoint in every session, that is after every
    sequence of [set_question_callback], [add_facts], [reset],
    [prove_goal] (at any depth and bound) and [backward_chain] calls on a
    new prover. *)
Theorem proved_failed_disjoint (rules : rule_base) (st : state) :
  acyclic rules -> session rules st ->
  proved_goals st ## failed_goals st.
Proof.
  intros [rank Hrank] Hsession.
  eapply session_disjoint; eauto.
Qed.

End Disjoint.

Module BCExamples.
Import BC BCProps BCSession BCInvariant Confidence Disjoint.

Lemma layered_rules_acyclic : acyclic layered_rules.
Proof.
  exists layered_rank. intros rule_id r c Hin Hc.
  unfold layered_rules in Hin.
  repeat (apply elem_of_cons in Hin; destruct Hin as [Hin|Hin];
          [injection Hin as -> ->; simpl in Hc;
           repeat (apply elem_of_cons in Hc; destruct Hc as [->|Hc];
                   [vm_compute; lia|]);
           apply elem_of_nil in Hc; contradiction|]).
  apply elem_of_nil in Hin. contradiction.
Qed.

Lemma layered_rules_cf_le_1 rule_id r :
  (rule_id, r) ∈ layered_rules -> rule_cf r <= 1.
Proof.
  intros Hin. unfold layered_rules in Hin.
  repeat (apply elem_of_cons in Hin; destruct Hin as [Hin|Hin];
          [injection Hin as -> ->; discriminate|]).
  apply elem_of_nil in Hin. contradiction.
Qed.

Lemma layered_start_session : session layered_rules layered_start.
Proof. repeat constructor. Qed.

Lemma layered_run :
  prove_goal layered_rules "g" 0 10 layered_start = Some (true, layered_final).
Proof. vm_compute. reflexivity. Qed.

Lemma layered_final_session : session layered_rules layered_final.
Proof.
  eapply session_prove_goal; [exact layered_start_session | exact layered_run].
Qed.

(** On [layered_rules] the goal [g] is proved by R1 (0.9) after [m] was
    proved by R2 (0.6): the confidence reported for [g] is that of the
    entry recorded for [g], 0.9. *)
Example layered_confidence :
  _calculate_goal_confidence "g" layered_final == 9 # 10
  /\ _calculate_goal_confidence "m" layered_final == 6 # 10
  /\ _calculate_goal_confidence "a" layered_final == 1.
Proof. repeat split; vm_compute; reflexivity. Qed.

Lemma proved_failed_disjoint_witness :
  proved_goals layered_final ## failed_goals layered_final.
Proof.
  apply (proved_failed_disjoint layered_rules layered_final).
  - exact layered_rules_acyclic.
  - exact layered_final_session.
Defined.

(** C9 (as stated) fails. Over [cyclic_rules], with [a] known,
    [prove_goal g] first follows R1 down to the depth bound, where [g] is
    recorded as failed, and on the way back proves [g] by R2: the call
    returns true and [g] is in both [proved_goals] and [failed_goals]. *)
Lemma proved_and_failed_overlap :
  session cyclic_rules cyclic_start
  /\ prove_goal cyclic_rules "g" 0 10 cyclic_start = Some (true, cyclic_final)
  /\ "g"%string ∈ proved_goals cyclic_final
  /\ "g"%string ∈ failed_goals cyclic_final.
Proof.
  split; [repeat constructor|].
  split; [vm_compute; reflexivity|].
  split; compute_done.
Qed.

End BCExamples.

(** ** More on the certainty factor algebra *)

Module CFExtra.
Import CF CFProps.

(** The value [combine_sequential_cf] returns, by the sign tests. *)
Lemma combine_sequential_cf_cases cf1 cf2 :
  (0 < cf1 /\ 0 < cf2
   /\ combine_sequential_cf cf1 cf2 = Some (cf1 + cf2 * (1 - cf1)))
  \/ (cf1 < 0 /\ cf2 < 0
      /\ combine_sequential_cf cf1 cf2 = Some (cf1 + cf2 * (1 + cf1)))
  \/ ((cf1 <= 0 \/ cf2 <= 0) /\ (0 <= cf1 \/ 0 <= cf2)
      /\ 1 - Qmin (Qabs cf1) (Qabs cf2) == 0
      /\ combine_sequential_cf cf1 cf2 = Some 0)
  \/ ((cf1 <= 0 \/ cf2 <= 0) /\ (0 <= cf1 \/ 0 <= cf2)
      /\ ~ 1 - Qmin (Qabs cf1) (Qabs cf2) == 0
      /\ combine_sequential_cf cf1 cf2
         = Some ((cf1 + cf2) / (1 - Qmin (Qabs cf1) (Qabs cf2)))).
Proof.
  unfold combine_sequential_cf.
  destruct (Qpos_b cf1 && Qpos_b cf2) eqn:Hp.
  { apply andb_true_iff in Hp as [H1 H2].
    apply Qpos_b_true in H1, H2. left. auto. }
  destruct (Qneg_b cf1 && Qneg_b cf2) eqn:Hn.
  { apply andb_true_iff in Hn as [H1 H2].
    apply Qneg_b_true in H1, H2. right. left. auto. }
  assert (Hp' : cf1 <= 0 \/ cf2 <= 0).
  { apply andb_false_iff in Hp as [H|H]; apply Qpos_b_false in H; auto. }
  assert (Hn' : 0 <= cf1 \/ 0 <= cf2).
  { apply andb_false_iff in Hn as [H|H]; apply Qneg_b_false in H; auto. }
  cbv zeta. destruct (Qeq_bool _ 0) eqn:E.
  - apply Qeq_bool_iff in E. right. right. left. auto.
  - assert (E' := E). apply Qeq_bool_neq in E'.
    right. right. right. unfold py_div. rewrite E. auto.
Qed.

(** The minimum of the two magnitudes, by cases. *)
Lemma Qmin_abs_cases cf1 cf2 :
  (Qabs cf1 <= Qabs cf2 /\ Qmin (Qabs cf1) (Qabs cf2) == Qabs cf1)
  \/ (Qabs cf2 <= Qabs cf1 /\ Qmin (Qabs cf1) (Qabs cf2) == Qabs cf2).
Proof.
  destruct (Q.min_spec (Qabs cf1) (Qabs cf2)) as [[H E]|[H E]].
  - left. split; [apply Qlt_le_weak, H | exact E].
  - right. split; [exact H | exact E].
Qed.

Lemma Qabs_cases cf :
  (0 <= cf /\ Qabs cf == cf) \/ (cf <= 0 /\ Qabs cf == - cf).
Proof.
  destruct (Qlt_le_dec cf 0) as [H|H].
  - right. split; [apply Qlt_le_weak, H|].
    apply Qabs_neg, Qlt_le_weak, H.
  - left. split; [exact H | apply Qabs_pos, H].
Qed.

(** Bounds of a quotient by a positive denominator. *)
Lemma Qdiv_bounds x d :
  0 < d -> - d <= x -> x <= d -> -1 <= x / d /\ x / d <= 1.
Proof.
  intros Hd Hlo Hhi. split.
  - apply Qle_shift_div_l; [exact Hd|]. lra.
  - apply Qle_shift_div_r; [exact Hd|]. lra.
Qed.

(** One step of a combination keeps the range [-1,1]. *)
Lemma combine_sequential_cf_bounds (cf1 cf2 : Q) :
  -1 <= cf1 <= 1 -> -1 <= cf2 <= 1 ->
  exists v, combine_sequential_cf cf1 cf2 = Some v /\ -1 <= v <= 1.
Proof.
  intros [L1 U1] [L2 U2].
  destruct (combine_sequential_cf_cases cf1 cf2)
    as [(P1 & P2 & ->)|[(N1 & N2 & ->)|[(_ & _ & _ & ->)|(Hp & Hn & Hd & ->)]]].
  - eexists. split; [reflexivity|]. split; nra.
  - eexists. split; [reflexivity|]. split; nra.
  - exists 0. split; [reflexivity|]. split; lra.
  - eexists. split; [reflexivity|].
    set (m := Qmin (Qabs cf1) (Qabs cf2)) in *.
    assert (Hm : m == Qabs cf1 /\ Qabs cf1 <= Qabs cf2
                 \/ m == Qabs cf2 /\ Qabs cf2 <= Qabs cf1).
    { destruct (Qmin_abs_cases cf1 cf2) as [[H E]|[H E]]; auto. }
    assert (Hbounds : 0 < 1 - m /\ - (1 - m) <= cf1 + cf2 <= 1 - m).
    { destruct (Qabs_cases cf1) as [[S1 A1]|[S1 A1]],
               (Qabs_cases cf2) as [[S2 A2]|[S2 A2]];
        destruct Hm as [[Em Hle]|[Em Hle]];
        rewrite ?A1, ?A2 in Hle;
        rewrite ?A1, ?A2 in Em;
        (assert (Hne : ~ 1 - m == 0) by exact Hd);
        rewrite Em in Hne; rewrite Em;
        (assert (Hlt : 0 < 1 - cf1 \/ 0 < 1 + cf1 \/ 0 < 1 - cf2 \/ 0 < 1 + cf2)
          by (destruct (Qlt_le_dec 0 (1 - cf1)); [auto|];
              destruct (Qlt_le_dec 0 (1 + cf1)); [auto|];
              destruct (Qlt_le_dec 0 (1 - cf2)); [auto|];
              destruct (Qlt_le_dec 0 (1 + cf2)); [auto|]; lra));
        try (split; [|split]; destruct Hp, Hn; lra);
        try (exfalso; apply Hne; destruct Hp, Hn; lra). }
    destruct Hbounds as (Hpos & Hlo & Hhi).
    destruct (Qdiv_bounds (cf1 + cf2) (1 - m) Hpos Hlo Hhi). auto.
Qed.

(** X1. Certainty factors stay certainty factors: on two arguments of
    [-1,1], [combine_sequential_cf] returns a value of [-1,1]. *)
Theorem combine_sequential_cf_range (cf1 cf2 : Q) :
  -1 <= cf1 <= 1 -> -1 <= cf2 <= 1 ->
  exists v, combine_sequential_cf cf1 cf2 = Some v /\ -1 <= v <= 1.
Proof. exact (combine_sequential_cf_bounds cf1 cf2). Qed.

Lemma combine_sequential_cf_range_witness :
  exists v, combine_sequential_cf (6 # 10) (- (3 # 10)) = Some v
            /\ -1 <= v <= 1.
Proof.
  apply (combine_sequential_cf_range (6 # 10) (- (3 # 10)));
    split; discriminate.
Defined.

End CFExtra.

Module CFAlgebra.
Import CF CFProps CFExtra.

Lemma Qeq_bool_ext a b : a == b -> Qeq_bool a 0 = Qeq_bool b 0.
Proof.
  intros H. apply eq_true_iff_eq. rewrite !Qeq_bool_iff, H. reflexivity.
Qed.

(** X2. When the two certainty factors are not of one strict sign (one
    is at most 0 and one is at least 0), the order of the arguments does
    not matter: both calls take the mixed branch, whose sum and whose
    [min] of the magnitudes are symmetric, and return the same value.
    For two factors of one strict sign the two orders evaluate
    different expressions, [cf1 + cf2 * (1 - cf1)] and
    [cf2 + cf1 * (1 - cf2)], which agree as real numbers and so only up
    to rounding. *)
Theorem combine_sequential_cf_comm (cf1 cf2 : Q) :
  cf1 <= 0 \/ cf2 <= 0 -> 0 <= cf1 \/ 0 <= cf2 ->
  exists v w,
    combine_sequential_cf cf1 cf2 = Some v
    /\ combine_sequential_cf cf2 cf1 = Some w
    /\ v == w.
Proof.
  intros Hp Hn. unfold combine_sequential_cf.
  rewrite (andb_comm (Qpos_b cf2)), (andb_comm (Qneg_b cf2)).
  assert (Bp : Qpos_b cf1 && Qpos_b cf2 = false).
  { apply andb_false_iff.
    destruct Hp as [H|H]; [left|right]; apply Qpos_b_false, H. }
  assert (Bn : Qneg_b cf1 && Qneg_b cf2 = false).
  { apply andb_false_iff.
    destruct Hn as [H|H]; [left|right]; apply Qneg_b_false, H. }
  rewrite Bp, Bn. cbv zeta.
  assert (Hm : 1 - Qmin (Qabs cf2) (Qabs cf1) == 1 - Qmin (Qabs cf1) (Qabs cf2))
    by (rewrite Q.min_comm; reflexivity).
  rewrite (Qeq_bool_ext _ _ Hm). unfold py_div.
  rewrite (Qeq_bool_ext _ _ Hm).
  destruct (Qeq_bool (1 - Qmin (Qabs cf1) (Qabs cf2)) 0) eqn:E.
  - exists 0, 0. repeat split; reflexivity.
  - eexists _, _. split; [reflexivity|]. split; [reflexivity|].
    rewrite Hm. unfold Qdiv. apply Qmult_comp; [ring | reflexivity].
Qed.

Lemma combine_sequential_cf_comm_witness :
  exists v w,
    combine_sequential_cf (6 # 10) (- (3 # 10)) = Some v
    /\ combine_sequential_cf (- (3 # 10)) (6 # 10) = Some w
    /\ v == w.
Proof.
  apply (combine_sequential_cf_comm (6 # 10) (- (3 # 10)));
    [right | left]; discriminate.
Defined.

(** X3. Zero is neutral: combining any certainty factor with 0, on
    either side, returns that certainty factor. *)
Theorem combine_sequential_cf_zero (cf : Q) :
  returns (combine_sequential_cf cf 0) cf
  /\ returns (combine_sequential_cf 0 cf) cf.
Proof.
  assert (Hr : Qmin (Qabs cf) (Qabs 0) == 0)
    by (apply Qmin_abs_zero_r; reflexivity).
  assert (Hl : Qmin (Qabs 0) (Qabs cf) == 0)
    by (apply Qmin_abs_zero_l; reflexivity).
  split.
  - rewrite combine_sequential_cf_mixed.
    + unfold returns. rewrite Hr. field.
    + apply andb_false_iff. right. reflexivity.
    + apply andb_false_iff. right. reflexivity.
    + intros E. rewrite Hr in E. discriminate.
  - rewrite combine_sequential_cf_mixed.
    + unfold returns. rewrite Hl. field.
    + apply andb_false_iff. left. reflexivity.
    + apply andb_false_iff. left. reflexivity.
    + intros E. rewrite Hl in E. discriminate.
Qed.

(** Combining two factors of one strict sign, by the first argument. *)
Lemma combine_sequential_cf_same_sign (cf1 cf2 : Q) :
  (0 < cf1 <= 1 -> 0 < cf2 <= 1 ->
   exists v, combine_sequential_cf cf1 cf2 = Some v
             /\ cf1 <= v /\ 0 < v <= 1)
  /\ (-1 <= cf1 < 0 -> -1 <= cf2 < 0 ->
      exists v, combine_sequential_cf cf1 cf2 = Some v
                /\ v <= cf1 /\ -1 <= v < 0).
Proof.
  split.
  - intros [P1 U1] [P2 U2]. unfold combine_sequential_cf.
    apply Qpos_b_true in P1 as B1. apply Qpos_b_true in P2 as B2.
    rewrite B1, B2. simpl. eexists. split; [reflexivity|].
    split; [|split]; nra.
  - intros [L1 N1] [L2 N2]. unfold combine_sequential_cf.
    assert (Hp : Qpos_b cf1 && Qpos_b cf2 = false).
    { apply andb_false_iff. left. apply Qpos_b_false. lra. }
    apply Qneg_b_true in N1 as B1. apply Qneg_b_true in N2 as B2.
    rewrite Hp, B1, B2. simpl. eexists. split; [reflexivity|].
    split; [|split]; nra.
Qed.

(** X4. Evidence of one sign never lowers the certainty reached so
    far: on two positive certainty factors of (0,1] the result lies in
    (0,1] and is at least the first argument, the running value of
    [combine_parallel_cf]; on two negative ones of [-1,0) it lies in
    [-1,0) and is at most the first argument. *)
Theorem combine_sequential_cf_accumulates (cf1 cf2 : Q) :
  (0 < cf1 <= 1 -> 0 < cf2 <= 1 ->
   exists v, combine_sequential_cf cf1 cf2 = Some v
             /\ cf1 <= v /\ 0 < v <= 1)
  /\ (-1 <= cf1 < 0 -> -1 <= cf2 < 0 ->
      exists v, combine_sequential_cf cf1 cf2 = Some v
                /\ v <= cf1 /\ -1 <= v < 0).
Proof. exact (combine_sequential_cf_same_sign cf1 cf2). Qed.

Lemma combine_sequential_cf_accumulates_witness :
  (exists v, combine_sequential_cf (8 # 10) (6 # 10) = Some v
             /\ 8 # 10 <= v /\ 0 < v <= 1)
  /\ (exists v, combine_sequential_cf (- (8 # 10)) (- (6 # 10)) = Some v
                /\ v <= - (8 # 10) /\ -1 <= v < 0).
Proof.
  split.
  - apply (combine_sequential_cf_accumulates (8 # 10) (6 # 10));
      split; first [reflexivity | discriminate].
  - apply (combine_sequential_cf_accumulates (- (8 # 10)) (- (6 # 10)));
      split; first [reflexivity | discriminate].
Defined.

(** *** [combine_parallel_cf] *)

Lemma combine_parallel_loop_range rest :
  Forall (fun cf => -1 <= cf <= 1) rest ->
  forall result, -1 <= result <= 1 ->
  exists v, combine_parallel_loop result rest = Some v /\ -1 <= v <= 1.
Proof.
  induction 1 as [|cf rest Hcf _ IH]; intros result Hr; simpl.
  - eauto.
  - destruct (combine_sequential_cf_bounds result cf Hr Hcf) as (v & -> & Hv).
    apply IH, Hv.
Qed.

(** X5. [combine_parallel_cf] never raises on certainty factors of
    [-1,1] and returns a value of [-1,1]; on the empty list this is 0. *)
Theorem combine_parallel_cf_range (cf_list : list Q) :
  Forall (fun cf => -1 <= cf <= 1) cf_list ->
  exists v, combine_parallel_cf cf_list = Some v
            /\ -1 <= v <= 1
            /\ (cf_list = [] -> v = 0).
Proof.
  intros H. destruct H as [|cf rest Hcf Hrest]; simpl.
  - exists 0. split; [reflexivity|]. split; [split; discriminate | auto].
  - destruct (combine_parallel_loop_range rest Hrest cf Hcf) as (v & -> & Hv).
    exists v. split; [reflexivity|]. split; [exact Hv | discriminate].
Qed.

Lemma combine_parallel_cf_range_witness :
  exists v, combine_parallel_cf [6 # 10; - (7 # 10); 5 # 10] = Some v
            /\ -1 <= v <= 1
            /\ ([6 # 10; - (7 # 10); 5 # 10] = [] -> v = 0).
Proof.
  apply (combine_parallel_cf_range [6 # 10; - (7 # 10); 5 # 10]).
  repeat (constructor; [split; discriminate|]). constructor.
Defined.

End CFAlgebra.

Module CFRounding.
Import PrimFloat.

(** Within one sign the order shows in the last digit on binary64
    numbers: the two orders of -0.4 and -0.7 return different values,
    less than 1e-15 apart. *)
Example combine_sequential_cf_order_rounding :
  exists v w,
    Binary64.combine_sequential_cf (-0.4)%float (-0.7)%float = Some v
    /\ Binary64.combine_sequential_cf (-0.7)%float (-0.4)%float = Some w
    /\ eqb v w = false
    /\ ltb (abs (sub v w)) 1e-15%float = true.
Proof.
  eexists _, _. split; [vm_compute; reflexivity|].
  split; [vm_compute; reflexivity|].
  split; vm_compute; reflexivity.
Qed.

End CFRounding.

Module CFParallel.
Import CF CFProps CFExtra CFAlgebra.

Lemma combine_parallel_loop_positive rest :
  Forall (fun cf => 0 < cf <= 1) rest ->
  forall result, 0 < result <= 1 ->
  exists v, combine_parallel_loop result rest = Some v
            /\ result <= v /\ 0 < v <= 1.
Proof.
  induction 1 as [|cf rest Hcf _ IH]; intros result Hr; simpl.
  - exists result. split; [reflexivity|]. split; [lra | exact Hr].
  - destruct (proj1 (combine_sequential_cf_same_sign result cf) Hr Hcf)
      as (u & -> & Hu & Ru).
    destruct (IH u Ru) as (v & Hv & Huv & Rv).
    exists v. split; [exact Hv|]. split; [lra | exact Rv].
Qed.

Lemma combine_parallel_loop_app rest cf :
  forall result,
    combine_parallel_loop result (rest ++ [cf])
    = match combine_parallel_loop result rest with
      | Some v => combine_sequential_cf v cf
      | None => None
      end.
Proof.
  induction rest as [|x rest IH]; intros result; simpl.
  - destruct (combine_sequential_cf result cf); reflexivity.
  - destruct (combine_sequential_cf result x) as [u|]; [apply IH | reflexivity].
Qed.

(** X6. Supporting evidence only adds up: on certainty factors of (0,1],
    [combine_parallel_cf] returns a value of (0,1] that is at least the
    first factor, and a further factor of (0,1] appended to the list
    never lowers the result (from the 0 of the empty list on). *)
Theorem combine_parallel_cf_positive (cf_list : list Q) (cf : Q) :
  Forall (fun cf => 0 < cf <= 1) cf_list ->
  0 < cf <= 1 ->
  exists v w,
    combine_parallel_cf cf_list = Some v
    /\ combine_parallel_cf (cf_list ++ [cf]) = Some w
    /\ v <= w
    /\ 0 < w <= 1
    /\ (forall first rest, cf_list = first :: rest -> first <= v /\ 0 < v).
Proof.
  intros Hall Hcf. destruct Hall as [|first rest Hfirst Hrest].
  - exists 0, cf. simpl. split; [reflexivity|]. split; [reflexivity|].
    split; [lra|]. split; [exact Hcf | discriminate].
  - destruct (combine_parallel_loop_positive rest Hrest first Hfirst)
      as (v & Hv & Hfv & Rv).
    destruct (proj1 (combine_sequential_cf_same_sign v cf) Rv Hcf)
      as (w & Hw & Hvw & Rw).
    exists v, w. cbn [combine_parallel_cf app].
    rewrite combine_parallel_loop_app, Hv.
    split; [reflexivity|]. split; [exact Hw|]. split; [exact Hvw|].
    split; [exact Rw|].
    intros first' rest' E. injection E as <- <-. split; [exact Hfv | lra].
Qed.

Lemma combine_parallel_cf_positive_witness :
  exists v w,
    combine_parallel_cf [7 # 10; 72 # 100] = Some v
    /\ combine_parallel_cf ([7 # 10; 72 # 100] ++ [9 # 10]) = Some w
    /\ v <= w
    /\ 0 < w <= 1
    /\ (forall first rest,
          [7 # 10; 72 # 100] = first :: rest -> first <= v /\ 0 < v).
Proof.
  apply (combine_parallel_cf_positive [7 # 10; 72 # 100] (9 # 10)).
  - repeat (constructor; [split; [reflexivity | discriminate]|]).
    constructor.
  - split; [reflexivity | discriminate].
Defined.

Lemma combine_parallel_loop_total rest :
  forall result, exists v, combine_parallel_loop result rest = Some v.
Proof.
  induction rest as [|cf rest IH]; intros result; simpl; [eauto|].
  destruct (combine_sequential_cf_total result cf) as [v ->]. apply IH.
Qed.

Lemma combine_parallel_cf_total cf_list :
  exists v, combine_parallel_cf cf_list = Some v.
Proof.
  destruct cf_list as [|cf rest]; simpl; [eauto|].
  apply combine_parallel_loop_total.
Qed.

(** X7. [calculate_hypothesis_cf] raises [ValueError] exactly when the
    two lists differ in length; otherwise it returns the parallel
    combination of the products rule CF times user CF, and it never
    raises a division error. *)
Theorem calculate_hypothesis_cf_outcome (rule_cfs user_cfs : list Q) :
  (length rule_cfs <> length user_cfs <->
   CFMore.calculate_hypothesis_cf rule_cfs user_cfs = inl ValueError)
  /\ (length rule_cfs = length user_cfs ->
      exists v,
        CFMore.calculate_hypothesis_cf rule_cfs user_cfs = inr v
        /\ combine_parallel_cf
             (List.map (fun p => p.1 * p.2) (List.combine rule_cfs user_cfs))
           = Some v)
  /\ CFMore.calculate_hypothesis_cf rule_cfs user_cfs
     <> inl ZeroDivisionError.
Proof.
  unfold CFMore.calculate_hypothesis_cf.
  destruct (length rule_cfs =? length user_cfs)%nat eqn:E; simpl.
  - apply Nat.eqb_eq in E.
    destruct (combine_parallel_cf_total
                (List.map (fun p => cf_with_user_certainty p.1 p.2)
                   (List.combine rule_cfs user_cfs))) as [v Hv].
    rewrite Hv. split; [|split].
    + split; [intros H; contradiction | discriminate].
    + intros _. exists v. split; [reflexivity | exact Hv].
    + discriminate.
  - apply Nat.eqb_neq in E. split; [|split].
    + split; [reflexivity | auto].
    + intros H. contradiction.
    + discriminate.
Qed.

(** X8. [get_confidence_percentage] maps [-1,1] into [0,100] with -1 at
    0, 0 at 50 and 1 at 100, and keeps the order: a larger certainty
    factor never gets a smaller percentage. *)
Theorem get_confidence_percentage_scale :
  (forall cf, -1 <= cf <= 1 -> 0 <= get_confidence_percentage cf <= 100)
  /\ (forall cf1 cf2,
        cf1 <= cf2 ->
        get_confidence_percentage cf1 <= get_confidence_percentage cf2)
  /\ get_confidence_percentage (-1) == 0
  /\ get_confidence_percentage 0 == 50
  /\ get_confidence_percentage 1 == 100.
Proof.
  unfold get_confidence_percentage.
  assert (E : forall cf, (cf + 1) / 2 * 100 == (cf + 1) * 50)
    by (intros; field).
  split; [|split; [|repeat split]].
  - intros cf [L U]. rewrite E. split; lra.
  - intros cf1 cf2 H. rewrite !E. lra.
Qed.

(** X9. [normalize_user_input] raises the division error exactly when
    the scale is 0, and maps a value between 0 and a positive scale to a
    number of [0,1]. *)
Theorem normalize_user_input_outcome (value scale : Z) :
  (scale = 0%Z <-> CFMore.normalize_user_input value scale = None)
  /\ ((0 <= value <= scale)%Z -> (0 < scale)%Z ->
      exists v, CFMore.normalize_user_input value scale = Some v
                /\ 0 <= v <= 1).
Proof.
  unfold CFMore.normalize_user_input, py_div.
  destruct (Qeq_bool (inject_Z scale) 0) eqn:E.
  - apply Qeq_bool_iff in E. unfold Qeq in E. simpl in E.
    assert (scale = 0%Z) by lia. subst scale.
    split; [split; reflexivity | intros _ H; lia].
  - apply Qeq_bool_neq in E.
    assert (Hs : scale <> 0%Z) by (intros ->; apply E; reflexivity).
    split; [split; [contradiction | discriminate]|].
    intros [Hv Hle] Hpos. eexists. split; [reflexivity|].
    assert (Hq : 0 < inject_Z scale)
      by (unfold Qlt; simpl; lia).
    split.
    + apply Qle_shift_div_l; [exact Hq|]. unfold Qle. simpl. lia.
    + apply Qle_shift_div_r; [exact Hq|]. unfold Qle. simpl. lia.
Qed.

End CFParallel.

(** ** More on forward chaining *)

Module FCSession.
Import FC FCProps FCClaims FCMore.

(** [forward_chain] is the iteration of [run_pass]. *)
Lemma forward_chain_passes rules max_iterations st n st' :
  forward_chain rules max_iterations st = Some (n, st') ->
  exists j : nat, n = Z.of_nat j /\ st' = passes rules j st
                  /\ (Z.of_nat j <= Z.max 0 max_iterations)%Z.
Proof.
  unfold forward_chain. intros H.
  destruct (while_loop_spec rules max_iterations (Z.to_nat max_iterations)
              true 0%Z st) as (j & Hj & Hb & _); [lia|].
  rewrite Hj in H. injection H as <- <-. exists j.
  split; [lia|]. split; [reflexivity|lia].
Qed.

Section SessionInvariant.

Variable rules : rule_base.
Variable Inv : state -> Prop.
Hypothesis Inv_init : Inv init.
Hypothesis Inv_add_facts : forall facts st, Inv st -> Inv (add_facts facts st).
Hypothesis Inv_fired :
  forall rule_id r st,
    (rule_id, r) ∈ rules -> Inv st ->
    rule_id ∉ fired_rules st -> can_fire_rule r st = true ->
    Inv (fired rule_id r st).

Lemma fc_session_inv st : session rules st -> Inv st.
Proof.
  induction 1 as [|facts st _ IH|st _ IH|m st n st' _ IH Hrun].
  - exact Inv_init.
  - apply Inv_add_facts, IH.
  - exact Inv_init.
  - apply forward_chain_passes in Hrun as (j & _ & -> & _).
    apply passes_inv; assumption.
Qed.

End SessionInvariant.

(** The rule identifiers of the [rule_fired] entries of a trace. *)
Lemma add_facts_fired_rules facts st :
  fired_rules (add_facts facts st) = fired_rules st.
Proof.
  revert st. induction facts as [|f facts IH]; intros st; simpl;
    [reflexivity | rewrite IH; reflexivity].
Qed.

Lemma add_facts_diagnosis_scores facts st :
  diagnosis_scores (add_facts facts st) = diagnosis_scores st.
Proof.
  revert st. induction facts as [|f facts IH]; intros st; simpl;
    [reflexivity | rewrite IH; reflexivity].
Qed.

Lemma add_facts_trace facts st :
  reasoning_trace (add_facts facts st)
  = reasoning_trace st ++ List.map fact_added facts.
Proof.
  revert st. induction facts as [|f facts IH]; intros st; simpl.
  - rewrite app_nil_r. reflexivity.
  - rewrite IH. simpl. rewrite <- app_assoc. reflexivity.
Qed.

(** X10. In every session each rule fires at most once: [fired_rules]
    holds no identifier twice, holds identifiers of the rule base only,
    and is therefore never longer than the rule base. *)
Theorem fired_rules_once (rules : rule_base) (st : state) :
  session rules st ->
  NoDup (fired_rules st)
  /\ fired_rules st ⊆ rules.*1
  /\ (length (fired_rules st) <= length rules)%nat.
Proof.
  intros Hsession.
  assert (H : NoDup (fired_rules st) /\ fired_rules st ⊆ rules.*1).
  { revert st Hsession.
    apply (fc_session_inv rules
             (fun s => NoDup (fired_rules s) /\ fired_rules s ⊆ rules.*1)).
    - split; [apply NoDup_nil_2 | set_solver].
    - intros facts st H. rewrite add_facts_fired_rules. exact H.
    - intros rule_id r st Hin [Hnd Hsub] Hfresh _. simpl. split.
      + apply NoDup_app. split; [exact Hnd|]. split; [|apply NoDup_singleton].
        intros x Hx Hx'. apply list_elem_of_singleton in Hx'. subst x. auto.
      + intros x Hx. apply elem_of_app in Hx as [Hx|Hx]; [auto|].
        apply list_elem_of_singleton in Hx. subst x.
        apply list_elem_of_fmap. exists (rule_id, r). auto. }
  destruct H as [Hnd Hsub]. split; [exact Hnd|]. split; [exact Hsub|].
  rewrite <- (length_fmap fst rules).
  apply submseteq_length, NoDup_submseteq; assumption.
Qed.

Lemma fired_rules_once_witness :
  NoDup (fired_rules (passes scenario_A_rules 2
                        (add_facts scenario_A_facts init)))
  /\ fired_rules (passes scenario_A_rules 2 (add_facts scenario_A_facts init))
     ⊆ scenario_A_rules.*1
  /\ (length (fired_rules (passes scenario_A_rules 2
                             (add_facts scenario_A_facts init)))
      <= length scenario_A_rules)%nat.
Proof.
  apply (fired_rules_once scenario_A_rules).
  apply (session_forward_chain scenario_A_rules 50
           (add_facts scenario_A_facts init) 2).
  - apply session_add_facts, session_init.
  - vm_compute. reflexivity.
Defined.

(** X11. A run only adds: [forward_chain] keeps every inferred fact,
    keeps [fired_rules] and the trace as prefixes of the new ones, and
    keeps every key of [diagnosis_scores]. *)
Theorem forward_chain_monotone
  (rules : rule_base) (max_iterations : Z) (st : state) :
  exists n st',
    forward_chain rules max_iterations st = Some (n, st')
    /\ inferred_facts st ⊆ inferred_facts st'
    /\ fired_rules st `prefix_of` fired_rules st'
    /\ reasoning_trace st `prefix_of` reasoning_trace st'
    /\ dom (diagnosis_scores st) ⊆ dom (diagnosis_scores st').
Proof.
  apply (forward_chain_inv rules
           (fun s => inferred_facts st ⊆ inferred_facts s
                     /\ fired_rules st `prefix_of` fired_rules s
                     /\ reasoning_trace st `prefix_of` reasoning_trace s
                     /\ dom (diagnosis_scores st) ⊆ dom (diagnosis_scores s))).
  - intros rule_id r s _ (Hi & Hf & Ht & Hd) _ _. simpl.
    split; [set_solver|].
    split; [etrans; [exact Hf | apply prefix_app_r; reflexivity]|].
    split; [etrans; [exact Ht | apply prefix_app_r; reflexivity]|].
    rewrite dom_insert. set_solver.
  - repeat split; reflexivity.
Qed.

(** What justifies an inferred fact: a fired rule of the base concluding
    it, with every antecedent known or inferred. *)
Lemma inferred_facts_justified (rules : rule_base) (st : state) :
  session rules st ->
  forall fact,
    fact ∈ inferred_facts st ->
    exists rule_id r,
      (rule_id, r) ∈ rules /\ rule_id ∈ fired_rules st /\ THEN r = fact
      /\ forall c, c ∈ IF r -> c ∈ working_memory st ∪ inferred_facts st.
Proof.
  revert st.
  apply (fc_session_inv rules
           (fun s => forall fact,
                fact ∈ inferred_facts s ->
                exists rule_id r,
                  (rule_id, r) ∈ rules /\ rule_id ∈ fired_rules s
                  /\ THEN r = fact
                  /\ forall c, c ∈ IF r ->
                               c ∈ working_memory s ∪ inferred_facts s)).
  - intros fact H. set_solver.
  - intros facts st H fact Hfact.
    rewrite add_facts_inferred_facts in Hfact.
    destruct (H fact Hfact) as (i & r & Hin & Hf & Hthen & Hc).
    exists i, r. rewrite add_facts_fired_rules, add_facts_working_memory,
                   add_facts_inferred_facts.
    repeat (split; [assumption|]). intros c Hc'. specialize (Hc c Hc').
    set_solver.
  - intros rule_id r st Hin H _ Hcan fact Hfact. simpl in *.
    apply elem_of_union in Hfact as [Hfact|Hfact].
    + destruct (H fact Hfact) as (i & r' & Hin' & Hf & Hthen & Hc).
      exists i, r'. repeat (split; [set_solver|]).
      intros c Hc'. specialize (Hc c Hc'). set_solver.
    + apply elem_of_singleton in Hfact. subst fact.
      exists rule_id, r. repeat (split; [set_solver|]).
      intros c Hc'. apply can_fire_rule_spec with (c := c) in Hcan; set_solver.
Qed.

(** X12. Forward chaining is sound: in every session each inferred fact
    is the consequent of a rule of the base that has fired and whose
    antecedents are all known or inferred. *)
Theorem forward_chain_sound (rules : rule_base) (st : state) (fact : string) :
  session rules st ->
  fact ∈ inferred_facts st ->
  exists rule_id r,
    (rule_id, r) ∈ rules /\ rule_id ∈ fired_rules st /\ THEN r = fact
    /\ forall c, c ∈ IF r -> c ∈ working_memory st ∪ inferred_facts st.
Proof.
  intros Hsession. apply inferred_facts_justified, Hsession.
Qed.

Lemma forward_chain_sound_witness :
  exists rule_id r,
    (rule_id, r) ∈ scenario_A_rules
    /\ rule_id ∈ fired_rules (passes scenario_A_rules 2
                                (add_facts scenario_A_facts init))
    /\ THEN r = kerusakan_touchscreen_digitizer
    /\ forall c,
        c ∈ IF r ->
        c ∈ working_memory (passes scenario_A_rules 2
                              (add_facts scenario_A_facts init))
            ∪ inferred_facts (passes scenario_A_rules 2
                                (add_facts scenario_A_facts init)).
Proof.
  apply (forward_chain_sound scenario_A_rules).
  - apply (session_forward_chain scenario_A_rules 50
             (add_facts scenario_A_facts init) 2).
    + apply session_add_facts, session_init.
    + vm_compute. reflexivity.
  - compute_done.
Defined.

End FCSession.

Module FCFixpoint.
Import FC FCProps FCClaims FCMore FCSession.

(** Once raised, the flag stays raised to the end of the pass. *)
Lemma pass_loop_flag_sticky sub st : (pass_loop sub (st, true)).2 = true.
Proof.
  revert st. induction sub as [|[rule_id r] sub IH]; intros st;
    [reflexivity|].
  cbn [pass_loop].
  destruct (pass_step_cases rule_id r st true) as [[-> _]|(_ & _ & ->)].
  - apply IH.
  - destruct (truthy (THEN r)); apply IH.
Qed.

(** A pass over rules with non-empty consequents that leaves the flag
    down has fired nothing: the session is as before, and every rule
    visited had fired already or has an antecedent that is not a fact. *)
Lemma pass_loop_idle sub st st' :
  (forall rule_id r, (rule_id, r) ∈ sub -> THEN r <> EmptyString) ->
  pass_loop sub (st, false) = (st', false) ->
  st' = st
  /\ forall rule_id r,
      (rule_id, r) ∈ sub ->
      (rule_id ∈ fired_rules st) \/ can_fire_rule r st = false.
Proof.
  revert st. induction sub as [|[rule_id r] sub IH]; intros st Hthen Hrun.
  - simpl in Hrun. injection Hrun as <-. split; [reflexivity|].
    intros i x Hin. apply elem_of_nil in Hin. contradiction.
  - cbn [pass_loop] in Hrun.
    destruct (pass_step_cases rule_id r st false)
      as [[E Hskip]|(_ & _ & E)]; rewrite E in Hrun.
    + destruct (IH st) as [-> Hrest]; [|exact Hrun|].
      { intros i x Hin. apply (Hthen i x). right. exact Hin. }
      split; [reflexivity|]. intros i x Hin.
      apply elem_of_cons in Hin as [Hin|Hin]; [|apply Hrest, Hin].
      injection Hin as -> ->. exact Hskip.
    + assert (Ht : truthy (THEN r) = true).
      { specialize (Hthen rule_id r ltac:(left)).
        destruct (THEN r); [contradiction | reflexivity]. }
      rewrite Ht in Hrun.
      pose proof (pass_loop_flag_sticky sub (fired rule_id r st)) as Hs.
      rewrite Hrun in Hs. discriminate.
Qed.

(** How the loop ends below the bound: with the flag down, either at
    once or after a pass that left it down. *)
Lemma while_loop_exit rules max_iterations :
  forall fuel flag iteration st n st',
    while_loop fuel rules max_iterations flag iteration st = Some (n, st') ->
    (n < max_iterations)%Z ->
    (flag = false /\ st' = st)
    \/ exists st0, run_pass rules st0 = (st', false).
Proof.
  induction fuel as [|fuel IH]; intros flag iteration st n st' Hrun Hlt;
    simpl in Hrun.
  - destruct (flag && (iteration <? max_iterations)%Z) eqn:G;
      [discriminate|].
    injection Hrun as <- <-. left. split; [|reflexivity].
    destruct flag; [simpl in G; lia | reflexivity].
  - destruct (flag && (iteration <? max_iterations)%Z) eqn:G.
    + destruct (run_pass rules st) as [st1 flag1] eqn:Hpass.
      destruct (IH _ _ _ _ _ Hrun Hlt) as [[-> ->]|Hex].
      * right. exists st. exact Hpass.
      * right. exact Hex.
    + injection Hrun as <- <-. left. split; [|reflexivity].
      destruct flag; [simpl in G; lia | reflexivity].
Qed.

(** A run that stopped below the bound, over rules with non-empty
    consequents, left a session on which a pass does nothing. *)
Lemma forward_chain_fixpoint rules max_iterations st n st' :
  (forall rule_id r, (rule_id, r) ∈ rules -> THEN r <> EmptyString) ->
  forward_chain rules max_iterations st = Some (n, st') ->
  (n < max_iterations)%Z ->
  run_pass rules st' = (st', false)
  /\ forall rule_id r,
      (rule_id, r) ∈ rules ->
      (rule_id ∈ fired_rules st') \/ can_fire_rule r st' = false.
Proof.
  intros Hthen Hrun Hlt. unfold forward_chain in Hrun.
  destruct (while_loop_exit _ _ _ _ _ _ _ _ Hrun Hlt) as [[H _]|[st0 Hpass]];
    [discriminate|].
  destruct (pass_loop_idle rules st0 st' Hthen Hpass) as [-> Hrules].
  split; assumption.
Qed.

(** In a session a fired identifier stands for a rule whose consequent
    is inferred. *)
Lemma fired_rules_inferred (rules : rule_base) (st : state) :
  unique_ids rules -> session rules st ->
  forall rule_id r,
    (rule_id, r) ∈ rules -> rule_id ∈ fired_rules st ->
    THEN r ∈ inferred_facts st.
Proof.
  intros Huniq. revert st.
  apply (fc_session_inv rules
           (fun s => forall rule_id r,
                (rule_id, r) ∈ rules -> rule_id ∈ fired_rules s ->
                THEN r ∈ inferred_facts s)).
  - intros i r _ H. apply elem_of_nil in H. contradiction.
  - intros facts st H i r Hin Hf.
    rewrite add_facts_fired_rules in Hf. rewrite add_facts_inferred_facts.
    eauto.
  - intros rule_id r st Hin H _ _ i x Hx Hf. simpl in *.
    apply elem_of_app in Hf as [Hf|Hf].
    + specialize (H i x Hx Hf). set_solver.
    + apply list_elem_of_singleton in Hf. subst i.
      assert (x = r) as ->
          by (eapply ScenarioA.unique_ids_same_rule; eassumption).
      set_solver.
Qed.

(** X13. Forward chaining is complete at its fixpoint: when a run over
    a rule base with unique identifiers and non-empty consequents stops
    below the bound, every rule whose antecedents are all known or
    inferred has fired and its consequent is inferred. *)
Theorem forward_chain_closed
  (rules : rule_base) (max_iterations : Z) (st : state)
  (n : Z) (st' : state) :
  unique_ids rules ->
  (forall rule_id r, (rule_id, r) ∈ rules -> THEN r <> EmptyString) ->
  session rules st ->
  forward_chain rules max_iterations st = Some (n, st') ->
  (n < max_iterations)%Z ->
  forall rule_id r,
    (rule_id, r) ∈ rules ->
    (forall c, c ∈ IF r -> c ∈ working_memory st' ∪ inferred_facts st') ->
    rule_id ∈ fired_rules st' /\ THEN r ∈ inferred_facts st'.
Proof.
  intros Huniq Hthen Hsession Hrun Hlt rule_id r Hin Hall.
  destruct (forward_chain_fixpoint rules max_iterations st n st'
              Hthen Hrun Hlt) as [_ Hrules].
  assert (Hf : rule_id ∈ fired_rules st').
  { destruct (Hrules rule_id r Hin) as [Hf|Hc]; [exact Hf|].
    apply can_fire_rule_spec in Hall. congruence. }
  split; [exact Hf|].
  apply (fired_rules_inferred rules st' Huniq) with rule_id;
    [|exact Hin|exact Hf].
  eapply session_forward_chain; eauto.
Qed.

Lemma late_rule_rules_unique : unique_ids late_rule_rules.
Proof.
  unfold unique_ids, late_rule_rules. simpl.
  repeat (apply NoDup_cons; split; [compute_done|]). apply NoDup_nil_2.
Qed.

Lemma late_rule_rules_then rule_id r :
  (rule_id, r) ∈ late_rule_rules -> THEN r <> EmptyString.
Proof.
  intros Hin. unfold late_rule_rules in Hin.
  repeat (apply elem_of_cons in Hin as [Hin|Hin];
          [injection Hin as -> ->; discriminate|]).
  apply elem_of_nil in Hin. contradiction.
Qed.

Lemma late_rule_run :
  forward_chain late_rule_rules 50 (add_facts ["a"%string] init)
  = Some (3%Z, passes late_rule_rules 3 (add_facts ["a"%string] init)).
Proof. vm_compute. reflexivity. Qed.

Lemma forward_chain_closed_witness :
  "R0"%string ∈ fired_rules (passes late_rule_rules 3
                               (add_facts ["a"%string] init))
  /\ THEN {| IF := ["c"%string]; THEN := "d"; CF := Some (5 # 10) |}
     ∈ inferred_facts (passes late_rule_rules 3
                         (add_facts ["a"%string] init)).
Proof.
  apply (forward_chain_closed late_rule_rules 50
           (add_facts ["a"%string] init) 3
           (passes late_rule_rules 3 (add_facts ["a"%string] init))
           late_rule_rules_unique late_rule_rules_then).
  - apply session_add_facts, session_init.
  - exact late_rule_run.
  - lia.
  - unfold late_rule_rules. left.
  - intros c Hc. simpl in Hc. apply list_elem_of_singleton in Hc. subst c.
    compute_done.
Defined.

(** X14. A second run finds nothing to do: after a run that stopped
    below the bound, over rules with non-empty consequents, every further
    [forward_chain] (with a bound of at least 1) returns after one pass
    and leaves the session as it is. *)
Theorem forward_chain_idempotent
  (rules : rule_base) (max_iterations max_iterations' : Z) (st : state)
  (n : Z) (st' : state) :
  (forall rule_id r, (rule_id, r) ∈ rules -> THEN r <> EmptyString) ->
  forward_chain rules max_iterations st = Some (n, st') ->
  (n < max_iterations)%Z ->
  (1 <= max_iterations')%Z ->
  forward_chain rules max_iterations' st' = Some (1%Z, st').
Proof.
  intros Hthen Hrun Hlt Hmax.
  destruct (forward_chain_fixpoint rules max_iterations st n st'
              Hthen Hrun Hlt) as [Hpass _].
  unfold forward_chain.
  destruct (Z.to_nat max_iterations') as [|fuel] eqn:E; [lia|].
  simpl. assert (G : (0 <? max_iterations')%Z = true) by lia.
  rewrite G, Hpass. destruct fuel; reflexivity.
Qed.

Lemma forward_chain_idempotent_witness :
  forward_chain late_rule_rules 50
    (passes late_rule_rules 3 (add_facts ["a"%string] init))
  = Some (1%Z, passes late_rule_rules 3 (add_facts ["a"%string] init)).
Proof.
  apply (forward_chain_idempotent late_rule_rules 50 50
           (add_facts ["a"%string] init) 3).
  - exact late_rule_rules_then.
  - exact late_rule_run.
  - lia.
  - lia.
Defined.

(** X15. Without facts nothing is diagnosed: on a session with no known
    and no inferred fact, over rules that each have an antecedent,
    [forward_chain] makes one idle pass (none if the bound is below 1)
    and leaves the session as it is. *)
Theorem forward_chain_no_facts
  (rules : rule_base) (max_iterations : Z) (st : state) :
  (forall rule_id r, (rule_id, r) ∈ rules -> IF r <> []) ->
  working_memory st = ∅ -> inferred_facts st = ∅ ->
  forward_chain rules max_iterations st
  = Some (if (0 <? max_iterations)%Z then 1%Z else 0%Z, st).
Proof.
  intros Hif Hwm Hinf.
  assert (Hidle : forall sub b, sub ⊆ rules -> pass_loop sub (st, b) = (st, b)).
  { induction sub as [|[rule_id r] sub IH]; intros b Hsub; [reflexivity|].
    cbn [pass_loop].
    destruct (pass_step_cases rule_id r st b) as [[-> _]|(_ & Hcan & _)].
    - apply IH. intros x Hx. apply Hsub. right. exact Hx.
    - exfalso. specialize (Hif rule_id r (Hsub _ ltac:(left))).
      destruct (IF r) as [|c cs] eqn:E; [contradiction|].
      assert (Hc : c ∈ working_memory st ∪ inferred_facts st).
      { apply (proj1 (can_fire_rule_spec r st) Hcan). rewrite E. left. }
      rewrite Hwm, Hinf in Hc. set_solver. }
  unfold forward_chain.
  destruct (0 <? max_iterations)%Z eqn:G.
  - destruct (Z.to_nat max_iterations) as [|fuel] eqn:E; [lia|].
    simpl. rewrite G. unfold run_pass. rewrite Hidle by reflexivity.
    destruct fuel; reflexivity.
  - destruct (Z.to_nat max_iterations); simpl; rewrite G; reflexivity.
Qed.

Lemma forward_chain_no_facts_witness :
  forward_chain late_rule_rules 50 init
  = Some (if (0 <? 50)%Z then 1%Z else 0%Z, init).
Proof.
  apply (forward_chain_no_facts late_rule_rules 50 init).
  - intros rule_id r Hin. unfold late_rule_rules in Hin.
    repeat (apply elem_of_cons in Hin as [Hin|Hin];
            [injection Hin as -> ->; discriminate|]).
    apply elem_of_nil in Hin. contradiction.
  - reflexivity.
  - reflexivity.
Defined.

End FCFixpoint.

Module FCExplain.
Import FC FCProps FCClaims FCMore FCSession.

(** *** Scores and their explanation *)

Lemma contributing_app d t1 t2 acc tot :
  contributing d (t1 ++ t2) acc tot
  = contributing d t2 (contributing d t1 acc tot).1
      (contributing d t1 acc tot).2.
Proof.
  revert acc tot. induction t1 as [|e t1 IH]; intros acc tot; simpl.
  - reflexivity.
  - destruct e; [apply IH|]. case_bool_decide; apply IH.
Qed.

Lemma contributing_facts d facts acc tot :
  contributing d (List.map fact_added facts) acc tot = (acc, tot).
Proof.
  induction facts as [|f facts IH]; simpl; [reflexivity | exact IH].
Qed.

(** The entries of [contributing_rules] are the steps of
    [explain_reasoning]. *)
Lemma contributing_explain d trace acc tot :
  (contributing d trace acc tot).1
  = acc ++ List.map (fun s => (step_rule_id s, step_cf s, step_conditions s))
             (explain_trace d trace).
Proof.
  revert acc tot. induction trace as [|e trace IH]; intros acc tot; simpl.
  - rewrite app_nil_r. reflexivity.
  - destruct e; [apply IH|]. case_bool_decide.
    + rewrite IH. simpl. rewrite <- app_assoc. reflexivity.
    + apply IH.
Qed.

Lemma explain_trace_app d t1 t2 :
  explain_trace d (t1 ++ t2) = explain_trace d t1 ++ explain_trace d t2.
Proof.
  induction t1 as [|e t1 IH]; simpl; [reflexivity|].
  destruct e; [exact IH|]. case_bool_decide; simpl; rewrite IH; reflexivity.
Qed.

(** In a session the score of a diagnosis is the sum
    [get_confidence_explanation] recomputes from the trace, and a
    diagnosis has a score exactly when it is inferred. *)
Lemma session_scores (rules : rule_base) (st : state) :
  session rules st ->
  forall d,
    (contributing d (reasoning_trace st) [] 0).2
    = score (diagnosis_scores st) d
    /\ (explain_trace d (reasoning_trace st) = []
        <-> diagnosis_scores st !! d = None)
    /\ (diagnosis_scores st !! d = None <-> d ∉ inferred_facts st).
Proof.
  revert st.
  apply (fc_session_inv rules
           (fun s => forall d,
                (contributing d (reasoning_trace s) [] 0).2
                = score (diagnosis_scores s) d
                /\ (explain_trace d (reasoning_trace s) = []
                    <-> diagnosis_scores s !! d = None)
                /\ (diagnosis_scores s !! d = None <-> d ∉ inferred_facts s))).
  - intros d. simpl. split; [reflexivity|]. split.
    + split; [intros _; apply lookup_empty | reflexivity].
    + split; [set_solver | intros _; apply lookup_empty].
  - intros facts st H d. destruct (H d) as (Hs & He & Hi).
    rewrite add_facts_trace, add_facts_diagnosis_scores,
      add_facts_inferred_facts, contributing_app, contributing_facts.
    split; [exact Hs|]. split; [|exact Hi].
    rewrite <- He. clear.
    induction (reasoning_trace st) as [|e t IH]; simpl.
    + induction facts; simpl; tauto.
    + destruct e; [exact IH|]. case_bool_decide; [|exact IH].
      split; discriminate.
  - intros rule_id r st _ H _ _ d. destruct (H d) as (Hs & He & Hi).
    simpl. rewrite contributing_app. simpl.
    destruct (contributing d (reasoning_trace st) [] 0) as [acc tot] eqn:Hc.
    simpl in Hs. simpl.
    rewrite explain_trace_app. simpl. case_bool_decide as E.
    + subst d. simpl. unfold score in *. rewrite lookup_insert_eq. simpl.
      split; [rewrite Hs; reflexivity|]. split.
      * split; [|discriminate]. intros Happ.
        apply app_eq_nil in Happ as [_ Happ]. discriminate.
      * split; [discriminate|]. intros Hn. exfalso. apply Hn. set_solver.
    + simpl. unfold score in *. rewrite lookup_insert_ne by exact E.
      rewrite app_nil_r. split; [exact Hs|]. split; [exact He|].
      rewrite Hi. set_solver.
Qed.

(** X16. The explanation of a confidence agrees with the score: in every
    session the [total_confidence] of [get_confidence_explanation] is the
    diagnosis score capped at 1, its [contributing_rules] are the steps
    of [explain_reasoning], and they are empty exactly when the diagnosis
    was not inferred. *)
Theorem confidence_explanation_agrees
  (rules : rule_base) (st : state) (d : string) :
  session rules st ->
  total_confidence (get_confidence_explanation d st)
  = Qmin (score (diagnosis_scores st) d) 1
  /\ contributing_rules (get_confidence_explanation d st)
     = List.map (fun s => (step_rule_id s, step_cf s, step_conditions s))
         (explain_reasoning d st)
  /\ (explain_reasoning d st = [] <-> d ∉ inferred_facts st).
Proof.
  intros Hsession.
  destruct (session_scores rules st Hsession d) as (Hs & He & Hi).
  unfold get_confidence_explanation, explain_reasoning.
  pose proof (contributing_explain d (reasoning_trace st) [] 0) as Hl.
  destruct (contributing d (reasoning_trace st) [] 0) as [acc tot].
  simpl in *. subst tot. split; [reflexivity|]. split; [exact Hl|].
  rewrite He. exact Hi.
Qed.

Lemma confidence_explanation_agrees_witness :
  total_confidence
    (get_confidence_explanation "d"
       (passes late_rule_rules 3 (add_facts ["a"%string] init)))
  = Qmin (score (diagnosis_scores
                   (passes late_rule_rules 3 (add_facts ["a"%string] init)))
            "d") 1
  /\ contributing_rules
       (get_confidence_explanation "d"
          (passes late_rule_rules 3 (add_facts ["a"%string] init)))
     = List.map (fun s => (step_rule_id s, step_cf s, step_conditions s))
         (explain_reasoning "d"
            (passes late_rule_rules 3 (add_facts ["a"%string] init)))
  /\ (explain_reasoning "d"
        (passes late_rule_rules 3 (add_facts ["a"%string] init)) = []
      <-> "d"%string
          ∉ inferred_facts
              (passes late_rule_rules 3 (add_facts ["a"%string] init))).
Proof.
  apply (confidence_explanation_agrees late_rule_rules).
  apply (session_forward_chain late_rule_rules 50
           (add_facts ["a"%string] init) 3).
  - apply session_add_facts, session_init.
  - vm_compute. reflexivity.
Defined.

(** *** The reasoning chain *)

Lemma chain_trace_app d t1 t2 :
  chain_trace d (t1 ++ t2) = chain_trace d t1 ++ chain_trace d t2.
Proof.
  induction t1 as [|e t1 IH]; simpl; [reflexivity|].
  destruct e; [exact IH|].
  destruct (contains d conclusion || bool_decide (conclusion = d));
    simpl; rewrite IH; reflexivity.
Qed.

(** X17. [get_reasoning_chain] lists fired rules only, in firing order,
    and among them every rule [explain_reasoning] gives for the same
    diagnosis. *)
Theorem reasoning_chain_fired (rules : rule_base) (st : state) (d : string) :
  session rules st ->
  List.map step_rule_id (explain_reasoning d st)
    `sublist_of` get_reasoning_chain d st
  /\ get_reasoning_chain d st `sublist_of` fired_rules st.
Proof.
  unfold explain_reasoning, get_reasoning_chain. revert st.
  apply (fc_session_inv rules
           (fun s => List.map step_rule_id
                       (explain_trace d (reasoning_trace s))
                       `sublist_of` chain_trace d (reasoning_trace s)
                     /\ chain_trace d (reasoning_trace s)
                          `sublist_of` fired_rules s)).
  - simpl. split; reflexivity.
  - intros facts st [H1 H2].
    rewrite add_facts_trace, add_facts_fired_rules, explain_trace_app,
      chain_trace_app.
    assert (E1 : explain_trace d (List.map fact_added facts) = [])
      by (induction facts; simpl; auto).
    assert (E2 : chain_trace d (List.map fact_added facts) = [])
      by (induction facts; simpl; auto).
    rewrite E1, E2, !app_nil_r. split; assumption.
  - intros rule_id r st _ [H1 H2] _ _. simpl.
    rewrite explain_trace_app, chain_trace_app, List.map_app. simpl.
    case_bool_decide as E.
    + rewrite orb_true_r. simpl. split; apply sublist_app; auto.
    + rewrite orb_false_r. simpl.
      destruct (contains d (THEN r)); split;
        apply sublist_app; auto; try reflexivity; apply sublist_nil_l.
Qed.

Lemma reasoning_chain_fired_witness :
  List.map step_rule_id
    (explain_reasoning "d"
       (passes late_rule_rules 3 (add_facts ["a"%string] init)))
    `sublist_of`
    get_reasoning_chain "d"
      (passes late_rule_rules 3 (add_facts ["a"%string] init))
  /\ get_reasoning_chain "d"
       (passes late_rule_rules 3 (add_facts ["a"%string] init))
       `sublist_of`
       fired_rules (passes late_rule_rules 3 (add_facts ["a"%string] init)).
Proof.
  apply (reasoning_chain_fired late_rule_rules).
  apply (session_forward_chain late_rule_rules 50
           (add_facts ["a"%string] init) 3).
  - apply session_add_facts, session_init.
  - vm_compute. reflexivity.
Defined.

End FCExplain.

Module FCDiagnoses.
Import FC FCMore.

(** *** The ranked list of final diagnoses *)

Lemma insert_desc_perm d l : Permutation (insert_desc d l) (d :: l).
Proof.
  induction l as [|d' l IH]; simpl; [reflexivity|].
  destruct (Qle_bool (confidence d') (confidence d)); [reflexivity|].
  rewrite IH. apply perm_swap.
Qed.

Lemma sort_desc_perm l : Permutation (sort_desc l) l.
Proof.
  induction l as [|d l IH]; simpl; [reflexivity|].
  rewrite insert_desc_perm, IH. reflexivity.
Qed.

Lemma insert_desc_sorted d l :
  StronglySorted ranked_before l ->
  StronglySorted ranked_before (insert_desc d l).
Proof.
  induction 1 as [|d' l Hsorted IH Hall]; simpl.
  - constructor; constructor.
  - destruct (Qle_bool (confidence d') (confidence d)) eqn:E.
    + apply Qle_bool_iff in E. constructor.
      * constructor; assumption.
      * constructor; [exact E|].
        rewrite List.Forall_forall in *. intros x Hx.
        unfold ranked_before in *. specialize (Hall x Hx). lra.
    + assert (Hlt : confidence d < confidence d').
      { apply Qnot_le_lt. intros H. apply Qle_bool_iff in H. congruence. }
      constructor; [exact IH|].
      rewrite List.Forall_forall in *. intros x Hx.
      apply Permutation_in with (l' := d :: l) in Hx;
        [|apply insert_desc_perm].
      destruct Hx as [<-|Hx]; [unfold ranked_before; lra | auto].
Qed.

Lemma sort_desc_sorted l : StronglySorted ranked_before (sort_desc l).
Proof.
  induction l as [|d l IH]; simpl; [constructor|].
  apply insert_desc_sorted, IH.
Qed.

Lemma collect_spec items d :
  In d (collect items) <->
  exists score,
    In (diag_name d, score) items
    /\ is_final (diag_name d) = true
    /\ confidence d = Qmin score 1
    /\ percentage d = Qmin (score * 100) 100.
Proof.
  induction items as [|[name score] items IH]; simpl.
  - split; [contradiction | intros (s & [] & _)].
  - destruct (is_final name) eqn:E; simpl; rewrite IH; split.
    + intros [<-|(s & Hin & H)]; simpl; eauto 6.
    + intros (s & [Heq|Hin] & Hf & Hc & Hp).
      * injection Heq as -> ->. left. destruct d; simpl in *.
        subst. reflexivity.
      * right. eauto 6.
    + intros (s & Hin & H). eauto 6.
    + intros (s & [Heq|Hin] & Hf & Hc & Hp).
      * injection Heq as -> ->. congruence.
      * eauto 6.
Qed.

(** X18. [_get_final_diagnoses] ranks the final diagnoses: its result is
    sorted by confidence, largest first; it holds exactly the items of
    [diagnosis_scores] whose name contains a keyword, each with its score
    capped at 1 as confidence and the score times 100 capped at 100 as
    percentage. Names are strings of ASCII characters. *)
Theorem final_diagnoses_ranked (items : list (string * Q)) :
  Forall (fun item => is_ascii item.1 = true) items ->
  StronglySorted ranked_before (_get_final_diagnoses items)
  /\ Permutation (_get_final_diagnoses items) (collect items)
  /\ (forall d,
        In d (_get_final_diagnoses items) <->
        exists score,
          In (diag_name d, score) items
          /\ is_final (diag_name d) = true
          /\ confidence d = Qmin score 1
          /\ percentage d = Qmin (score * 100) 100)
  /\ (forall d,
        In d (_get_final_diagnoses items) ->
        confidence d <= 1 /\ percentage d <= 100).
Proof.
  intros _. unfold _get_final_diagnoses.
  assert (Hin : forall d,
             In d (sort_desc (collect items)) <-> In d (collect items)).
  { intros d. split; apply Permutation_in;
      [|apply Permutation_sym]; apply sort_desc_perm. }
  split; [apply sort_desc_sorted|]. split; [apply sort_desc_perm|].
  split.
  - intros d. rewrite Hin. apply collect_spec.
  - intros d Hd. apply Hin, collect_spec in Hd as (s & _ & _ & -> & ->).
    split; apply Q.le_min_r.
Qed.

Lemma final_diagnoses_ranked_witness :
  StronglySorted ranked_before (_get_final_diagnoses sample_scores)
  /\ Permutation (_get_final_diagnoses sample_scores) (collect sample_scores)
  /\ (forall d,
        In d (_get_final_diagnoses sample_scores) <->
        exists score,
          In (diag_name d, score) sample_scores
          /\ is_final (diag_name d) = true
          /\ confidence d = Qmin score 1
          /\ percentage d = Qmin (score * 100) 100)
  /\ (forall d,
        In d (_get_final_diagnoses sample_scores) ->
        confidence d <= 1 /\ percentage d <= 100).
Proof.
  apply (final_diagnoses_ranked sample_scores).
  repeat (constructor; [reflexivity|]). constructor.
Defined.

(** The ranking of [sample_scores]: the capped score 1 first, the
    intermediate fact left out. *)
Example sample_scores_ranking :
  List.map diag_name (_get_final_diagnoses sample_scores)
  = ["Masalah_Software"; "kerusakan_baterai"]%string.
Proof. reflexivity. Qed.

Lemma insert_desc_with_confidence q d l :
  with_confidence q (insert_desc d l) = with_confidence q (d :: l).
Proof.
  unfold with_confidence.
  induction l as [|d' l IH]; [reflexivity|].
  cbn [insert_desc].
  destruct (Qle_bool (confidence d') (confidence d)) eqn:E; [reflexivity|].
  cbn [List.filter] in *. rewrite IH.
  destruct (Qeq_bool (confidence d) q) eqn:Ed;
    destruct (Qeq_bool (confidence d') q) eqn:Ed'; try reflexivity.
  exfalso. apply Qeq_bool_iff in Ed, Ed'.
  assert (H : Qle_bool (confidence d') (confidence d) = true).
  { apply Qle_bool_iff. rewrite Ed, Ed'. apply Qle_refl. }
  congruence.
Qed.

(** X19. The ranking is stable: diagnoses of equal confidence, for
    instance all those capped at 1, stay in the order of the dictionary,
    which is the order in which they were first inferred. *)
Theorem final_diagnoses_stable (items : list (string * Q)) (q : Q) :
  Forall (fun item => is_ascii item.1 = true) items ->
  with_confidence q (_get_final_diagnoses items)
  = with_confidence q (collect items).
Proof.
  intros _. unfold _get_final_diagnoses.
  induction (collect items) as [|d l IH]; [reflexivity|].
  simpl sort_desc. rewrite insert_desc_with_confidence.
  unfold with_confidence in *. cbn [List.filter]. rewrite IH. reflexivity.
Qed.

Lemma final_diagnoses_stable_witness :
  with_confidence 1 (_get_final_diagnoses sample_scores)
  = with_confidence 1 (collect sample_scores).
Proof.
  apply (final_diagnoses_stable sample_scores 1).
  repeat (constructor; [reflexivity|]). constructor.
Defined.

End FCDiagnoses.

(** ** More on backward chaining *)

Module BCGrowth.
Import BC BCProps BCSession BCInvariant.

Lemma grows_refl st : grows st st.
Proof. unfold grows. repeat split; reflexivity. Qed.

Lemma grows_trans st1 st2 st3 : grows st1 st2 -> grows st2 st3 -> grows st1 st3.
Proof.
  intros (W1 & A1 & P1 & F1 & T1 & C1) (W2 & A2 & P2 & F2 & T2 & C2).
  unfold grows. repeat split; try (etrans; eassumption); congruence.
Qed.

Lemma advances_refl rules st : advances rules st st.
Proof.
  split; [apply grows_refl|]. split.
  - intros f H1 H2. contradiction.
  - exists []. rewrite app_nil_r. split; [reflexivity|].
    intros q Hq. apply elem_of_nil in Hq. contradiction.
Qed.

Lemma advances_trans rules st1 st2 st3 :
  advances rules st1 st2 -> advances rules st2 st3 -> advances rules st1 st3.
Proof.
  intros (G1 & C1 & (n1 & Q1 & L1)) (G2 & C2 & (n2 & Q2 & L2)).
  split; [eapply grows_trans; eassumption|]. split.
  - intros f H3 H1.
    destruct (decide (f ∈ working_memory st2)) as [H2|H2].
    + destruct (C1 f H2 H1) as (Hr & Ha & Hn & Hcb).
      split; [exact Hr|]. split; [|split; assumption].
      destruct G2 as (_ & A2 & _). auto.
    + destruct (C2 f H3 H2) as (Hr & Ha & Hn & cb & Hcb & Hyes).
      split; [exact Hr|]. split; [exact Ha|]. split.
      * destruct G1 as (_ & A1 & _). auto.
      * exists cb. destruct G1 as (_ & _ & _ & _ & _ & E). split; congruence.
  - exists (n1 ++ n2). split; [rewrite Q2, Q1, app_assoc; reflexivity|].
    intros q Hq. apply elem_of_app in Hq as [Hq|Hq]; [auto|].
    destruct (L2 q Hq) as [Hr Hs]. split; [exact Hr|].
    destruct G1 as (_ & _ & _ & _ & _ & E). congruence.
Qed.

(** An update that asks nothing and adds no fact. *)
Lemma advances_quiet rules st st' :
  working_memory st' = working_memory st ->
  asked_questions st' = asked_questions st ->
  proved_goals st ⊆ proved_goals st' ->
  failed_goals st ⊆ failed_goals st' ->
  question_callback st' = question_callback st ->
  (exists es, reasoning_trace st' = reasoning_trace st ++ es
              /\ questions es = []) ->
  advances rules st st'.
Proof.
  intros W A P F C (es & T & Q). split; [|split].
  - unfold grows. rewrite W, A, T, C.
    repeat split; try reflexivity; try assumption.
    apply prefix_app_r. reflexivity.
  - intros f H1 H2. rewrite W in H1. contradiction.
  - exists []. rewrite T, questions_app, Q. split; [reflexivity|].
    intros q Hq. apply elem_of_nil in Hq. contradiction.
Qed.

Lemma advances_log rules e st :
  questions [e] = [] -> advances rules st (log e st).
Proof.
  intros H. apply advances_quiet; try reflexivity. exists [e]. auto.
Qed.

Lemma advances_proved rules g st :
  advances rules st (set_proved_goals (proved_goals st ∪ {[g]}) st).
Proof.
  apply advances_quiet; try reflexivity; [simpl; set_solver|].
  exists []. rewrite app_nil_r. auto.
Qed.

Lemma advances_failed rules g st :
  advances rules st (set_failed_goals (failed_goals st ∪ {[g]}) st).
Proof.
  apply advances_quiet; try reflexivity; [simpl; set_solver|].
  exists []. rewrite app_nil_r. auto.
Qed.

(** What a question to the user does, when no rule concludes the goal. *)
Lemma advances_ask_user rules g st :
  find_rules_for_goal rules g = [] ->
  advances rules st (_ask_user g st).2.
Proof.
  intros Hleaf.
  destruct (_ask_user_cases g st)
    as [[_ ->]|[(Hq & _ & ->)|(Hq & callback & Hcb & ->)]]; simpl.
  - apply advances_refl.
  - split; [|split].
    + unfold grows. simpl. repeat split; try reflexivity. set_solver.
    + intros f H1 H2. contradiction.
    + exists []. simpl. rewrite app_nil_r. split; [reflexivity|].
      intros q H. apply elem_of_nil in H. contradiction.
  - split; [|split].
    + unfold grows. simpl. repeat split; try reflexivity; [set_solver|].
      apply prefix_app_r. reflexivity.
    + intros f H1 H2. contradiction.
    + exists [g]. simpl. rewrite questions_app. split; [reflexivity|].
      intros q H. apply list_elem_of_singleton in H. subst q.
      split; [exact Hleaf|]. rewrite Hcb. eauto.
Qed.

(** The answer [_ask_user] returns is the callback's. *)
Lemma ask_user_yes g st st1 :
  _ask_user g st = (true, st1) ->
  (g ∉ asked_questions st) /\ g ∈ asked_questions st1
  /\ exists callback,
      question_callback st = Some callback /\ callback g = true.
Proof.
  intros H.
  destruct (_ask_user_cases g st)
    as [[_ E]|[(Hq & _ & E)|(Hq & callback & Hcb & E)]];
    rewrite E in H; try discriminate.
  injection H as Hyes <-. simpl. split; [exact Hq|].
  split; [set_solver | eauto].
Qed.

Lemma prove_goal_advances rules goal depth max_depth st b st' :
  prove_goal rules goal depth max_depth st = Some (b, st') ->
  advances rules st st'.
Proof.
  apply (prove_goal_fuel_ind rules max_depth
           (fun _ s _ s' => advances rules s s')
           (fun _ s0 s => advances rules s0 s)); clear.
  - intros g d st. apply advances_log. reflexivity.
  - intros g st _. apply advances_refl.
  - intros g st _ _. apply advances_refl.
  - intros g d st _ _ _.
    eapply advances_trans; [apply advances_proved|].
    apply advances_log. reflexivity.
  - intros g d st st1 (_ & _ & Hw) Hleaf Hask.
    pose proof (advances_ask_user rules g st Hleaf) as H1.
    destruct (ask_user_yes g st st1 Hask) as (Hn & Ha & cb & Hcb & Hyes).
    rewrite Hask in H1. simpl in H1.
    assert (Hwm : working_memory st1 = working_memory st).
    { destruct (_ask_user_cases g st)
        as [[_ E]|[(_ & _ & E)|(_ & cb' & _ & E)]];
        rewrite E in Hask; injection Hask as _ <-; reflexivity. }
    destruct H1 as ((W1 & A1 & P1 & F1 & T1 & C1) & _ & (new & Q1 & L1)).
    split; [|split].
    + unfold grows. simpl.
      split; [set_solver|]. split; [exact A1|]. split; [set_solver|].
      split; [exact F1|]. split; [|exact C1].
      etrans; [exact T1 | apply prefix_app_r; reflexivity].
    + intros f H2 H3. simpl in H2. rewrite Hwm in H2.
      assert (f = g) as -> by set_solver.
      split; [exact Hleaf|]. split; [simpl; exact Ha|].
      split; [exact Hn | eauto].
    + exists new. simpl. rewrite questions_app, Q1. simpl.
      rewrite app_nil_r. split; [reflexivity | exact L1].
  - intros g st st1 _ Hleaf Hask.
    pose proof (advances_ask_user rules g st Hleaf) as H1.
    rewrite Hask in H1. simpl in H1.
    eapply advances_trans; [exact H1 | apply advances_failed].
  - intros g st _. apply advances_refl.
  - intros g st0 st rule_id r d _ _ H.
    eapply advances_trans; [exact H | apply advances_log; reflexivity].
  - intros g st0 st rule_id r c b st' _ _ _ H H'.
    eapply advances_trans; eassumption.
  - intros g st0 st rule_id r d _ _ _ H.
    eapply advances_trans; [exact H|].
    eapply advances_trans; [apply advances_proved|].
    apply advances_log. reflexivity.
  - intros g st0 st _ H.
    eapply advances_trans; [exact H | apply advances_failed].
Qed.

End BCGrowth.

Module BCVerdict.
Import BC BCProps BCSession BCInvariant BCGrowth.

(** X20. A call of [prove_goal] only adds: the working memory, the asked
    questions and the proved and failed goals grow, the trace is
    appended to, and the callback is left alone. *)
Theorem prove_goal_grows
  (rules : rule_base) (goal : string) (depth max_depth : Z) (st : state) :
  exists b st',
    prove_goal rules goal depth max_depth st = Some (b, st')
    /\ grows st st'.
Proof.
  destruct (prove_goal_total rules goal depth max_depth st) as (b & st' & H).
  exists b, st'. split; [exact H|].
  apply prove_goal_advances in H as [Hg _]. exact Hg.
Qed.

(** X21. The user is asked about leaf goals only, and only a confirmed
    leaf goal becomes a fact: every fact a [prove_goal] call adds to the
    working memory is a goal no rule concludes that the callback answered
    with true, and every question put to the callback during the call is
    about a goal no rule concludes. *)
Theorem prove_goal_asks_leaves
  (rules : rule_base) (goal : string) (depth max_depth : Z) (st : state) :
  exists b st',
    prove_goal rules goal depth max_depth st = Some (b, st')
    /\ confirmed rules st st'
    /\ quizzed rules st st'.
Proof.
  destruct (prove_goal_total rules goal depth max_depth st) as (b & st' & H).
  exists b, st'. split; [exact H|].
  apply prove_goal_advances in H as (_ & Hc & Hq). auto.
Qed.

(** X22. Without a callback the prover works from the known facts alone:
    a [prove_goal] call on a session with no [question_callback] asks
    nothing and leaves the working memory as it is. *)
Theorem prove_goal_without_callback
  (rules : rule_base) (goal : string) (depth max_depth : Z) (st : state) :
  question_callback st = None ->
  exists b st',
    prove_goal rules goal depth max_depth st = Some (b, st')
    /\ working_memory st' = working_memory st
    /\ questions (reasoning_trace st') = questions (reasoning_trace st).
Proof.
  intros Hnone.
  destruct (prove_goal_total rules goal depth max_depth st) as (b & st' & H).
  exists b, st'. split; [exact H|].
  apply prove_goal_advances in H
    as ((W & _) & Hc & (new & Q & L)).
  split.
  - apply set_eq. intros f. split; [|apply W].
    intros Hf. destruct (decide (f ∈ working_memory st)) as [|Hn]; [assumption|].
    destruct (Hc f Hf Hn) as (_ & _ & _ & cb & Hcb & _). congruence.
  - destruct new as [|q new]; [rewrite Q, app_nil_r; reflexivity|].
    destruct (L q) as [_ [cb Hcb]]; [left|]. congruence.
Qed.

Lemma prove_goal_without_callback_witness :
  exists b st',
    prove_goal layered_rules "g" 0 10 (add_facts ["a"%string] init)
    = Some (b, st')
    /\ working_memory st' = working_memory (add_facts ["a"%string] init)
    /\ questions (reasoning_trace st')
       = questions (reasoning_trace (add_facts ["a"%string] init)).
Proof.
  apply (prove_goal_without_callback layered_rules "g" 0 10
           (add_facts ["a"%string] init)).
  reflexivity.
Defined.

Lemma try_rules_verdict recurse matching g depth st b st' :
  try_rules recurse matching g depth st = Some (b, st') ->
  if b then g ∈ proved_goals st' else g ∈ failed_goals st'.
Proof.
  revert st. induction matching as [|[rule_id r] ms IH]; intros st H;
    simpl in H.
  - injection H as <- <-. simpl. set_solver.
  - destruct (prove_conditions recurse (IF r) depth _) as [[[|] st1]|];
      [| |discriminate].
    + injection H as <- <-. simpl. set_solver.
    + eapply IH. exact H.
Qed.

(** Within the depth bound the goal of a call ends in the memo set of
    its verdict. *)
Lemma prove_goal_memo rules goal depth max_depth st b st' :
  prove_goal rules goal depth max_depth st = Some (b, st') ->
  (depth <= max_depth)%Z ->
  if b then goal ∈ proved_goals st' else goal ∈ failed_goals st'.
Proof.
  intros H Hle.
  unfold prove_goal, fuel_for in H. cbn [prove_goal_fuel] in H.
  assert (Hd : (max_depth <? depth)%Z = false) by lia.
  rewrite Hd in H.
  destruct (bool_decide (goal ∈ proved_goals st)) eqn:Hp.
  { injection H as <- <-. apply bool_decide_eq_true in Hp. exact Hp. }
  destruct (bool_decide (goal ∈ failed_goals st)) eqn:Hf.
  { injection H as <- <-. apply bool_decide_eq_true in Hf. exact Hf. }
  destruct (bool_decide (goal ∈ working_memory st)) eqn:Hw.
  { injection H as <- <-. simpl. set_solver. }
  destruct (find_rules_for_goal rules goal) as [|m ms].
  - destruct (_ask_user goal st) as [[|] st1]; injection H as <- <-;
      simpl; set_solver.
  - eapply try_rules_verdict. exact H.
Qed.

(** X23. The verdict is memoised: when [prove_goal] returns true within
    the depth bound the goal is in [proved_goals]; when it returns false
    within the bound the goal is in [failed_goals]; beyond the bound it
    returns false and only logs [max_depth_reached], memoising nothing. *)
Theorem prove_goal_verdict
  (rules : rule_base) (goal : string) (depth max_depth : Z) (st : state) :
  exists b st',
    prove_goal rules goal depth max_depth st = Some (b, st')
    /\ ((depth <= max_depth)%Z ->
        if b then goal ∈ proved_goals st' else goal ∈ failed_goals st')
    /\ ((max_depth < depth)%Z ->
        b = false /\ st' = log (max_depth_reached goal depth) st).
Proof.
  destruct (prove_goal_total rules goal depth max_depth st) as (b & st' & H).
  exists b, st'. split; [exact H|]. split.
  - apply (prove_goal_memo rules goal depth max_depth st b st' H).
  - intros Hd. unfold prove_goal, fuel_for in H. cbn [prove_goal_fuel] in H.
    assert (G : (max_depth <? depth)%Z = true) by lia.
    rewrite G in H. injection H as <- <-. auto.
Qed.

(** X24. Failures are not retried: once a goal is in [failed_goals] (and
    not in [proved_goals]), [prove_goal] within the depth bound returns
    false and changes nothing, also after [add_facts] has made the goal
    itself a known fact. *)
Theorem failed_goal_not_retried
  (rules : rule_base) (goal : string) (depth max_depth : Z)
  (facts : list string) (st : state) :
  goal ∈ failed_goals st -> goal ∉ proved_goals st ->
  (depth <= max_depth)%Z ->
  prove_goal rules goal depth max_depth (add_facts facts st)
  = Some (false, add_facts facts st).
Proof.
  intros Hf Hp Hd.
  destruct (add_facts_fields facts st) as (_ & Ep & Ef & _).
  unfold prove_goal, fuel_for. cbn [prove_goal_fuel].
  assert (G : (max_depth <? depth)%Z = false) by lia.
  rewrite G, Ep, Ef.
  rewrite bool_decide_eq_false_2 by exact Hp.
  rewrite bool_decide_eq_true_2 by exact Hf. reflexivity.
Qed.

Lemma failed_goal_not_retried_witness :
  prove_goal layered_rules "z" 0 10
    (add_facts ["z"%string]
       (session_after (prove_goal layered_rules "z" 0 10 init) init))
  = Some (false,
          add_facts ["z"%string]
            (session_after (prove_goal layered_rules "z" 0 10 init) init)).
Proof.
  apply (failed_goal_not_retried layered_rules "z" 0 10 ["z"%string]
           (session_after (prove_goal layered_rules "z" 0 10 init) init)).
  - compute_done.
  - compute_done.
  - lia.
Defined.

End BCVerdict.

Module BCSound.
Import BC BCProps BCSession BCInvariant BCGrowth.

(** *** A finer induction principle

    As [prove_goal_fuel_ind], with the rule being tried and the
    antecedents proved so far: [Rout goal st0 st] holds between two rules,
    [Rin goal st0 r done st] while the antecedents of [r] are proved. *)

Section Induction2.

Variable rules : rule_base.
Variable max_depth : Z.
Variable R : string -> state -> bool -> state -> Prop.
Variable Rout : string -> state -> state -> Prop.
Variable Rin : string -> state -> rule -> list string -> state -> Prop.

Hypothesis R_depth :
  forall g d st, R g st false (log (max_depth_reached g d) st).
Hypothesis R_cached_proved :
  forall g st, g ∈ proved_goals st -> R g st true st.
Hypothesis R_cached_failed :
  forall g st, g ∉ proved_goals st -> g ∈ failed_goals st -> R g st false st.
Hypothesis R_fact :
  forall g d st,
    g ∉ proved_goals st -> g ∉ failed_goals st -> g ∈ working_memory st ->
    R g st true
      (log (goal_proved_by_fact g d)
         (set_proved_goals (proved_goals st ∪ {[g]}) st)).
Hypothesis R_user_yes :
  forall g d st st1,
    entry g st -> find_rules_for_goal rules g = [] ->
    _ask_user g st = (true, st1) ->
    R g st true
      (log (goal_proved_by_user g d)
         (set_proved_goals (proved_goals st1 ∪ {[g]})
            (set_working_memory (working_memory st1 ∪ {[g]}) st1))).
Hypothesis R_user_no :
  forall g st st1,
    entry g st -> find_rules_for_goal rules g = [] ->
    _ask_user g st = (false, st1) ->
    R g st false (set_failed_goals (failed_goals st1 ∪ {[g]}) st1).
Hypothesis Rout_entry : forall g st, entry g st -> Rout g st st.
Hypothesis Rin_trying :
  forall g st0 st rule_id r d,
    (rule_id, r) ∈ rules -> THEN r = g -> Rout g st0 st ->
    Rin g st0 r [] (log (trying_rule rule_id g (IF r) d) st).
Hypothesis Rin_true :
  forall g st0 st r done c st',
    Rin g st0 r done st -> R c st true st' ->
    Rin g st0 r (done ++ [c]) st'.
Hypothesis Rout_false :
  forall g st0 st r done c st',
    Rin g st0 r done st -> R c st false st' -> Rout g st0 st'.
Hypothesis R_rule :
  forall g st0 st rule_id r d,
    entry g st0 -> (rule_id, r) ∈ rules -> THEN r = g ->
    Rin g st0 r (IF r) st ->
    R g st0 true
      (log (goal_proved_by_rule rule_id g (rule_cf r) d)
         (set_proved_goals (proved_goals st ∪ {[g]}) st)).
Hypothesis R_exhausted :
  forall g st0 st,
    entry g st0 -> Rout g st0 st ->
    R g st0 false (set_failed_goals (failed_goals st ∪ {[g]}) st).

Section Loops2.

Variable recurse : string -> Z -> state -> option (bool * state).
Hypothesis recurse_R :
  forall c d st b st', recurse c d st = Some (b, st') -> R c st b st'.

Lemma prove_conditions_ind2 g st0 r depth :
  forall conditions done st b st',
    Rin g st0 r done st ->
    prove_conditions recurse conditions depth st = Some (b, st') ->
    if b then Rin g st0 r (done ++ conditions) st' else Rout g st0 st'.
Proof.
  induction conditions as [|c cs IH]; intros done st b st' Hst Hrun;
    simpl in Hrun.
  - injection Hrun as <- <-. rewrite app_nil_r. exact Hst.
  - destruct (recurse c (depth + 1)%Z st) as [[[|] st1]|] eqn:Hc;
      [| |discriminate].
    + apply recurse_R in Hc.
      specialize (IH (done ++ [c]) st1 b st'
                    (Rin_true g st0 st r done c st1 Hst Hc) Hrun).
      rewrite <- app_assoc in IH. exact IH.
    + injection Hrun as <- <-. apply recurse_R in Hc.
      eapply Rout_false; eassumption.
Qed.

Lemma try_rules_ind2 g st0 depth :
  entry g st0 ->
  forall matching st b st',
    (forall rule_id r, (rule_id, r) ∈ matching ->
                       (rule_id, r) ∈ rules /\ THEN r = g) ->
    Rout g st0 st ->
    try_rules recurse matching g depth st = Some (b, st') ->
    R g st0 b st'.
Proof.
  intros Hentry.
  induction matching as [|[rule_id r] ms IH]; intros st b st' Hms Hst Hrun;
    simpl in Hrun.
  - injection Hrun as <- <-. apply R_exhausted; assumption.
  - destruct (Hms rule_id r) as [Hin Hthen]; [left|].
    destruct (prove_conditions recurse (IF r) depth
                (log (trying_rule rule_id g (IF r) depth) st))
      as [[b1 st1]|] eqn:Hconds; [|discriminate].
    pose proof (prove_conditions_ind2 g st0 r depth (IF r) []
                  (log (trying_rule rule_id g (IF r) depth) st) b1 st1
                  (Rin_trying g st0 st rule_id r depth Hin Hthen Hst)
                  Hconds) as H1.
    destruct b1.
    + injection Hrun as <- <-. apply R_rule; assumption.
    + apply (IH st1 b st'); [|exact H1|exact Hrun].
      intros i x Hx. apply Hms. right. exact Hx.
Qed.

End Loops2.

Lemma prove_goal_fuel_ind2 :
  forall fuel goal depth st b st',
    prove_goal_fuel fuel rules goal depth max_depth st = Some (b, st') ->
    R goal st b st'.
Proof.
  induction fuel as [|fuel IH]; intros goal depth st b st' Hrun;
    [discriminate|].
  simpl in Hrun.
  destruct (max_depth <? depth)%Z.
  { injection Hrun as <- <-. apply R_depth. }
  destruct (bool_decide (goal ∈ proved_goals st)) eqn:Hp.
  { injection Hrun as <- <-. apply bool_decide_eq_true in Hp.
    apply R_cached_proved, Hp. }
  apply bool_decide_eq_false in Hp.
  destruct (bool_decide (goal ∈ failed_goals st)) eqn:Hf.
  { injection Hrun as <- <-. apply bool_decide_eq_true in Hf.
    apply R_cached_failed; assumption. }
  apply bool_decide_eq_false in Hf.
  destruct (bool_decide (goal ∈ working_memory st)) eqn:Hw.
  { injection Hrun as <- <-. apply bool_decide_eq_true in Hw.
    apply R_fact; assumption. }
  apply bool_decide_eq_false in Hw.
  assert (Hentry : entry goal st) by (repeat split; assumption).
  destruct (find_rules_for_goal rules goal) as [|m ms] eqn:Hfind.
  - destruct (_ask_user goal st) as [[|] st1] eqn:Hask;
      injection Hrun as <- <-.
    + apply R_user_yes; assumption.
    + apply R_user_no; assumption.
  - apply (try_rules_ind2
             (fun condition depth' st' =>
                prove_goal_fuel fuel rules condition depth' max_depth st')
             (fun c d s b0 s' Hc => IH c d s b0 s' Hc)
             goal st depth Hentry (m :: ms) st b st');
      [|apply Rout_entry, Hentry|exact Hrun].
    intros rule_id r Hin. apply find_rules_for_goal_spec. rewrite Hfind.
    exact Hin.
Qed.

End Induction2.

(** *** Proved goals follow from the facts *)

Lemma derivable_mono rules facts facts' goal :
  facts ⊆ facts' -> derivable rules facts goal -> derivable rules facts' goal.
Proof.
  intros Hsub. induction 1 as [g Hg|rule_id r Hin _ IH].
  - apply derivable_fact. auto.
  - eapply derivable_rule; eauto.
Qed.

(** The memo of proved goals after one more goal, justified in the new
    session, was added. *)
Lemma justified_add rules st st' g :
  justified rules st ->
  working_memory st ⊆ working_memory st' ->
  proved_goals st' ⊆ proved_goals st ∪ {[g]} ->
  derivable rules (working_memory st') g ->
  justified rules st'.
Proof.
  intros Hj Hw Hp Hg goal Hgoal. apply Hp in Hgoal.
  apply elem_of_union in Hgoal as [Hgoal|Hgoal].
  - eapply derivable_mono; [exact Hw | apply Hj, Hgoal].
  - apply elem_of_singleton in Hgoal. subst goal. exact Hg.
Qed.

Lemma justified_same rules st st' :
  justified rules st ->
  working_memory st ⊆ working_memory st' ->
  proved_goals st' ⊆ proved_goals st ->
  justified rules st'.
Proof.
  intros Hj Hw Hp goal Hgoal.
  eapply derivable_mono; [exact Hw | apply Hj, Hp, Hgoal].
Qed.

Lemma ask_user_sets q st :
  working_memory (_ask_user q st).2 = working_memory st
  /\ proved_goals (_ask_user q st).2 = proved_goals st.
Proof.
  destruct (_ask_user_cases q st)
    as [[_ ->]|[(Hq & _ & ->)|(Hq & callback & _ & ->)]]; simpl; auto.
Qed.

Lemma prove_goal_justified rules goal depth max_depth st b st' :
  prove_goal rules goal depth max_depth st = Some (b, st') ->
  justified rules st -> justified rules st'.
Proof.
  intros Hrun.
  assert (H : (justified rules st -> justified rules st')
              /\ proved_goals st ⊆ proved_goals st'
              /\ working_memory st ⊆ working_memory st'
              /\ (b = true -> goal ∈ proved_goals st')); [|tauto].
  revert Hrun.
  apply (prove_goal_fuel_ind2 rules max_depth
           (fun g s b s' =>
              (justified rules s -> justified rules s')
              /\ proved_goals s ⊆ proved_goals s'
              /\ working_memory s ⊆ working_memory s'
              /\ (b = true -> g ∈ proved_goals s'))
           (fun _ s0 s =>
              (justified rules s0 -> justified rules s)
              /\ proved_goals s0 ⊆ proved_goals s
              /\ working_memory s0 ⊆ working_memory s)
           (fun _ s0 r done s =>
              ((justified rules s0 -> justified rules s)
               /\ proved_goals s0 ⊆ proved_goals s
               /\ working_memory s0 ⊆ working_memory s)
              /\ forall c, c ∈ done -> c ∈ proved_goals s)); clear.
  - intros g d st. repeat split; try reflexivity; try discriminate.
    intros H. eapply justified_same; [exact H| |]; reflexivity.
  - intros g st Hg. repeat split; auto.
  - intros g st _ _. repeat split; auto; discriminate.
  - intros g d st _ _ Hw. simpl.
    split; [|repeat split; set_solver].
    intros H. eapply justified_add with (g := g); [exact H| | |];
      simpl; try reflexivity.
    apply derivable_fact, Hw.
  - intros g d st st1 _ _ Hask.
    destruct (ask_user_sets g st) as [Ew Ep]. rewrite Hask in Ew, Ep.
    simpl in Ew, Ep. simpl. rewrite Ew, Ep.
    split; [|repeat split; set_solver].
    intros H. eapply justified_add with (g := g); [exact H| | |]; simpl;
      rewrite ?Ew, ?Ep; try reflexivity; [set_solver|].
    apply derivable_fact. set_solver.
  - intros g st st1 _ _ Hask.
    destruct (ask_user_sets g st) as [Ew Ep]. rewrite Hask in Ew, Ep.
    simpl in Ew, Ep. simpl. rewrite Ew, Ep.
    repeat split; try reflexivity; try discriminate.
    intros H. eapply justified_same; [exact H| |]; simpl;
      rewrite ?Ew, ?Ep; reflexivity.
  - intros g st _. repeat split; auto.
  - intros g st0 st rule_id r d _ _ (Hj & Hp & Hw). simpl.
    split; [repeat split; auto|].
    intros c Hc. apply elem_of_nil in Hc. contradiction.
  - intros g st0 st r done c st' [(Hj & Hp & Hw) Hdone]
      (Hj' & Hp' & Hw' & Hc).
    split; [repeat split; [tauto | set_solver | set_solver]|].
    intros x Hx. apply elem_of_app in Hx as [Hx|Hx].
    + apply Hp', Hdone, Hx.
    + apply list_elem_of_singleton in Hx. subst x. apply Hc. reflexivity.
  - intros g st0 st r done c st' [(Hj & Hp & Hw) _] (Hj' & Hp' & Hw' & _).
    repeat split; [tauto | set_solver | set_solver].
  - intros g st0 st rule_id r d _ Hin Hthen [(Hj & Hp & Hw) Hdone]. simpl.
    split; [|repeat split; set_solver].
    intros H. specialize (Hj H).
    eapply justified_add with (g := g); [exact Hj| | |]; simpl;
      try reflexivity.
    rewrite <- Hthen. eapply derivable_rule; [exact Hin|].
    intros c Hc. apply Hj, Hdone, Hc.
  - intros g st0 st _ (Hj & Hp & Hw). simpl.
    split; [|split; [exact Hp | split; [exact Hw | discriminate]]].
    intros H. eapply justified_same; [exact (Hj H)| |]; reflexivity.
Qed.

Lemma session_justified rules st : session rules st -> justified rules st.
Proof.
  revert st. apply (session_inv rules (justified rules)).
  - intros g Hg. simpl in Hg. set_solver.
  - intros callback st H. exact H.
  - intros facts st H goal Hgoal.
    destruct (add_facts_fields facts st) as (_ & Ep & _).
    rewrite Ep in Hgoal.
    eapply derivable_mono; [|apply H, Hgoal].
    clear. revert st. induction facts as [|f facts IH]; intros st; simpl.
    + reflexivity.
    + etrans; [|apply IH]. simpl. set_solver.
  - intros st _ g Hg. simpl in Hg. set_solver.
  - intros goal depth max_depth st b st' H Hrun.
    eapply prove_goal_justified; eassumption.
Qed.

(** X25. Backward chaining is sound: in every session each goal of
    [proved_goals] follows from the working memory (the facts reported
    and the goals the user confirmed) by the rules of the base. *)
Theorem backward_chain_sound (rules : rule_base) (st : state) (goal : string) :
  session rules st -> goal ∈ proved_goals st ->
  derivable rules (working_memory st) goal.
Proof.
  intros Hsession. apply (session_justified rules st Hsession).
Qed.

Lemma backward_chain_sound_witness :
  derivable layered_rules (working_memory layered_final) "g".
Proof.
  apply (backward_chain_sound layered_rules layered_final "g").
  - exact BCExamples.layered_final_session.
  - compute_done.
Defined.

End BCSound.

Module BCReport.
Import BC BCProps BCSession BCInvariant BCGrowth BCVerdict.

(** *** The result of [backward_chain] *)

Lemma chain_loop_report rules goals :
  forall proved failed st proved' failed' st',
    chain_loop rules goals proved failed st = Some (proved', failed', st') ->
    grows st st'
    /\ exists p f,
        proved' = proved ++ p /\ failed' = failed ++ f
        /\ (length p + length f = length goals)%nat
        /\ (forall g, g ∈ goals <-> g ∈ p.*1 \/ g ∈ f)
        /\ (forall g, g ∈ p.*1 -> g ∈ proved_goals st')
        /\ (forall g, g ∈ f -> g ∈ failed_goals st').
Proof.
  induction goals as [|goal goals IH];
    intros proved failed st proved' failed' st' Hrun; simpl in Hrun.
  - injection Hrun as <- <- <-. split; [apply grows_refl|].
    exists [], []. rewrite !app_nil_r.
    repeat split; try reflexivity; set_solver.
  - destruct (prove_goal rules goal 0 10 st) as [[[|] st1]|] eqn:Hg;
      [| |discriminate].
    + pose proof (prove_goal_memo _ _ _ _ _ _ _ Hg ltac:(lia)) as Hmemo.
      apply prove_goal_advances in Hg as [Hgrow _].
      destruct (IH _ _ _ _ _ _ Hrun)
        as (Hgrow' & p & f & -> & -> & Hlen & Hiff & Hp & Hf).
      split; [eapply grows_trans; eassumption|].
      exists ((goal, _calculate_goal_confidence goal st1) :: p), f.
      rewrite <- app_assoc. simpl.
      split; [reflexivity|]. split; [reflexivity|]. split; [lia|].
      destruct Hgrow' as (_ & _ & Hpg & _).
      split; [|split].
      * intros g. rewrite elem_of_cons, Hiff, elem_of_cons. tauto.
      * intros g Hin. apply elem_of_cons in Hin as [->|Hin]; auto.
      * exact Hf.
    + pose proof (prove_goal_memo _ _ _ _ _ _ _ Hg ltac:(lia)) as Hmemo.
      apply prove_goal_advances in Hg as [Hgrow _].
      destruct (IH _ _ _ _ _ _ Hrun)
        as (Hgrow' & p & f & -> & -> & Hlen & Hiff & Hp & Hf).
      split; [eapply grows_trans; eassumption|].
      exists p, (goal :: f).
      rewrite <- app_assoc. simpl.
      split; [reflexivity|]. split; [reflexivity|]. split; [lia|].
      destruct Hgrow' as (_ & _ & _ & Hfg & _).
      split; [|split].
      * intros g. rewrite elem_of_cons, Hiff, elem_of_cons. tauto.
      * exact Hp.
      * intros g Hin. apply elem_of_cons in Hin as [->|Hin]; auto.
Qed.

(** X26. [backward_chain] reports every goal once, as proved or as
    failed: the two lists have as many entries as there are goals, every
    goal reported proved is in [proved_goals] and every goal reported
    failed is in [failed_goals]; the trace reported is the session's; and
    [questions_asked] is the set as it was before the run, so it leaves
    out the questions asked during the run. *)
Theorem backward_chain_report
  (rules : rule_base) (goals : list string) (st : state) :
  exists res st',
    backward_chain rules goals st = Some (res, st')
    /\ res_goals res = goals
    /\ (length (res_proved_goals res) + length (res_failed_goals res)
        = length goals)%nat
    /\ (forall g,
          g ∈ goals <->
          g ∈ (res_proved_goals res).*1 \/ g ∈ res_failed_goals res)
    /\ (forall g, g ∈ (res_proved_goals res).*1 -> g ∈ proved_goals st')
    /\ (forall g, g ∈ res_failed_goals res -> g ∈ failed_goals st')
    /\ res_reasoning_trace res = reasoning_trace st'
    /\ res_questions_asked res = asked_questions st
    /\ asked_questions st ⊆ asked_questions st'.
Proof.
  destruct (backward_chain_total rules goals st) as (res & st' & Hrun).
  exists res, st'. split; [exact Hrun|].
  unfold backward_chain in Hrun.
  destruct (chain_loop rules goals [] [] st) as [[[p f] st1]|] eqn:Hloop;
    [|discriminate].
  injection Hrun as <- <-. simpl.
  destruct (chain_loop_report _ _ _ _ _ _ _ _ Hloop)
    as ((_ & Ha & _) & p' & f' & -> & -> & Hlen & Hiff & Hp & Hf).
  simpl. repeat split; auto; apply Hiff.
Qed.

(** On a new session whose callback confirms everything, a leaf goal is
    reported proved and the session has asked about it, yet the reported
    [questions_asked] is empty. *)
Example backward_chain_questions_snapshot :
  exists res st',
    backward_chain layered_rules ["b"%string]
      (set_question_callback always_yes init) = Some (res, st')
    /\ (res_proved_goals res).*1 = ["b"%string]
    /\ res_questions_asked res = ∅
    /\ asked_questions st' = {["b"%string]}.
Proof.
  destruct (backward_chain_total layered_rules ["b"%string]
              (set_question_callback always_yes init)) as (res & st' & H).
  exists res, st'. split; [exact H|].
  vm_compute in H. injection H as <- <-.
  repeat split; reflexivity.
Qed.

(** *** Statistics *)

(** X27. [get_statistics] never divides by zero, counts as attempted the
    proved and the failed goals, and gives a success rate between 0 and
    100, which is 0 when nothing is proved. *)
Theorem get_statistics_rate (st : state) :
  exists s,
    BCMore.get_statistics st = Some s
    /\ BCMore.total_goals_attempted s
       = (size (proved_goals st) + size (failed_goals st))%nat
    /\ BCMore.stat_proved_goals s = size (proved_goals st)
    /\ BCMore.stat_failed_goals s = size (failed_goals st)
    /\ BCMore.questions_asked s = size (asked_questions st)
    /\ BCMore.reasoning_steps s = length (reasoning_trace st)
    /\ 0 <= BCMore.success_rate s <= 100
    /\ (proved_goals st = ∅ -> BCMore.success_rate s == 0).
Proof.
  unfold BCMore.get_statistics.
  set (p := size (proved_goals st)). set (f := size (failed_goals st)).
  set (d := inject_Z (Z.of_nat (Nat.max (p + f) 1))).
  assert (Hd : 0 < d) by (unfold d, Qlt; simpl; lia).
  assert (Hpd : inject_Z (Z.of_nat p) <= d)
    by (unfold d, Qle; simpl; lia).
  assert (Hp0 : 0 <= inject_Z (Z.of_nat p))
    by (unfold Qle; simpl; lia).
  unfold CF.py_div.
  destruct (Qeq_bool d 0) eqn:E.
  { apply Qeq_bool_iff in E. rewrite E in Hd. discriminate. }
  eexists. split; [reflexivity|]. simpl.
  repeat (split; [reflexivity|]).
  assert (Hr : 0 <= inject_Z (Z.of_nat p) / d <= 1).
  { split.
    - apply Qle_shift_div_l; [exact Hd | lra].
    - apply Qle_shift_div_r; [exact Hd | lra]. }
  split; [split; nra|].
  intros Hempty. subst p. rewrite Hempty, size_empty. simpl.
  unfold Qdiv. ring.
Qed.

End BCReport.

Module CFLikert.
Import CF CFCalc.

Lemma dict_get_range items key default :
  Forall (fun item => 0 <= item.2 <= 1) items -> 0 <= default <= 1 ->
  0 <= dict_get items key default <= 1.
Proof.
  intros Hall Hd. induction Hall as [|[k v] items Hv _ IH]; simpl.
  - exact Hd.
  - destruct (String.eqb k key); [exact Hv | exact IH].
Qed.

(** X28. [likert_to_cf] always returns a value of [0,1], whatever the
    case of the letters; of the category labels [interpret_cf] produces
    (the labels its own docstring gives as input) it only understands
    [Yakin], read as 0.6: the other five are written with spaces, the
    keys of the mapping with underscores, and get the default 0.5. *)
Theorem likert_to_cf_labels :
  (forall likert, 0 <= likert_to_cf likert <= 1)
  /\ (forall cf,
        ((interpret_cf cf).1 = "Yakin"%string
         /\ likert_to_cf (interpret_cf cf).1 = 6 # 10)
        \/ ((interpret_cf cf).1 <> "Yakin"%string
            /\ likert_to_cf (interpret_cf cf).1 = 5 # 10))
  /\ likert_to_cf "SANGAT_YAKIN" = 1
  /\ likert_to_cf "sangat_yakin" = 1.
Proof.
  split; [|split; [|split; reflexivity]].
  - intros likert. apply dict_get_range; [|split; discriminate].
    unfold likert_mapping.
    repeat (constructor; [split; discriminate|]). constructor.
  - intros cf.
    pose proof (InterpretProps.interpret_cf_in_categories cf) as H.
    unfold cf_categories in H. cbn [In] in H.
    repeat (destruct H as [<-|H];
            [first [left; split; reflexivity
                   | right; split; [discriminate | reflexivity]]|]).
    destruct H.
Qed.

(** X29. [compare_hypotheses] reads a hypothesis it has no certainty
    factor for as 0; its [difference] is not negative and does not depend
    on the order of the two hypotheses; [more_likely] is the first
    hypothesis only when its factor is strictly larger, so a tie goes to
    the second. *)
Theorem compare_hypotheses_outcome
  (hypothesis_cfs : gmap string Q) (hyp1 hyp2 : string) :
  0 <= difference (compare_hypotheses hypothesis_cfs hyp1 hyp2)
  /\ difference (compare_hypotheses hypothesis_cfs hyp1 hyp2)
     == difference (compare_hypotheses hypothesis_cfs hyp2 hyp1)
  /\ (hypothesis_cfs !! hyp1 = None ->
      cmp_cf_1 (compare_hypotheses hypothesis_cfs hyp1 hyp2) = 0)
  /\ (cmp_cf_2 (compare_hypotheses hypothesis_cfs hyp1 hyp2)
      < cmp_cf_1 (compare_hypotheses hypothesis_cfs hyp1 hyp2) ->
      more_likely (compare_hypotheses hypothesis_cfs hyp1 hyp2) = hyp1)
  /\ (cmp_cf_1 (compare_hypotheses hypothesis_cfs hyp1 hyp2)
      <= cmp_cf_2 (compare_hypotheses hypothesis_cfs hyp1 hyp2) ->
      more_likely (compare_hypotheses hypothesis_cfs hyp1 hyp2) = hyp2).
Proof.
  unfold compare_hypotheses.
  cbn [difference cmp_cf_1 cmp_cf_2 more_likely].
  set (cf1 := default 0 (hypothesis_cfs !! hyp1)).
  set (cf2 := default 0 (hypothesis_cfs !! hyp2)).
  split; [apply Qabs_nonneg|]. split; [|split; [|split]].
  - assert (E : cf2 - cf1 == - (cf1 - cf2)) by ring.
    rewrite E, Qabs_opp. reflexivity.
  - intros H. unfold cf1. rewrite H. reflexivity.
  - intros H. destruct (Qle_bool cf1 cf2) eqn:E; [|reflexivity].
    apply Qle_bool_iff in E. exfalso. apply (Qlt_not_le _ _ H E).
  - intros H. apply Qle_bool_iff in H. rewrite H. reflexivity.
Qed.

End CFLikert.

(** ** The confidence [backward_chain] reports *)

Module ConfidenceReport.
Import BC BCProps BCSession BCInvariant Confidence BCExamples.
Import BCGrowth BCVerdict BCReport.

(** C6 (as amended). In a session over a rule base whose certainty
    factors are at most 1, [backward_chain] returns; every requested goal
    that ends in [proved_goals] and not in [failed_goals] is reported as
    proved; and the confidence reported with a goal is the minimum of the
    certainty factors of the [goal_proved_by_rule] entries the returned
    trace holds for that goal itself, that is of the rules that concluded
    it, and 1.0 when the trace holds none (the goal was proved by a fact
    or by the user). The rules that proved the antecedents do not
    enter. *)
Theorem backward_chain_confidence
  (rules : rule_base) (goals : list string) (st : state) :
  (forall rule_id r, (rule_id, r) ∈ rules -> rule_cf r <= 1) ->
  session rules st ->
  exists res st',
    backward_chain rules goals st = Some (res, st')
    /\ (forall g,
          g ∈ goals -> g ∈ proved_goals st' -> g ∉ failed_goals st' ->
          exists c, (g, c) ∈ res_proved_goals res)
    /\ (forall g c,
          (g, c) ∈ res_proved_goals res ->
          g ∈ goals
          /\ g ∈ proved_goals st'
          /\ c == minimum_cf (concluding_cfs g (res_reasoning_trace res))).
Proof.
  intros Hcf Hsession.
  destruct (reported_confidence rules goals st Hcf Hsession)
    as (res & st' & Hrun & Hconf).
  exists res, st'. split; [exact Hrun|].
  assert (Hrun' := Hrun). unfold backward_chain in Hrun'.
  destruct (chain_loop rules goals [] [] st) as [[[p f] st1]|] eqn:Hloop;
    [|discriminate].
  injection Hrun' as Hres Hst. subst st1.
  destruct (chain_loop_report _ _ _ _ _ _ _ _ Hloop)
    as (_ & p' & f' & Ep & Ef & _ & Hiff & _ & Hf).
  simpl in Ep, Ef. subst p' f'.
  assert (Hproved : res_proved_goals res = p) by (rewrite <- Hres; reflexivity).
  split.
  - intros g Hg Hp Hnf. apply Hiff in Hg as [Hg|Hg].
    + apply list_elem_of_fmap in Hg as ([g' c] & -> & Hin).
      exists c. rewrite Hproved. exact Hin.
    + exfalso. apply Hnf, Hf, Hg.
  - intros g c Hin. destruct (Hconf g c Hin) as [Hp Hc].
    split; [|split; [exact Hp | exact Hc]].
    apply Hiff. left. apply list_elem_of_fmap. exists (g, c).
    split; [reflexivity|]. rewrite <- Hproved. exact Hin.
Qed.

Lemma backward_chain_confidence_witness :
  exists res st',
    backward_chain layered_rules ["g"; "m"; "a"; "z"]%string layered_start
    = Some (res, st')
    /\ (forall g,
          g ∈ ["g"; "m"; "a"; "z"]%string ->
          g ∈ proved_goals st' -> g ∉ failed_goals st' ->
          exists c, (g, c) ∈ res_proved_goals res)
    /\ (forall g c,
          (g, c) ∈ res_proved_goals res ->
          g ∈ ["g"; "m"; "a"; "z"]%string
          /\ g ∈ proved_goals st'
          /\ c == minimum_cf (concluding_cfs g (res_reasoning_trace res))).
Proof.
  apply (backward_chain_confidence layered_rules
           ["g"; "m"; "a"; "z"]%string layered_start).
  - exact layered_rules_cf_le_1.
  - exact layered_start_session.
Defined.

(** What that run reports: [g] with the certainty factor of R1, [m] with
    that of R2, and the known fact [a] and the confirmed leaf [z] with
    1.0. *)
Example layered_report :
  exists res st',
    backward_chain layered_rules ["g"; "m"; "a"; "z"]%string layered_start
    = Some (res, st')
    /\ res_proved_goals res
       = [("g", 9 # 10); ("m", 6 # 10); ("a", 1); ("z", 1)]%string
    /\ res_failed_goals res = [].
Proof.
  destruct (backward_chain_total layered_rules ["g"; "m"; "a"; "z"]%string
              layered_start) as (res & st' & H).
  exists res, st'. split; [exact H|].
  vm_compute in H. injection H as <- <-. split; reflexivity.
Qed.

(** C6 (as stated) fails. On [layered_rules], with [a] and [b] known, [g]
    is proved by R1 (0.9) from [m] and [a], after [m] was proved by R2
    (0.6) from [b]. Both rules are recorded in the trace and R2
    contributes to the proof of [g], so the minimum over all contributing
    rules is 0.6; [backward_chain] reports 0.9, the certainty factor of
    the one entry recorded for [g] itself. *)
Lemma confidence_ignores_antecedent_rules :
  exists res st' c,
    backward_chain layered_rules ["g"%string] layered_start = Some (res, st')
    /\ res_proved_goals res = [("g"%string, c)]
    /\ c == 9 # 10
    /\ contributing_cfs layered_rules (res_reasoning_trace res) "g"
       = [9 # 10; 6 # 10]
    /\ minimum_cf
         (contributing_cfs layered_rules (res_reasoning_trace res) "g")
       == 6 # 10
    /\ ~ c == minimum_cf
              (contributing_cfs layered_rules (res_reasoning_trace res) "g").
Proof.
  destruct (backward_chain_total layered_rules ["g"%string] layered_start)
    as (res & st' & H).
  exists res, st', (9 # 10). split; [exact H|].
  vm_compute in H. injection H as <- <-.
  split; [reflexivity|]. split; [reflexivity|].
  split; [vm_compute; reflexivity|].
  split; [vm_compute; reflexivity|].
  vm_compute. discriminate.
Qed.

End ConfidenceReport.
